(** * MedLaw pipeline: ingestion (extractor, chunker) and embedding indexer

  A shallow embedding of the Python sources under [pipeline/] together
  with the properties stated about them.

  Conventions.
  - A Python [str] is a [string]; its characters are the code points
    U+0000..U+00FF (one [ascii] each).
  - A Python [int] is a [Z]; a Python [list] is a [list]; a [dict] with
    string keys is a [gmap string _]; [None] is [None] of an [option]
    (or the value [PNone] inside a JSON-like record).
  - A call that can raise returns an [outcome]. *)

From Stdlib Require Import ZArith Ascii String DecimalString Permutation Sorted.
From Stdlib Require Import DecimalPos DecimalZ.
From stdpp Require Import base list strings gmap.

Set Warnings "-register-all".

Local Open Scope Z_scope.

(** ** Outcomes of calls that may raise *)

Inductive exn : Type :=
| ValueError (msg : string)
| AssertionError (msg : string)
| FileNotFoundError (path : string)
| NotADirectoryError (path : string)
| RuntimeError (msg : string)
| UnpicklingError (msg : string)
| IndexError (msg : string).

Inductive outcome (A : Type) : Type :=
| Return (a : A)
| Raise (e : exn).
Arguments Return {A} a.
Arguments Raise {A} e.

Definition bind_outcome {A B} (m : outcome A) (k : A → outcome B) : outcome B :=
match m with
| Return a => k a
| Raise e => Raise e
end.

(** ** Python built-ins on strings and lists *)

Module PyStr.

(** [str.isspace] on one character, for code points below 256
    (the table of [_PyUnicode_IsWhitespace]). The pattern [\s] of [re] on
    a [str] and [str.strip()] / [str.split()] use the same set. *)
Definition isspace (c : ascii) : bool :=
  let n := N_of_ascii c in
  ((9 <=? n) && (n <=? 13) || (28 <=? n) && (n <=? 31)
   || (n =? 32) || (n =? 133) || (n =? 160))%N.

Definition space : ascii := " "%char.
Definition carriage_return : ascii := "013"%char.

Definition starts_space (s : string) : bool :=
  match s with
  | String c _ => isspace c
  | EmptyString => false
  end.

Definition starts_word (s : string) : bool :=
  match s with
  | String c _ => negb (isspace c)
  | EmptyString => false
  end.

(** [s.split()]: the maximal runs of non-whitespace characters. *)
Fixpoint split (s : string) : list string :=
  match s with
  | EmptyString => []
  | String c r =>
      if isspace c then split r
      else if starts_word r then
        match split r with
        | w :: ws => String c w :: ws
        | [] => [String c EmptyString]
        end
      else String c EmptyString :: split r
  end.

(** A word: not empty, no whitespace in it. *)
Fixpoint no_space (w : string) : bool :=
  match w with
  | EmptyString => true
  | String c r => negb (isspace c) && no_space r
  end.

Definition is_word (w : string) : Prop :=
  w ≠ EmptyString ∧ no_space w = true.

(** [sep.join(ws)] *)
Fixpoint join (sep : string) (ws : list string) : string :=
  match ws with
  | [] => EmptyString
  | w :: rest =>
      match rest with
      | [] => w
      | _ :: _ => w +:+ sep +:+ join sep rest
      end
  end.

(** [s.replace(old, new)] for one-character [old] and [new]. *)
Fixpoint replace_char (old new : ascii) (s : string) : string :=
  match s with
  | EmptyString => EmptyString
  | String c r =>
      String (if decide (c = old) then new else c) (replace_char old new r)
  end.

(** [re.sub(r"\s+", " ", s)]: every maximal run of whitespace becomes one
    space. *)
Fixpoint collapse_whitespace (s : string) : string :=
  match s with
  | EmptyString => EmptyString
  | String c r =>
      if isspace c then
        if starts_space r then collapse_whitespace r
        else String space (collapse_whitespace r)
      else String c (collapse_whitespace r)
  end.

Fixpoint lstrip (s : string) : string :=
  match s with
  | EmptyString => EmptyString
  | String c r => if isspace c then lstrip r else s
  end.

Fixpoint rstrip (s : string) : string :=
  match s with
  | EmptyString => EmptyString
  | String c r =>
      match rstrip r with
      | EmptyString => if isspace c then EmptyString else String c EmptyString
      | String _ _ as r' => String c r'
      end
  end.

(** [s.strip()] *)
Definition strip (s : string) : string := rstrip (lstrip s).

(** [s.lower()] on code points below 256: A-Z and the Latin-1 capitals
    U+00C0..U+00DE (U+00D7 excepted) move up by 32. *)
Definition lower_char (c : ascii) : ascii :=
  let n := N_of_ascii c in
  if ((65 <=? n) && (n <=? 90)
      || (192 <=? n) && (n <=? 222) && negb (n =? 215))%N
  then ascii_of_N (n + 32) else c.

Fixpoint lower (s : string) : string :=
  match s with
  | EmptyString => EmptyString
  | String c r => String (lower_char c) (lower r)
  end.

(** [s.split(sep)] for a one-character separator: empty fields are kept
    and the result is never empty. *)
Fixpoint split_on (sep : ascii) (s : string) : list string :=
  match s with
  | EmptyString => [EmptyString]
  | String c r =>
      if decide (c = sep) then EmptyString :: split_on sep r
      else match split_on sep r with
           | w :: ws => String c w :: ws
           | [] => [String c EmptyString]
           end
  end.

(** [str(n)] and the [{n}] of an f-string for an [int]. *)
Definition str_of_int (n : Z) : string :=
  NilEmpty.string_of_int (Z.to_int n).

(** The slice [l[start:stop]] with the usual treatment of negative and
    out-of-range bounds. *)
Definition clamp_index (len i : Z) : Z :=
  if i <? 0 then Z.max (i + len) 0 else Z.min i len.

Definition slice {A} (l : list A) (start stop : Z) : list A :=
  let len := Z.of_nat (length l) in
  let s := clamp_index len start in
  let e := clamp_index len stop in
  take (Z.to_nat (e - s)) (drop (Z.to_nat s) l).

(** The number of elements of [l[start:stop]] for a list of [len]
    elements. *)
Definition slice_length (len start stop : Z) : nat :=
  Z.to_nat (clamp_index len stop - clamp_index len start).

(** [s.endswith(suffix)] and [s.startswith(prefix)] *)
Fixpoint endswith (s suffix : string) : bool :=
  if String.eqb s suffix then true
  else match s with
       | EmptyString => false
       | String _ r => endswith r suffix
       end.

Definition startswith (s prefix : string) : bool := String.prefix prefix s.

(** [s.rfind(".")], [None] standing for -1. *)
Fixpoint rfind_dot (s : string) : option nat :=
  match s with
  | EmptyString => None
  | String c r =>
      match rfind_dot r with
      | Some i => Some (S i)
      | None => if decide (c = "."%char) then Some O else None
      end
  end.

(** [s[i:]] and [s[:i]] for [0 <= i]. *)
Fixpoint drop_chars (i : nat) (s : string) : string :=
  match i, s with
  | O, _ => s
  | S _, EmptyString => EmptyString
  | S i', String _ r => drop_chars i' r
  end.

Fixpoint take_chars (i : nat) (s : string) : string :=
  match i, s with
  | O, _ => EmptyString
  | S _, EmptyString => EmptyString
  | S i', String c r => String c (take_chars i' r)
  end.

(** The parts of a relative [pathlib.PurePosixPath]: the components
    between slashes, the empty ones and ["."] dropped. *)
Definition path_parts (p : string) : list string :=
  filter (λ c, c ≠ EmptyString ∧ c ≠ ".") (split_on "/" p).

(** [Path(p).name] *)
Definition path_name (p : string) : string :=
  default EmptyString (last (path_parts p)).

(** The position at which [PurePath.suffix] and [PurePath.stem] cut a
    name: the last dot, unless it is the first or the last character. *)
Definition suffix_cut (name : string) : option nat :=
  match rfind_dot name with
  | Some i =>
      if (0 <? i)%nat && (i <? String.length name - 1)%nat then Some i
      else None
  | None => None
  end.

Definition name_suffix (name : string) : string :=
  match suffix_cut name with
  | Some i => drop_chars i name
  | None => EmptyString
  end.

Definition name_stem (name : string) : string :=
  match suffix_cut name with
  | Some i => take_chars i name
  | None => name
  end.

(** [Path(p).suffix] *)
Definition path_suffix (p : string) : string := name_suffix (path_name p).

(** [int(s)] in base 10; [None] stands for [ValueError]. White space
    around the literal is the ASCII set of [Py_ISSPACE] together with the
    non-ASCII spaces U+0085 and U+00A0; one sign; digits, single
    underscores allowed between them. *)
Definition int_space (c : ascii) : bool :=
  let n := N_of_ascii c in
  ((9 <=? n) && (n <=? 13) || (n =? 32) || (n =? 133) || (n =? 160))%N.

Definition digit_value (c : ascii) : option Z :=
  let n := N_of_ascii c in
  if ((48 <=? n) && (n <=? 57))%N then Some (Z.of_N n - 48) else None.

Fixpoint parse_digits (acc : Z) (after_digit : bool) (s : string)
  : option Z :=
  match s with
  | EmptyString => if after_digit then Some acc else None
  | String c r =>
      match digit_value c with
      | Some v => parse_digits (10 * acc + v) true r
      | None =>
          if decide (c = "_"%char) then
            if after_digit then parse_digits acc false r else None
          else None
      end
  end.

Fixpoint int_lstrip (s : string) : string :=
  match s with
  | EmptyString => EmptyString
  | String c r => if int_space c then int_lstrip r else s
  end.

Fixpoint int_rstrip (s : string) : string :=
  match s with
  | EmptyString => EmptyString
  | String c r =>
      match int_rstrip r with
      | EmptyString =>
          if int_space c then EmptyString else String c EmptyString
      | String _ _ as r' => String c r'
      end
  end.

Definition int_of_str (s : string) : option Z :=
  match int_rstrip (int_lstrip s) with
  | String "-" r => Z.opp <$> parse_digits 0 false r
  | String "+" r => parse_digits 0 false r
  | r => parse_digits 0 false r
  end.

End PyStr.

(** ** pipeline/ingestion/chunker.py *)

Module Chunker.
Import PyStr.

(** [split_words(text)]; a falsy [text] ([None] or the empty string)
    gives no words. *)
Definition split_words (text : option string) : list string :=
  match text with
  | None => []
  | Some EmptyString => []
  | Some t => split t
  end.

(** An entry [{"page": _, "text": _}] of [page_texts]. *)
Record PageText := { pt_page : option Z; pt_text : option string }.

(** An entry of [page_ranges]. *)
Record PageRange :=
  { range_page : option Z; range_start_offset : Z; range_end_offset : Z }.

Fixpoint build_page_ranges_from (offset : Z) (page_texts : list PageText)
  : list PageRange :=
  match page_texts with
  | [] => []
  | entry :: rest =>
      let page_num := pt_page entry in
      let words := split_words (pt_text entry) in
      let length := Z.of_nat (length words) in
      let start := offset in
      let end_ := offset + length in
      {| range_page := page_num;
         range_start_offset := start;
         range_end_offset := end_ |} :: build_page_ranges_from end_ rest
  end.

Definition build_page_ranges (page_texts : list PageText) : list PageRange :=
  build_page_ranges_from 0 page_texts.

Fixpoint scan_page_ranges (ranges : list PageRange) (start_offset : Z)
  : option (option Z) :=
  match ranges with
  | [] => None
  | rng :: rest =>
      if (range_start_offset rng <=? start_offset)
         && (start_offset <? range_end_offset rng)
      then Some (range_page rng)
      else scan_page_ranges rest start_offset
  end.

Definition _find_page (page_ranges : option (list PageRange))
                      (start_offset : Z) : option Z :=
  match page_ranges with
  | None => None
  | Some [] => None
  | Some ranges =>
      match scan_page_ranges ranges start_offset with
      | Some p => p
      | None => mjoin (range_page <$> last ranges)
      end
  end.

(** The dict built for each chunk. *)
Record Chunk :=
  { doc_id : string;
    chunk_index : Z;
    text : string;
    start_offset : Z;
    end_offset : Z;
    source : option string;
    page : option Z }.

(** The [while start < total] loop; [fuel] bounds the number of
    iterations (see [chunk_loop_fuel]). *)
Fixpoint chunk_loop (fuel : nat) (words : list string) (doc_id : string)
         (chunk_size step : Z) (source : option string)
         (page_ranges : option (list PageRange))
         (start index : Z) : list Chunk :=
  match fuel with
  | O => []
  | S fuel' =>
      let total := Z.of_nat (length words) in
      if start <? total then
        let end_ := Z.min (start + chunk_size) total in
        let chunk_words := slice words start end_ in
        match chunk_words with
        | [] => []
        | _ :: _ =>
            let chunk_text_str := join " " chunk_words in
            {| doc_id := doc_id;
               chunk_index := index;
               text := chunk_text_str;
               start_offset := start;
               end_offset := end_;
               source := source;
               page := _find_page page_ranges start |}
            :: chunk_loop fuel' words doc_id chunk_size step source
                          page_ranges (start + step) (index + 1)
        end
      else []
  end.

Definition chunk_text (text : option string) (doc_id : string)
           (chunk_size overlap : Z) (source : option string)
           (page_ranges : option (list PageRange)) : list Chunk :=
  let words := split_words text in
  match words with
  | [] => []
  | _ :: _ =>
      let step := Z.max (chunk_size - overlap) 1 in
      chunk_loop (length words) words doc_id chunk_size step source
                 page_ranges 0 0
  end.

(** The offsets and indices the loop of [chunk_text] goes through, as a
    function of the number of words alone. *)
Fixpoint windows (fuel : nat) (total chunk_size step start index : Z)
  : list (Z * Z * Z) :=
  match fuel with
  | O => []
  | S fuel' =>
      if start <? total then
        let end_ := Z.min (start + chunk_size) total in
        match slice_length total start end_ with
        | O => []
        | S _ =>
            (start, end_, index)
            :: windows fuel' total chunk_size step (start + step) (index + 1)
        end
      else []
  end.

Definition window_of (c : Chunk) : Z * Z * Z :=
  (start_offset c, end_offset c, chunk_index c).

(** The input of the examples: [n] words. *)
Fixpoint words_text (n : nat) : string :=
  match n with
  | O => EmptyString
  | S n' => String "w" (String " " (words_text n'))
  end.

(** The number of words of a page segment, and of a list of them. *)
Definition page_words (e : PageText) : Z :=
  Z.of_nat (length (split_words (pt_text e))).

Fixpoint total_words (page_texts : list PageText) : Z :=
  match page_texts with
  | [] => 0
  | e :: rest => page_words e + total_words rest
  end.

End Chunker.

(** ** pipeline/ingestion/extractor.py *)

Module Extractor.
Import PyStr.

Definition image_suffixes : list string :=
  [".png"; ".jpg"; ".jpeg"; ".tif"; ".tiff"; ".bmp"; ".webp"].

Definition detect_file_type (file_path : string) : outcome string :=
  let suffix := lower (path_suffix file_path) in
  if String.eqb suffix ".pdf" then Return "pdf"
  else if String.eqb suffix ".docx" then Return "docx"
  else if String.eqb suffix ".txt" then Return "txt"
  else if bool_decide (suffix ∈ image_suffixes) then Return "image"
  else Raise (ValueError ("Unsupported file type: " +:+ suffix)).

Definition clean_text (text : option string) : string :=
  match text with
  | None => EmptyString
  | Some EmptyString => EmptyString
  | Some text =>
      let text := replace_char carriage_return space text in
      let text := collapse_whitespace text in
      strip text
  end.

End Extractor.

(** The extraction functions of [extractor.py]. What the readers of the
    libraries give for a file is data of the model: the pages of
    [pdfplumber] (for each page the result of [extract_text], and what
    [pytesseract] reads on its rendering at 300 dpi), the paragraph texts of
    [python-docx], the text decoded as UTF-8 with malformed bytes dropped,
    and what [pytesseract] reads on the image. [None] stands for a reader
    that raises on this file. *)

Module Extraction.
Import PyStr Chunker Extractor.

Record pdf_page := {
  structural_text : option string;
  rendered_ocr : option string }.

Record source_file := {
  as_pdf : option (list pdf_page);
  as_docx : option (list string);
  as_text : string;
  as_image : option string }.

(** [t or ""] *)
Definition or_empty (t : option string) : string :=
  match t with
  | Some (String c r) => String c r
  | _ => EmptyString
  end.

(** The body of the loop of [_extract_pdf]: the text of one page. *)
Definition pdf_page_text (page : pdf_page) : outcome string :=
  let text := or_empty (structural_text page) in
  let text := clean_text (Some text) in
  match text with
  | EmptyString =>
      match rendered_ocr page with
      | Some read => Return (clean_text (Some read))
      | None => Raise (RuntimeError "pytesseract.image_to_string")
      end
  | String _ _ => Return text
  end.

Fixpoint pdf_page_texts (idx : Z) (pages : list pdf_page)
  : outcome (list PageText) :=
  match pages with
  | [] => Return []
  | page :: rest =>
      bind_outcome (pdf_page_text page) (λ text,
        bind_outcome (pdf_page_texts (idx + 1) rest) (λ more,
          Return ({| pt_page := Some idx; pt_text := Some text |} :: more)))
  end.

(** [full_text_parts], which holds the texts of [page_texts]. *)
Definition segment_text (e : PageText) : string :=
  default EmptyString (pt_text e).

Definition _extract_pdf (f : source_file)
  : outcome (string * list PageText) :=
  match as_pdf f with
  | None => Raise (RuntimeError "pdfplumber.open")
  | Some pages =>
      bind_outcome (pdf_page_texts 1 pages) (λ page_texts,
        let full_text :=
          clean_text (Some (join " " (segment_text <$> page_texts))) in
        Return (full_text, page_texts))
  end.

(** A page segment whose text is there and clean. *)
Definition clean_segment (e : PageText) : Prop :=
  ∃ t, pt_text e = Some t ∧ clean_text (Some t) = t.

Definition single_page (text : string) : string * list PageText :=
  (text, [{| pt_page := Some 1; pt_text := Some text |}]).

Definition _extract_docx (f : source_file)
  : outcome (string * list PageText) :=
  match as_docx f with
  | None => Raise (RuntimeError "docx.Document")
  | Some paras =>
      let paragraphs := filter (λ t, t ≠ EmptyString) paras in
      let text := clean_text (Some (join " " paragraphs)) in
      Return (single_page text)
  end.

Definition _extract_txt (f : source_file)
  : outcome (string * list PageText) :=
  let text := as_text f in
  let text := clean_text (Some text) in
  Return (single_page text).

Definition _extract_image (f : source_file)
  : outcome (string * list PageText) :=
  match as_image f with
  | None => Raise (RuntimeError "PIL.Image.open")
  | Some read => Return (single_page (clean_text (Some read)))
  end.

(** [extract_text(file_path)], over the files there are. *)
Definition extract_text (files : string → option source_file)
           (file_path : string) : outcome (string * list PageText) :=
  bind_outcome (detect_file_type file_path) (λ ftype,
    match files file_path with
    | None => Raise (FileNotFoundError file_path)
    | Some f =>
        if String.eqb ftype "pdf" then _extract_pdf f
        else if String.eqb ftype "docx" then _extract_docx f
        else if String.eqb ftype "txt" then _extract_txt f
        else if String.eqb ftype "image" then _extract_image f
        else Raise (ValueError ("Unhandled file type: " +:+ ftype))
    end).

End Extraction.

(** ** pipeline/embed-and-vec-search/embed_and_index.py *)

Module Indexer.
Import PyStr.

(** The numeric kernel the indexer relies on and does not implement:
    [float32] scalars, one row of [faiss.normalize_L2], the inner product
    by which [IndexFlatIP] scores, the order of scores, and what Python
    does with a [float] ([==], [repr]). *)
Class Float32Kernel := {
  scalar : Type;
  normalize_row : list scalar → list scalar;
  normalize_row_length : ∀ r, length (normalize_row r) = length r;
  inner_product : list scalar → list scalar → scalar;
  score_ltb : scalar → scalar → bool;
  minus_infinity : scalar;
  float_eqb : scalar → scalar → bool;
  float_eq_int : scalar → Z → bool;
  float_repr : scalar → string }.

Section WithKernel.
Context `{K : Float32Kernel}.

(** *** Values held by chunk records
    The scalar values of JSON and the [float] of a score; arrays and
    objects nested in a record are not represented. *)

Inductive pyval : Type :=
| PNone
| PBool (b : bool)
| PInt (n : Z)
| PFloat (x : scalar)
| PStr (s : string).

Definition int_of_bool (b : bool) : Z := if b then 1 else 0.

(** [a == b] *)
Definition py_eq (a b : pyval) : bool :=
  match a, b with
  | PNone, PNone => true
  | PBool x, PBool y => int_of_bool x =? int_of_bool y
  | PBool x, PInt y => int_of_bool x =? y
  | PInt x, PBool y => x =? int_of_bool y
  | PInt x, PInt y => x =? y
  | PFloat x, PFloat y => float_eqb x y
  | PFloat x, PInt y => float_eq_int x y
  | PInt x, PFloat y => float_eq_int y x
  | PFloat x, PBool y => float_eq_int x (int_of_bool y)
  | PBool x, PFloat y => float_eq_int y (int_of_bool x)
  | PStr x, PStr y => String.eqb x y
  | _, _ => false
  end.

(** [f"{v}"] *)
Definition py_format (v : pyval) : string :=
  match v with
  | PNone => "None"
  | PBool true => "True"
  | PBool false => "False"
  | PInt n => str_of_int n
  | PFloat x => float_repr x
  | PStr s => s
  end.

(** A chunk record as the indexer sees it: a [dict] with string keys. *)
Abbreviation dict := (gmap string pyval).

(** [d.get(key)] *)
Definition dict_get (d : dict) (key : string) : pyval :=
  default PNone (d !! key).

(** *** The exact inner-product index ([faiss.IndexFlatIP]) *)

Record IndexFlatIP := { d : nat; xb : list (list scalar) }.

Definition new_IndexFlatIP (dim : nat) : IndexFlatIP :=
  {| d := dim; xb := [] |}.

Definition ntotal (idx : IndexFlatIP) : Z := Z.of_nat (length (xb idx)).

(** [index.add(x)]: the rows of [x] are appended; the wrapper asserts
    that their width is the index dimension. *)
Definition index_add (idx : IndexFlatIP) (x : list (list scalar))
  : outcome IndexFlatIP :=
  if forallb (λ r, length r =? d idx)%nat x
  then Return {| d := d idx; xb := xb idx ++ x |}
  else Raise (AssertionError "d == self.d").

Fixpoint insert_by_score (c : Z * scalar) (l : list (Z * scalar))
  : list (Z * scalar) :=
  match l with
  | [] => [c]
  | c' :: r =>
      if score_ltb (snd c) (snd c') then c' :: insert_by_score c r
      else c :: l
  end.

(** By descending score; equal scores keep their order (the library
    leaves the order of ties open). *)
Definition sort_by_score (l : list (Z * scalar)) : list (Z * scalar) :=
  foldr insert_by_score [] l.

(** [index.search(q, k)] for one query: the [k] best positions with
    their scores, best first; the wrapper asserts the width of the query
    and [k > 0]; missing results are labelled -1. *)
Definition index_search (idx : IndexFlatIP) (q : list scalar) (k : Z)
  : outcome (list (Z * scalar)) :=
  if negb (length q =? d idx)%nat then Raise (AssertionError "d == self.d")
  else if k <=? 0 then Raise (AssertionError "k > 0")
  else
    let scored :=
      imap (λ i v, (Z.of_nat i, inner_product q v)) (xb idx) in
    let best := take (Z.to_nat k) (sort_by_score scored) in
    Return (best ++ replicate (Z.to_nat k - length best)
                              (-1, minus_infinity)).

(** *** numpy arrays on the heap
    A two-dimensional [float32] array is the list of its rows; arrays
    are objects, named by their location. *)
Abbreviation ndarray := (list (list scalar)).
Abbreviation heap := (gmap positive (list (list scalar))).

Definition array_at (h : heap) (l : positive) : ndarray :=
  default [] (h !! l).

(** [a.copy()]: a new array with the same contents. *)
Definition ndarray_copy (h : heap) (l : positive) : heap * positive :=
  let l' := fresh (dom h) in
  (<[l' := array_at h l]> h, l').

(** [faiss.normalize_L2(a)]: in place. *)
Definition normalize_L2 (h : heap) (l : positive) : heap :=
  alter (map normalize_row) l h.

(** *** The file system
    A tree of directories and files, seen from the working directory; a
    directory lists its entries in the order in which it enumerates them.
    A path is a list of names, looked up one after the other as they are:
    the tree gives no meaning to [".."], and the paths it stands for are
    the relative ones without it. *)
Inductive file_content : Type :=
| JsonObject (o : dict)
| JsonOther
| FaissIndexFile (idx : IndexFlatIP)
| PickleFile (l : list dict)
| Garbage.

Inductive node : Type :=
| File (c : file_content)
| Dir (entries : list (string * node)).

Definition lookup_entry (name : string) (entries : list (string * node))
  : option node :=
  match list_find (λ e, fst e = name) entries with
  | Some (_, (_, child)) => Some child
  | None => None
  end.

Fixpoint resolve (fs : node) (path : list string) : option node :=
  match path with
  | [] => Some fs
  | name :: rest =>
      match fs with
      | Dir entries =>
          match lookup_entry name entries with
          | Some child => resolve child rest
          | None => None
          end
      | File _ => None
      end
  end.

(** Writing a file, its missing parent directories created on the way.
    A new entry is listed last, which is one of the orders in which the
    directory may enumerate it: no order is specified. *)
Fixpoint write_file (path : list string) (c : file_content) (fs : node)
  : node :=
  match path with
  | [] => File c
  | name :: rest =>
      match fs with
      | Dir entries =>
          match list_find (λ e, fst e = name) entries with
          | Some (i, (_, child)) =>
              Dir (<[i := (name, write_file rest c child)]> entries)
          | None =>
              Dir (entries ++ [(name, write_file rest c (Dir []))])
          end
      | File _ => fs
      end
  end.

(** Computations on the file system that may raise. *)
Definition FS (A : Type) : Type := node → node * outcome A.

Definition fs_ret {A} (a : A) : FS A := λ fs, (fs, Return a).

Definition fs_bind {A B} (m : FS A) (k : A → FS B) : FS B :=
  λ fs, match m fs with
        | (fs', Return a) => k a fs'
        | (fs', Raise e) => (fs', Raise e)
        end.

Notation "'let*' x ':=' m 'in' k" := (fs_bind m (λ x, k))
  (at level 10, x name, m at level 100, k at level 200, only parsing).

(** [try: m  except Exception: pass] *)
Definition fs_try {A} (m : FS A) : FS (option A) :=
  λ fs, match m fs with
        | (fs', Return a) => (fs', Return (Some a))
        | (fs', Raise _) => (fs', Return None)
        end.

(** [for x in l: acc = body x acc] *)
Fixpoint fs_for {A B} (l : list A) (body : A → B → FS B) (acc : B) : FS B :=
  match l with
  | [] => fs_ret acc
  | x :: rest => let* acc' := body x acc in fs_for rest body acc'
  end.

Definition path_str (path : list string) : string := join "/" path.

(** [p.exists()] *)
Definition fs_exists (path : list string) : FS bool :=
  λ fs, (fs, Return (bool_decide (is_Some (resolve fs path)))).

(** [p.is_dir()] *)
Definition fs_is_dir (path : list string) : FS bool :=
  λ fs, (fs, Return match resolve fs path with
                    | Some (Dir _) => true
                    | _ => false
                    end).

(** [p.iterdir()], as the names of the entries. *)
Definition fs_iterdir (path : list string) : FS (list string) :=
  λ fs, (fs, match resolve fs path with
             | Some (Dir entries) => Return (fst <$> entries)
             | Some (File _) => Raise (NotADirectoryError (path_str path))
             | None => Raise (FileNotFoundError (path_str path))
             end).

(** [open(p)] for reading: the content of a file. *)
Definition fs_read (path : list string) : FS file_content :=
  λ fs, (fs, match resolve fs path with
             | Some (File c) => Return c
             | Some (Dir _) => Raise (RuntimeError "IsADirectoryError")
             | None => Raise (FileNotFoundError (path_str path))
             end).

(** [open(p, "w")] and a write of the whole content, where the directory
    of [p] is there and [p] is no directory. *)
Definition fs_write (path : list string) (c : file_content) : FS unit :=
  λ fs, (write_file path c fs, Return ()).

(** *** [EmbeddingIndexer] *)

Record EmbeddingIndexer := {
  model : string → list scalar;
  index_path : list string;
  index : option IndexFlatIP;
  chunk_metadata : list dict;
  dimension : nat }.

Definition set_index (self : EmbeddingIndexer) (i : option IndexFlatIP)
  : EmbeddingIndexer :=
  {| model := model self; index_path := index_path self; index := i;
     chunk_metadata := chunk_metadata self; dimension := dimension self |}.

Definition set_chunk_metadata (self : EmbeddingIndexer) (m : list dict)
  : EmbeddingIndexer :=
  {| model := model self; index_path := index_path self;
     index := index self; chunk_metadata := m;
     dimension := dimension self |}.

(** [EmbeddingIndexer(model_name, index_path)], the model already
    loaded. *)
Definition init (encoder : string → list scalar) (path : string)
  : EmbeddingIndexer :=
  {| model := encoder; index_path := path_parts path; index := None;
     chunk_metadata := []; dimension := 384 |}.

(** The pattern [chunk_*.json] of [glob]. *)
Definition glob_chunk_json (name : string) : bool :=
  startswith name "chunk_" && endswith (drop_chars 6 name) ".json".

(** [doc_folder.glob("chunk_*.json")], as names, in enumeration order. *)
Definition fs_glob_chunks (folder : list string) : FS (list string) :=
  let* names := fs_iterdir folder in
  fs_ret (filter (λ n, glob_chunk_json n = true) names).

(** The sort key [int(x.stem.split("_")[1])]. *)
Definition sort_key (name : string) : outcome Z :=
  match split_on "_" (name_stem name) !! 1%nat with
  | None => Raise (IndexError "list index out of range")
  | Some seg =>
      match int_of_str seg with
      | Some n => Return n
      | None =>
          Raise (ValueError
                   ("invalid literal for int() with base 10: '"
                    +:+ seg +:+ "'"))
      end
  end.

Fixpoint insert_by_key (c : Z * string) (l : list (Z * string))
  : list (Z * string) :=
  match l with
  | [] => [c]
  | c' :: r =>
      if fst c' <? fst c then c' :: insert_by_key c r else c :: l
  end.

Fixpoint keyed (names : list string) : outcome (list (Z * string)) :=
  match names with
  | [] => Return []
  | n :: rest =>
      bind_outcome (sort_key n) (λ k,
        bind_outcome (keyed rest) (λ ks, Return ((k, n) :: ks)))
  end.

(** [sorted(names, key=sort_key)]: every key is computed first, in order,
    and the first failure is raised; the sort is stable, so that its
    result is the one of any stable sort. *)
Definition sorted_chunk_files (names : list string)
  : outcome (list string) :=
  bind_outcome (keyed names) (λ ks,
    Return (snd <$> foldr insert_by_key [] ks)).

(** [json.load] of an opened file. *)
Definition json_load (c : file_content) : outcome file_content :=
  match c with
  | JsonObject o => Return (JsonObject o)
  | JsonOther => Return JsonOther
  | _ => Raise (ValueError "JSONDecodeError")
  end.

(** [chunk_data["chunk_id"] = f"{doc_id}_chunk_{chunk_data['chunk_index']}"] *)
Definition add_chunk_id (doc_id : string) (chunk_data : file_content)
  : outcome dict :=
  match chunk_data with
  | JsonObject o =>
      match o !! "chunk_index" with
      | Some ci =>
          Return (<["chunk_id" :=
                    PStr (doc_id +:+ "_chunk_" +:+ py_format ci)]> o)
      | None => Raise (RuntimeError "KeyError: 'chunk_index'")
      end
  | _ => Raise (RuntimeError "TypeError")
  end.

Definition lift {A} (o : outcome A) : FS A := λ fs, (fs, o).

Definition load_chunk_file (doc_id : string) (chunk_file : list string)
  : FS dict :=
  let* c := fs_read chunk_file in
  let* chunk_data := lift (json_load c) in
  lift (add_chunk_id doc_id chunk_data).

Definition load_doc_folder (chunks_path : list string)
           (doc_folder : string) (chunks : list dict) : FS (list dict) :=
  let* is_dir := fs_is_dir (chunks_path ++ [doc_folder]) in
  if is_dir : bool then
    let doc_id := doc_folder in
    let* globbed := fs_glob_chunks (chunks_path ++ [doc_folder]) in
    let* chunk_files := lift (sorted_chunk_files globbed) in
    fs_for chunk_files (λ chunk_file chunks,
      let* loaded :=
        fs_try (load_chunk_file doc_id
                  (chunks_path ++ [doc_folder; chunk_file])) in
      match loaded with
      | Some chunk_data => fs_ret (chunks ++ [chunk_data])
      | None => fs_ret chunks
      end) chunks
  else fs_ret chunks.

Definition load_chunks (chunks_dir : string) : FS (list dict) :=
  let chunks_path := path_parts chunks_dir in
  let* present := fs_exists chunks_path in
  if negb present then fs_ret []
  else
    let* folders := fs_iterdir chunks_path in
    fs_for folders (load_doc_folder chunks_path) [].

(** What the loops of [load_chunks] compute, as functions of the file
    system: the record one chunk file contributes, if any; the records of
    one entry of the chunks directory; the records of a list of entries. *)
Definition chunk_from (fs : node) (doc_id : string) (chunk_file : list string)
  : option dict :=
  match resolve fs chunk_file with
  | Some (File (JsonObject o)) =>
      match o !! "chunk_index" with
      | Some ci =>
          Some (<["chunk_id" :=
                  PStr (doc_id +:+ "_chunk_" +:+ py_format ci)]> o)
      | None => None
      end
  | _ => None
  end.

Definition folder_chunks (fs : node) (chunks_path : list string)
           (doc_folder : string) (chunk_files : list string) : list dict :=
  omap (λ f, chunk_from fs doc_folder (chunks_path ++ [doc_folder; f]))
       chunk_files.

Definition globbed_names (folder : list (string * node)) : list string :=
  filter (λ n, glob_chunk_json n = true) (fst <$> folder).

Definition doc_chunks (fs : node) (chunks_path : list string)
           (doc_folder : string) : outcome (list dict) :=
  match resolve fs (chunks_path ++ [doc_folder]) with
  | Some (Dir folder) =>
      bind_outcome (sorted_chunk_files (globbed_names folder))
        (λ chunk_files,
           Return (folder_chunks fs chunks_path doc_folder chunk_files))
  | _ => Return []
  end.

Fixpoint all_chunks (fs : node) (chunks_path : list string)
         (folders : list string) : outcome (list dict) :=
  match folders with
  | [] => Return []
  | doc_folder :: rest =>
      bind_outcome (doc_chunks fs chunks_path doc_folder) (λ l,
        bind_outcome (all_chunks fs chunks_path rest) (λ r, Return (l ++ r)))
  end.

(** [a] does not come after [b] in the order of the sort keys. *)
Definition numbered_before (a b : string) : Prop :=
  ∃ x y, sort_key a = Return x ∧ sort_key b = Return y ∧ x ≤ y.

(** [build_index(embeddings, chunks)]; [embeddings] is a reference to an
    array on the heap. *)
Definition build_index (self : EmbeddingIndexer) (h : heap)
           (embeddings : positive) (chunks : list dict)
  : EmbeddingIndexer * heap * outcome unit :=
  if (length (array_at h embeddings) =? 0)%nat then (self, h, Return ())
  else
    let self := set_index self (Some (new_IndexFlatIP (dimension self))) in
    let '(h, embeddings_normalized) := ndarray_copy h embeddings in
    let h := normalize_L2 h embeddings_normalized in
    match index_add (new_IndexFlatIP (dimension self))
                    (array_at h embeddings_normalized) with
    | Raise e => (self, h, Raise e)
    | Return idx =>
        (set_chunk_metadata (set_index self (Some idx)) chunks, h,
         Return ())
    end.

(** [save_index()] *)
Definition save_index (self : EmbeddingIndexer) : FS unit :=
  match index self with
  | None => fs_ret ()
  | Some idx =>
      let index_file := index_path self ++ ["faiss.index"] in
      let metadata_file := index_path self ++ ["metadata.pkl"] in
      let* _ := fs_write index_file (FaissIndexFile idx) in
      fs_write metadata_file (PickleFile (chunk_metadata self))
  end.

(** [faiss.read_index] and [pickle.load] *)
Definition read_index (c : file_content) : outcome IndexFlatIP :=
  match c with
  | FaissIndexFile idx => Return idx
  | _ => Raise (RuntimeError "read_index")
  end.

Definition pickle_load (c : file_content) : outcome (list dict) :=
  match c with
  | PickleFile l => Return l
  | _ => Raise (UnpicklingError "pickle.load")
  end.

(** [load_index()]: the instance after the call, the file system and the
    result. *)
Definition load_index (self : EmbeddingIndexer) (fs : node)
  : EmbeddingIndexer * node * outcome bool :=
  let index_file := index_path self ++ ["faiss.index"] in
  let metadata_file := index_path self ++ ["metadata.pkl"] in
  match fs_exists index_file fs with
  | (fs, Raise e) => (self, fs, Raise e)
  | (fs, Return false) => (self, fs, Return false)
  | (fs, Return true) =>
      match (let* c := fs_read index_file in lift (read_index c)) fs with
      | (fs, Raise e) => (self, fs, Raise e)
      | (fs, Return idx) =>
          let self := set_index self (Some idx) in
          match (let* c := fs_read metadata_file in
                 lift (pickle_load c)) fs with
          | (fs, Raise e) => (self, fs, Raise e)
          | (fs, Return l) =>
              (set_chunk_metadata self l, fs, Return true)
          end
      end
  end.

(** [if filters:] *)
Definition truthy (filters : option dict) : bool :=
  match filters with
  | None => false
  | Some f => negb (bool_decide (f = ∅))
  end.

Definition search_k (k : Z) (filters : option dict) : Z :=
  if truthy filters then k * 3 else k.

(** The test that drops a candidate under [filters]. *)
Definition rejected (filters : option dict) (chunk : dict) : bool :=
  match filters with
  | Some f =>
      if truthy filters then
        match f !! "doc_id" with
        | Some wanted => negb (py_eq (dict_get chunk "doc_id") wanted)
        | None => false
        end
      else false
  | None => false
  end.

(** The loop over [zip(indices[0], scores[0])]. *)
Fixpoint collect (metadata : list dict) (k : Z) (filters : option dict)
         (candidates : list (Z * scalar)) (results : list dict)
  : list dict :=
  match candidates with
  | [] => results
  | (idx, score) :: rest =>
      if (idx <? 0) || (idx >=? Z.of_nat (length metadata))
      then collect metadata k filters rest results
      else
        match metadata !! Z.to_nat idx with
        | None => collect metadata k filters rest results
        | Some entry =>
            let chunk := <["score" := PFloat score]> entry in
            if rejected filters chunk
            then collect metadata k filters rest results
            else
              let results := results ++ [chunk] in
              if Z.of_nat (length results) >=? k then results
              else collect metadata k filters rest results
        end
  end.

(** [search(query_text, k, filters)] *)
Definition search (self : EmbeddingIndexer) (query_text : string) (k : Z)
           (filters : option dict) : outcome (list dict) :=
  match index self with
  | None => Return []
  | Some idx =>
      if ntotal idx =? 0 then Return []
      else
        let query_embedding := normalize_row (model self query_text) in
        let search_k := search_k k filters in
        bind_outcome
          (index_search idx query_embedding (Z.min search_k (ntotal idx)))
          (λ candidates,
             Return (collect (chunk_metadata self) k filters candidates []))
  end.

(** What the loop appends for a candidate that it keeps: a copy of the
    record at the position of the candidate, with its score. *)
Definition result_of (metadata : list dict) (c : Z * scalar) : dict :=
  <["score" := PFloat c.2]> (default ∅ (metadata !! Z.to_nat c.1)).

End WithKernel.

Arguments pyval {K}.
Arguments file_content {K}.
Arguments node {K}.
Arguments IndexFlatIP {K}.
Arguments EmbeddingIndexer {K}.
Arguments FS {K} A.

End Indexer.

(** ** pipeline/ingestion/utils.py and pipeline/ingestion/ingest.py *)

Module Ingest.
Import PyStr Chunker Extractor Extraction Indexer.

(** Strings of decimal digits, and strings without a given character. *)
Definition is_digit (c : ascii) : bool :=
  match digit_value c with
  | Some _ => true
  | None => false
  end.

Fixpoint digits_only (s : string) : bool :=
  match s with
  | EmptyString => true
  | String c r => is_digit c && digits_only r
  end.

Fixpoint no_char (x : ascii) (s : string) : bool :=
  match s with
  | EmptyString => true
  | String c r => negb (bool_decide (c = x)) && no_char x r
  end.

(** [f"chunk_{chunk_index}.json"] *)
Definition chunk_file_name (chunk_index : Z) : string :=
  "chunk_" +:+ str_of_int chunk_index +:+ ".json".

(** [generate_doc_id()] returns [uuid.uuid4().hex], which is drawn at
    random: 32 characters among [0-9a-f]. The identifiers it can
    return: *)
Definition is_hex_digit (c : ascii) : bool :=
  existsb (Ascii.eqb c) (list_ascii_of_string "0123456789abcdef").

Fixpoint hex_only (s : string) : bool :=
  match s with
  | EmptyString => true
  | String c r => is_hex_digit c && hex_only r
  end.

Definition generated_doc_id (s : string) : Prop :=
  String.length s = 32%nat ∧ hex_only s = true.

(** The names that a directory can hold. A path made of such names is
    resolved one component after the other; the tree itself gives no
    meaning to [".."]. *)
Definition plain_name (c : string) : Prop :=
  c ≠ EmptyString ∧ c ≠ "." ∧ c ≠ ".." ∧ no_char "/" c = true.

(** A relative path that never steps up: joined to a directory, it names
    a place below that directory. *)
Definition stays_below (p : string) : Prop :=
  startswith p "/" = false ∧ ".." ∉ path_parts p.

Section WithKernel.
Context `{K : Float32Kernel}.

Notation "'let*' x ':=' m 'in' k" := (fs_bind m (λ x, k))
  (at level 10, x name, m at level 100, k at level 200, only parsing).

(** [Path.mkdir(parents=True, exist_ok=True)] on the tree: the missing
    directories are added, each one listed last in its parent (one of the
    orders of enumeration); [None] when a file is in the way. *)
Fixpoint make_dirs (path : list string) (fs : node) : option node :=
  match path, fs with
  | _, File _ => None
  | [], Dir _ => Some fs
  | name :: rest, Dir entries =>
      match list_find (λ e, fst e = name) entries with
      | Some (i, (_, child)) =>
          match make_dirs rest child with
          | Some child' => Some (Dir (<[i := (name, child')]> entries))
          | None => None
          end
      | None =>
          match make_dirs rest (Dir []) with
          | Some child' => Some (Dir (entries ++ [(name, child')]))
          | None => None
          end
      end
  end.

(** The entries of a directory after the entry [name] has been set to
    [new child], [child] being the node it had, if any: in place if it was
    there, at the end otherwise. *)
Definition set_entry (name : string) (new : option node → node)
           (entries : list (string * node)) : list (string * node) :=
  match list_find (λ e, fst e = name) entries with
  | Some (i, (_, child)) => <[i := (name, new (Some child))]> entries
  | None => entries ++ [(name, new None)]
  end.

(** The tree in which the node at [path] is [new], the directories on
    the way added where they are missing; and the paths this can be done
    for: those with no file on the way. *)
Fixpoint graft (path : list string) (new : node) (fs : node) : node :=
  match path with
  | [] => new
  | name :: rest =>
      match fs with
      | Dir entries =>
          match list_find (λ e, fst e = name) entries with
          | Some (i, (_, child)) =>
              Dir (<[i := (name, graft rest new child)]> entries)
          | None =>
              Dir (entries ++ [(name, graft rest new (Dir []))])
          end
      | File _ => fs
      end
  end.

Fixpoint writable (path : list string) (fs : node) : Prop :=
  match path with
  | [] => True
  | name :: rest =>
      match fs with
      | Dir entries =>
          match lookup_entry name entries with
          | Some child => writable rest child
          | None => True
          end
      | File _ => False
      end
  end.

(** [ensure_folder(path)] *)
Definition ensure_folder (path : list string) : FS unit :=
  λ fs, match make_dirs path fs with
        | Some fs' => (fs', Return ())
        | None => (fs, Raise (RuntimeError "FileExistsError"))
        end.

(** [path.open("w")] and the write of the whole content: the parent must
    be a directory and the target no directory. *)
Definition fs_open_write (path : list string) (c : file_content) : FS unit :=
  λ fs, match resolve fs (removelast path), last path with
        | Some (Dir entries), Some name =>
            match lookup_entry name entries with
            | Some (Dir _) => (fs, Raise (RuntimeError "IsADirectoryError"))
            | _ => (write_file path c fs, Return ())
            end
        | Some (Dir _), None =>
            (fs, Raise (RuntimeError "IsADirectoryError"))
        | Some (File _), _ => (fs, Raise (NotADirectoryError (path_str path)))
        | None, _ => (fs, Raise (FileNotFoundError (path_str path)))
        end.

(** [save_chunk(doc_id, chunk_index, chunk_data)] *)
Definition save_chunk (doc_id : string) (chunk_index : Z)
           (chunk_data : gmap string pyval) : FS (list string) :=
  let base_dir := ["storage"; "chunks"] ++ path_parts doc_id in
  let* _ := ensure_folder base_dir in
  let file_path := base_dir ++ [chunk_file_name chunk_index] in
  let* _ := fs_open_write file_path (JsonObject chunk_data) in
  fs_ret file_path.

Definition py_optional {A} (f : A → pyval) (x : option A) : pyval :=
  match x with
  | Some a => f a
  | None => PNone
  end.

(** The chunk of the chunker as the [dict] that is written. *)
Definition chunk_to_dict (c : Chunk) : gmap string pyval :=
  {[ "doc_id" := PStr (Chunker.doc_id c);
     "chunk_index" := PInt (chunk_index c);
     "text" := PStr (text c);
     "start_offset" := PInt (start_offset c);
     "end_offset" := PInt (end_offset c);
     "source" := py_optional PStr (source c);
     "page" := py_optional PInt (page c) ]}.

(** The entries that [save_chunks] adds to the folder of a document, and
    the record that the indexer makes of a chunk of that document. *)
Fixpoint chunk_files (idx : Z) (chunks : list Chunk)
  : list (string * node) :=
  match chunks with
  | [] => []
  | chunk :: rest =>
      (chunk_file_name idx, File (JsonObject (chunk_to_dict chunk)))
      :: chunk_files (idx + 1) rest
  end.

Definition with_chunk_id (doc_id : string) (c : Chunk) : gmap string pyval :=
  <["chunk_id" :=
    PStr (doc_id +:+ "_chunk_" +:+ str_of_int (chunk_index c))]>
  (chunk_to_dict c).

(** What [save_chunks] adds to the chunks directory for a document: its
    folder, when there is a chunk to save. *)
Definition saved_folder (doc_id : string) (chunks : list Chunk)
  : list (string * node) :=
  match chunks with
  | [] => []
  | _ :: _ => [(doc_id, Dir (chunk_files 0 chunks))]
  end.

(** The order in which a directory enumerates its entries is not
    specified. [relisted doc es es'] holds when [es'] lists what [es]
    lists, in any order: the same names, the same node under every name
    but [doc], and under [doc] a folder with the same entries, in any
    order again. *)
Definition relisted (doc : string) (es es' : list (string * node)) : Prop :=
  fst <$> es' ≡ₚ fst <$> es
  ∧ (∀ name, name ≠ doc → lookup_entry name es' = lookup_entry name es)
  ∧ match lookup_entry doc es with
    | Some (Dir folder) =>
        ∃ folder', lookup_entry doc es' = Some (Dir folder')
                   ∧ folder' ≡ₚ folder
    | other => lookup_entry doc es' = other
    end.

(** The numbers of the summary that [main] prints. *)
Record summary := {
  summary_doc_id : string;
  summary_file : string;
  summary_total_chars : Z;
  summary_pages : Z;
  summary_chunks : Z }.

(** How [main] ends: [sys.exit(1)] after a message, or the summary. *)
Inductive ingest_end : Type :=
| FileNotFound
| ExtractionFailed (e : exn)
| Ingested (s : summary).

(** [for idx, chunk in enumerate(chunks): save_chunk(doc_id, idx, chunk)] *)
Fixpoint save_chunks (doc_id : string) (idx : Z) (chunks : list Chunk)
  : FS unit :=
  match chunks with
  | [] => fs_ret ()
  | chunk :: rest =>
      let* _ := save_chunk doc_id idx (chunk_to_dict chunk) in
      save_chunks doc_id (idx + 1) rest
  end.

(** [main()] of [ingest.py] for the argument [file_path]; [doc_id] is the
    identifier that [generate_doc_id] draws. *)
Definition ingest_main (files : string → option source_file)
           (doc_id : string) (file_path : string) : FS ingest_end :=
  match files file_path with
  | None => fs_ret FileNotFound
  | Some _ =>
      match extract_text files file_path with
      | Raise exc => fs_ret (ExtractionFailed exc)
      | Return (full_text, page_texts) =>
          let page_ranges := build_page_ranges page_texts in
          let chunks :=
            chunk_text (Some full_text) doc_id 500 50
                       (Some (path_name file_path)) (Some page_ranges) in
          let* _ := save_chunks doc_id 0 chunks in
          fs_ret (Ingested
                    {| summary_doc_id := doc_id;
                       summary_file := path_name file_path;
                       summary_total_chars :=
                         Z.of_nat (String.length full_text);
                       summary_pages := Z.of_nat (length page_texts);
                       summary_chunks := Z.of_nat (length chunks) |})
      end
  end.

End WithKernel.

End Ingest.

(** ** A numeric kernel over the integers
  Scalars are integers, a row is normalised to the signs of its entries,
  and scores are compared as integers: enough to run the indexer. *)

Module IntegerKernel.
Import PyStr.

Definition dot (x y : list Z) : Z :=
  foldr Z.add 0 (zip_with Z.mul x y).

#[export] Instance kernel : Indexer.Float32Kernel := {|
  Indexer.scalar := Z;
  Indexer.normalize_row := map Z.sgn;
  Indexer.normalize_row_length := length_map Z.sgn;
  Indexer.inner_product := dot;
  Indexer.score_ltb := Z.ltb;
  Indexer.minus_infinity := - 2 ^ 127;
  Indexer.float_eqb := Z.eqb;
  Indexer.float_eq_int := Z.eqb;
  Indexer.float_repr := λ x, str_of_int x +:+ ".0" |}.

End IntegerKernel.

(** ** Sample data: the records of the test suite, over the integer kernel *)

Module Examples.
Import PyStr IntegerKernel.

(** Two records of one document, an indexer, and a heap with one array of
    two rows. *)
Definition chunk_a : gmap string Indexer.pyval :=
  {[ "doc_id" := Indexer.PStr "test_doc_123";
     "chunk_index" := Indexer.PInt 0;
     "text" := Indexer.PStr "GMP compliance requirements" ]}.

Definition chunk_b : gmap string Indexer.pyval :=
  {[ "doc_id" := Indexer.PStr "test_doc_123";
     "chunk_index" := Indexer.PInt 1;
     "text" := Indexer.PStr "Quality control procedures" ]}.

Definition unit_row (i : nat) : list Z :=
  replicate i 0 ++ [1] ++ replicate (383 - i) 0.

Definition encoder (query : string) : list Z :=
  replicate 383 0 ++ [Z.of_nat (String.length query)].

Definition fresh_indexer : Indexer.EmbeddingIndexer :=
  Indexer.init encoder "./vector_index".

Definition arrays : gmap positive (list (list Z)) :=
  {[ 1%positive := [(λ x, 3 * x) <$> unit_row 0; (λ x, -5 * x) <$> unit_row 383];
     2%positive := [] ]}.

(** An index of one vector, and an indexer that holds it. *)
Definition stored_index : Indexer.IndexFlatIP :=
  {| Indexer.d := 384; Indexer.xb := [unit_row 7] |}.

Definition built_indexer : Indexer.EmbeddingIndexer :=
  Indexer.set_chunk_metadata
    (Indexer.set_index fresh_indexer (Some stored_index)) [chunk_b].

(** An index directory that holds the index file alone. *)
Definition index_only_fs : Indexer.node :=
  Indexer.Dir
    [("vector_index",
      Indexer.Dir
        [("faiss.index",
          Indexer.File (Indexer.FaissIndexFile stored_index))])].

(** An indexer over the two records, as [build_index] leaves it. *)
Definition two_chunk_index : Indexer.IndexFlatIP :=
  {| Indexer.d := 384;
     Indexer.xb := [unit_row 0; Z.opp <$> unit_row 383] |}.

Definition two_chunk_indexer : Indexer.EmbeddingIndexer :=
  Indexer.set_chunk_metadata
    (Indexer.set_index fresh_indexer (Some two_chunk_index))
    [chunk_a; chunk_b].

Definition doc_filter (doc : string) : gmap string Indexer.pyval :=
  {[ "doc_id" := Indexer.PStr doc ]}.

(** A chunk store with one document folder, its files enumerated out of
    order, one of them unreadable, next to a file that is no folder; and
    the same store with one more file, whose name has no number. *)
Definition doc_files : list (string * Indexer.node) :=
  [("chunk_10.json", Indexer.File (Indexer.JsonObject chunk_b));
   ("chunk_2.json", Indexer.File (Indexer.JsonObject chunk_a));
   ("chunk_3.json", Indexer.File Indexer.Garbage);
   ("notes.txt", Indexer.File Indexer.Garbage)].

Definition store_of (files : list (string * Indexer.node)) : Indexer.node :=
  Indexer.Dir
    [("storage",
      Indexer.Dir
        [("chunks",
          Indexer.Dir
            [("README", Indexer.File Indexer.Garbage);
             ("test_doc_123", Indexer.Dir files)])])].

Definition chunk_store : Indexer.node := store_of doc_files.

Definition bad_store : Indexer.node :=
  store_of (doc_files
              ++ [("chunk_abc.json", Indexer.File (Indexer.JsonObject chunk_a))]).

Definition loaded_chunks : list (gmap string Indexer.pyval) :=
  [<["chunk_id" := Indexer.PStr "test_doc_123_chunk_0"]> chunk_a;
   <["chunk_id" := Indexer.PStr "test_doc_123_chunk_1"]> chunk_b].

(** A PDF of two pages, the second one scanned, and the files there are. *)
Definition sample_pdf : Extraction.source_file :=
  {| Extraction.as_pdf :=
       Some [ {| Extraction.structural_text := Some " Page  one text";
                 Extraction.rendered_ocr := None |};
              {| Extraction.structural_text := None;
                 Extraction.rendered_ocr := Some "scanned   page " |} ];
     Extraction.as_docx := None;
     Extraction.as_text := "%PDF-1.7";
     Extraction.as_image := None |}.

Definition sample_files (file_path : string)
  : option Extraction.source_file :=
  if String.eqb file_path "in/report.pdf" then Some sample_pdf else None.

(** A filter on another key than [doc_id], and a file system in which
    the index directory is there and empty. *)
Definition source_filter : gmap string Indexer.pyval :=
  {[ "source" := Indexer.PStr "report.pdf" ]}.

Definition empty_index_fs : Indexer.node :=
  Indexer.Dir [("vector_index", Indexer.Dir [])].

Definition empty_fs : Indexer.node := Indexer.Dir [].

(** An identifier as [generate_doc_id] returns them, and a chunk of the
    document it names. *)
Definition sample_doc_id : string := "0123456789abcdef0123456789abcdef".

Definition sample_chunk : Chunker.Chunk :=
  {| Chunker.doc_id := sample_doc_id;
     Chunker.chunk_index := 0;
     Chunker.text := "Page one text";
     Chunker.start_offset := 0;
     Chunker.end_offset := 3;
     Chunker.source := Some "report.pdf";
     Chunker.page := Some 1 |}.

Definition sample_page_texts : list Chunker.PageText :=
  [ {| Chunker.pt_page := Some 1; Chunker.pt_text := Some "Page one text" |};
    {| Chunker.pt_page := Some 2; Chunker.pt_text := Some "scanned page" |} ].

End Examples.

(** * Properties *)

Section StringFacts.
Import PyStr.

Lemma append_cons c s t : String c s +:+ t = String c (s +:+ t).
Proof. reflexivity. Qed.

Lemma append_empty_l t : EmptyString +:+ t = t.
Proof. reflexivity. Qed.

Lemma starts_word_split r : starts_word r = true → split r ≠ [].
Proof.
  destruct r as [|c r]; simpl; [done|].
  intros Hc. destruct (isspace c); [done|].
  destruct (starts_word r); [destruct (split r)|]; done.
Qed.

Lemma split_words_are_words s : Forall is_word (split s).
Proof.
  induction s as [|c r IH]; simpl; [constructor|].
  destruct (isspace c) eqn:Hc; [done|].
  destruct (starts_word r).
  - destruct (split r) as [|w ws]; [repeat constructor; simpl; [done|by rewrite Hc]|].
    inversion IH as [|?? [Hw1 Hw2] Hws]; subst. constructor; [|done].
    split; [done|]. simpl. by rewrite Hc.
  - constructor; [|done]. split; [done|]. simpl. by rewrite Hc.
Qed.

Lemma join_cons2 sep w w' ws :
  join sep (w :: w' :: ws) = w +:+ sep +:+ join sep (w' :: ws).
Proof. reflexivity. Qed.

Lemma join_empty_iff ws :
  Forall is_word ws → join " " ws = EmptyString → ws = [].
Proof.
  intros Hws. destruct ws as [|w ws]; [done|].
  inversion Hws as [|?? [Hw _] _]; subst.
  destruct ws; simpl; [done|]. destruct w; [done|]. by rewrite append_cons.
Qed.

(** A word followed by a whitespace character is split off whole. *)
Lemma split_word_then_space w c rest :
  is_word w → isspace c = true →
  split (w +:+ String c rest) = w :: split rest.
Proof.
  intros [Hne Hns] Hc. induction w as [|a w IH]; [done|].
  simpl in Hns. apply andb_prop in Hns as [Ha Hw].
  apply negb_true_iff in Ha.
  rewrite append_cons. simpl. rewrite Ha.
  destruct w as [|b w].
  - rewrite append_empty_l. simpl. by rewrite Hc.
  - rewrite IH by done.
    rewrite append_cons. simpl.
    simpl in Hw. apply andb_prop in Hw as [Hb _]. by rewrite Hb.
Qed.

Lemma split_word w : is_word w → split w = [w].
Proof.
  intros [Hne Hns]. induction w as [|a w IH]; [done|].
  simpl in Hns. apply andb_prop in Hns as [Ha Hw].
  apply negb_true_iff in Ha. simpl. rewrite Ha.
  destruct w as [|b w]; [done|].
  rewrite IH by done. simpl in Hw. apply andb_prop in Hw as [Hb _].
  simpl. by rewrite Hb.
Qed.

(** Splitting the space-joined words gives the words back. *)
Lemma split_join ws : Forall is_word ws → split (join " " ws) = ws.
Proof.
  induction ws as [|w ws IH]; [done|].
  intros Hws. inversion Hws as [|?? Hw Hws']; subst.
  destruct ws as [|w' ws]; [by apply split_word|].
  rewrite join_cons2.
  change (" " +:+ join " " (w' :: ws))
    with (String " " (join " " (w' :: ws))).
  rewrite split_word_then_space by done. by rewrite IH.
Qed.

Lemma lstrip_collapse s :
  lstrip (collapse_whitespace s) = collapse_whitespace (lstrip s).
Proof.
  induction s as [|c r IH]; [done|]. simpl.
  destruct (isspace c) eqn:Hc.
  - destruct (starts_space r); [done|]. simpl.
    by replace (isspace space) with true by done.
  - simpl. by rewrite Hc.
Qed.

Lemma starts_space_lstrip s : starts_space (lstrip s) = false.
Proof.
  induction s as [|c r IH]; [done|]. simpl.
  destruct (isspace c) eqn:Hc; [done|]. simpl. done.
Qed.

Lemma split_lstrip s : split (lstrip s) = split s.
Proof.
  induction s as [|c r IH]; [done|]. simpl.
  destruct (isspace c) eqn:Hc; [done|]. simpl. by rewrite Hc.
Qed.

Lemma starts_word_replace old new s :
  isspace old = true → isspace new = true →
  starts_word (replace_char old new s) = starts_word s.
Proof.
  intros Ho Hn. destruct s as [|c r]; [done|]. simpl.
  case_decide; by subst; rewrite ?Ho, ?Hn.
Qed.

Lemma split_replace old new s :
  isspace old = true → isspace new = true →
  split (replace_char old new s) = split s.
Proof.
  intros Ho Hn. induction s as [|c r IH]; [done|]. simpl.
  rewrite starts_word_replace, IH by done.
  case_decide; [subst; by rewrite Ho, Hn|done].
Qed.

Lemma starts_cases s :
  s = EmptyString ∨ starts_space s = true ∨ starts_word s = true.
Proof. destruct s as [|c r]; simpl; [by left|]. destruct (isspace c); auto. Qed.

(** Collapsing and right-stripping, in terms of the words. *)
Lemma rstrip_collapse s :
  rstrip (collapse_whitespace s) =
  if starts_space s then
    match split s with
    | [] => EmptyString
    | _ :: _ => String space (join " " (split s))
    end
  else join " " (split s).
Proof.
  induction s as [|c r IH]; [done|].
  pose proof (split_words_are_words r) as Hwords.
  simpl. destruct (isspace c) eqn:Hc.
  - destruct (starts_space r) eqn:Hr; [done|].
    simpl. rewrite IH.
    destruct (split r) as [|w ws] eqn:Hs; [by simpl; rewrite ?Hc|].
    destruct (join " " (w :: ws)) eqn:Hj; [|done].
    by apply join_empty_iff in Hj.
  - destruct (starts_cases r) as [->|[Hr|Hr]].
    + simpl. by rewrite Hc.
    + assert (starts_word r = false) as ->.
      { destruct r; simpl in *; [done|]. by rewrite Hr. }
      simpl. rewrite IH, Hr.
      destruct (split r) as [|w ws] eqn:Hs; [by rewrite Hc|done].
    + assert (starts_space r = false) as Hr'.
      { destruct r; simpl in *; [done|]. by apply negb_true_iff. }
      rewrite Hr. simpl. rewrite IH, Hr'.
      pose proof (starts_word_split r Hr) as Hne.
      destruct (split r) as [|w ws] eqn:Hs; [done|].
      destruct (join " " (w :: ws)) eqn:Hj.
      { by apply join_empty_iff in Hj. }
      rewrite <- Hj. destruct ws; [done|].
      by rewrite !join_cons2, append_cons.
Qed.

(** [clean_text] keeps the words and puts one space between them. *)
Lemma strip_collapse_words s :
  strip (collapse_whitespace s) = join " " (split s).
Proof.
  unfold strip. rewrite lstrip_collapse, rstrip_collapse.
  by rewrite starts_space_lstrip, split_lstrip.
Qed.

End StringFacts.

Section ChunkerFacts.
Import PyStr Chunker.

Lemma clamp_index_range len i : 0 ≤ len → 0 ≤ clamp_index len i ≤ len.
Proof. unfold clamp_index. intros. destruct (i <? 0) eqn:Hi; lia. Qed.

Lemma slice_length_spec {A} (l : list A) start stop :
  length (slice l start stop) = slice_length (Z.of_nat (length l)) start stop.
Proof.
  unfold slice, slice_length.
  pose proof (clamp_index_range (Z.of_nat (length l)) start ltac:(lia)).
  pose proof (clamp_index_range (Z.of_nat (length l)) stop ltac:(lia)).
  rewrite length_take, length_drop. lia.
Qed.

Lemma slice_Forall {A} (P : A → Prop) (l : list A) start stop :
  Forall P l → Forall P (slice l start stop).
Proof. intros H. unfold slice. by apply Forall_take, Forall_drop. Qed.

Lemma split_words_Some t : split_words (Some t) = split t.
Proof. by destruct t. Qed.

Lemma split_words_are_words' text : Forall is_word (split_words text).
Proof.
  destruct text as [t|]; [|constructor].
  rewrite split_words_Some. apply split_words_are_words.
Qed.

(** The loop visits the windows computed from the word count. *)
Lemma chunk_loop_windows fuel words doc_id chunk_size step source page_ranges
      start index :
  window_of <$> chunk_loop fuel words doc_id chunk_size step source
                           page_ranges start index
  = windows fuel (Z.of_nat (length words)) chunk_size step start index.
Proof.
  revert start index. induction fuel as [|fuel IH]; intros start index; [done|].
  simpl. destruct (start <? _); [|done].
  rewrite <- slice_length_spec.
  destruct (slice words start _) as [|w ws] eqn:Hs; [done|].
  simpl. by rewrite IH.
Qed.

(** Fuel beyond the number of words left changes nothing: the loop ends
    by its own test. *)
Lemma chunk_loop_fuel fuel words doc_id chunk_size step source page_ranges
      start index :
  1 ≤ step →
  (Z.to_nat (Z.of_nat (length words) - start) ≤ fuel)%nat →
  chunk_loop (S fuel) words doc_id chunk_size step source page_ranges
             start index
  = chunk_loop fuel words doc_id chunk_size step source page_ranges
               start index.
Proof.
  intros Hstep. revert start index.
  induction fuel as [|fuel IH]; intros start index Hfuel.
  - simpl. destruct (start <? _) eqn:Hlt; [|done]. lia.
  - remember (S fuel) as n. simpl.
    destruct (start <? _) eqn:Hlt; [|by subst n; simpl; rewrite Hlt].
    subst n. simpl chunk_loop at 2. rewrite Hlt.
    destruct (slice words start _); [done|].
    f_equal. apply IH. lia.
Qed.

Lemma chunk_loop_positions fuel words doc_id chunk_size step source
      page_ranges start index (i : nat) c :
  chunk_loop fuel words doc_id chunk_size step source page_ranges
             start index !! i = Some c →
  start_offset c = start + Z.of_nat i * step
  ∧ chunk_index c = index + Z.of_nat i
  ∧ end_offset c
    = Z.min (start_offset c + chunk_size) (Z.of_nat (length words)).
Proof.
  revert start index i. induction fuel as [|fuel IH]; intros start index i; [done|].
  simpl. destruct (start <? _); [|done].
  destruct (slice words start _); [done|].
  destruct i as [|i]; simpl.
  - intros [= <-]. simpl. lia.
  - intros Hc. apply IH in Hc. lia.
Qed.

(** C2. A text of 1200 words, cut with [chunk_size=500] and [overlap=50],
    gives exactly three chunks, over the words [0,500), [450,950) and
    [900,1200), numbered 0, 1, 2. For any text and parameters the chunk at
    position [i] starts at word [i * max(chunk_size - overlap, 1)], so the
    first one at word 0, has index [i] and ends at
    [min(start + chunk_size, number of words)]. An empty or absent text
    gives no chunk. *)
Theorem chunk_text_sliding_window :
  (∀ text doc_id source page_ranges,
     length (split_words text) = 1200%nat →
     window_of <$> chunk_text text doc_id 500 50 source page_ranges
     = [(0, 500, 0); (450, 950, 1); (900, 1200, 2)])
  ∧ (∀ text doc_id chunk_size overlap source page_ranges (i : nat) c,
       chunk_text text doc_id chunk_size overlap source page_ranges !! i
       = Some c →
       start_offset c = Z.of_nat i * Z.max (chunk_size - overlap) 1
       ∧ chunk_index c = Z.of_nat i
       ∧ end_offset c
         = Z.min (start_offset c + chunk_size)
                 (Z.of_nat (length (split_words text))))
  ∧ (∀ doc_id chunk_size overlap source page_ranges,
       chunk_text (Some EmptyString) doc_id chunk_size overlap source
                  page_ranges = []
       ∧ chunk_text None doc_id chunk_size overlap source page_ranges = []).
Proof.
  split; [|split].
  - intros text doc_id source page_ranges Hlen. unfold chunk_text.
    destruct (split_words text) as [|w ws] eqn:Hw; [done|].
    rewrite chunk_loop_windows, Hlen. by vm_compute.
  - intros text doc_id chunk_size overlap source page_ranges i c.
    unfold chunk_text.
    destruct (split_words text) as [|w ws] eqn:Hw; [done|].
    intros Hc. apply chunk_loop_positions in Hc. lia.
  - done.
Qed.

Lemma chunk_text_sliding_window_witness :
  window_of <$> chunk_text (Some (words_text 1200)) "doc" 500 50 None None
  = [(0, 500, 0); (450, 950, 1); (900, 1200, 2)].
Proof.
  apply (proj1 chunk_text_sliding_window). vm_compute. reflexivity.
Defined.

Lemma chunk_loop_word_count fuel words doc_id chunk_size step source
      page_ranges start index c :
  Forall is_word words → 0 ≤ chunk_size → 0 ≤ step → 0 ≤ start →
  c ∈ chunk_loop fuel words doc_id chunk_size step source page_ranges
                 start index →
  end_offset c - start_offset c
  = Z.of_nat (length (split_words (Some (text c)))).
Proof.
  intros Hwords Hsize Hstep. rewrite split_words_Some. revert start index.
  induction fuel as [|fuel IH]; intros start index Hstart; [by intros ?%elem_of_nil|].
  simpl. destruct (start <? _) eqn:Hlt; [|by intros ?%elem_of_nil].
  destruct (slice words start _) as [|w ws] eqn:Hs; [by intros ?%elem_of_nil|].
  intros [->|Hc]%elem_of_cons; [|apply IH in Hc; [done|lia]].
  cbn [text end_offset start_offset].
  rewrite <- Hs, split_join by by apply slice_Forall.
  rewrite slice_length_spec. unfold slice_length, clamp_index.
  destruct (start <? 0) eqn:H1; [lia|].
  destruct (_ `min` _ <? 0) eqn:H2; lia.
Qed.

(** C7, as stated, fails: with a negative [chunk_size] the slice counts
    from the end of the list, so that ten words cut with [chunk_size=-5]
    give five chunks of five words each, the first one (not the last) with
    [start_offset = 0] and [end_offset = -5]. *)
Lemma chunk_word_count_counterexample :
  ¬ (∀ text doc_id chunk_size overlap source page_ranges (i : nat) c,
       let chunks :=
         chunk_text text doc_id chunk_size overlap source page_ranges in
       chunks !! i = Some c →
       (S i < length chunks)%nat →
       end_offset c - start_offset c
       = Z.of_nat (length (split_words (Some (Chunker.text c))))).
Proof.
  intros H.
  specialize (H (Some "a b c d e f g h i j") "doc" (-5) 0 None None
                0%nat _ eq_refl).
  vm_compute in H. discriminate H. lia.
Qed.

(** C7, amended. When [chunk_size] is not negative, every chunk produced
    by [chunk_text], the last one included, has
    [end_offset - start_offset] equal to the number of words obtained by
    splitting its text on whitespace. *)
Theorem chunk_word_count text doc_id chunk_size overlap source page_ranges c :
  0 ≤ chunk_size →
  c ∈ chunk_text text doc_id chunk_size overlap source page_ranges →
  end_offset c - start_offset c
  = Z.of_nat (length (split_words (Some (Chunker.text c)))).
Proof.
  intros Hsize. unfold chunk_text.
  destruct (split_words text) as [|w ws] eqn:Hw; [by intros ?%elem_of_nil|].
  apply chunk_loop_word_count; try lia.
  rewrite <- Hw. apply split_words_are_words'.
Qed.

Lemma chunk_word_count_witness :
  let c := {| doc_id := "doc"; chunk_index := 1; text := "b c";
              start_offset := 1; end_offset := 3; source := None;
              page := None |} in
  end_offset c - start_offset c
  = Z.of_nat (length (split_words (Some (text c)))).
Proof.
  intros c.
  apply (chunk_word_count (Some "a b c d e") "doc" 2 1 None None c); [lia|].
  vm_compute. apply list_elem_of_further, list_elem_of_here.
Defined.

End ChunkerFacts.

Section ExtractorFacts.
Import PyStr Extractor.

Lemma clean_text_words t : clean_text (Some t) = join " " (split t).
Proof.
  destruct t as [|c r]; [done|]. unfold clean_text.
  by rewrite strip_collapse_words, split_replace.
Qed.

(** C5. [clean_text] is idempotent, and an empty or absent input gives
    the empty string. *)
Theorem clean_text_idempotent :
  (∀ s, clean_text (Some (clean_text s)) = clean_text s)
  ∧ clean_text (Some EmptyString) = EmptyString
  ∧ clean_text None = EmptyString.
Proof.
  split; [|done]. intros [t|]; [|done].
  rewrite !clean_text_words, split_join; [done|].
  apply split_words_are_words.
Qed.

(** C6. On the lower-cased extension of the path: [.pdf], [.docx] and
    [.txt] give their tags, the seven image extensions give [image], and
    any other extension raises [ValueError] with a message that ends in
    the extension. *)
Theorem detect_file_type_by_suffix file_path :
  let suffix := lower (path_suffix file_path) in
  (suffix = ".pdf" → detect_file_type file_path = Return "pdf")
  ∧ (suffix = ".docx" → detect_file_type file_path = Return "docx")
  ∧ (suffix = ".txt" → detect_file_type file_path = Return "txt")
  ∧ (suffix ∈ [".png"; ".jpg"; ".jpeg"; ".tif"; ".tiff"; ".bmp"; ".webp"] →
     detect_file_type file_path = Return "image")
  ∧ (suffix ∉ [".pdf"; ".docx"; ".txt"; ".png"; ".jpg"; ".jpeg"; ".tif";
               ".tiff"; ".bmp"; ".webp"] →
     detect_file_type file_path
     = Raise (ValueError ("Unsupported file type: " +:+ suffix))).
Proof.
  intros suffix. unfold detect_file_type. fold suffix.
  repeat split.
  - by intros ->.
  - by intros ->.
  - by intros ->.
  - intros Himg.
    rewrite (bool_decide_eq_true_2 (suffix ∈ image_suffixes)) by done.
    by repeat (apply elem_of_cons in Himg as [->|Himg]; [done|]);
      apply elem_of_nil in Himg.
  - intros Hnot.
    destruct (String.eqb_spec suffix ".pdf") as [->|_].
    { destruct Hnot. apply list_elem_of_here. }
    destruct (String.eqb_spec suffix ".docx") as [->|_].
    { destruct Hnot. apply list_elem_of_further, list_elem_of_here. }
    destruct (String.eqb_spec suffix ".txt") as [->|_].
    { destruct Hnot. do 2 apply list_elem_of_further. apply list_elem_of_here. }
    rewrite bool_decide_eq_false_2; [done|].
    intros Himg. apply Hnot. by do 3 apply list_elem_of_further.
Qed.

Lemma detect_file_type_by_suffix_witness :
  detect_file_type "reports/Summary.PDF" = Return "pdf"
  ∧ detect_file_type "a.docx" = Return "docx"
  ∧ detect_file_type "notes.txt" = Return "txt"
  ∧ detect_file_type "scan.JPEG" = Return "image"
  ∧ detect_file_type "data.xyz"
    = Raise (ValueError "Unsupported file type: .xyz").
Proof.
  split; [|split; [|split; [|split]]].
  - apply (detect_file_type_by_suffix "reports/Summary.PDF"). reflexivity.
  - apply (detect_file_type_by_suffix "a.docx"). reflexivity.
  - apply (detect_file_type_by_suffix "notes.txt"). reflexivity.
  - apply (detect_file_type_by_suffix "scan.JPEG").
    change (lower (path_suffix "scan.JPEG")) with ".jpeg".
    do 2 apply list_elem_of_further. apply list_elem_of_here.
  - apply (detect_file_type_by_suffix "data.xyz").
    change (lower (path_suffix "data.xyz")) with ".xyz".
    repeat (apply not_elem_of_cons; split; [discriminate|]).
    apply not_elem_of_nil.
Defined.

End ExtractorFacts.


Section IndexerFacts.
Import PyStr Indexer.
Context `{K : Float32Kernel}.

Lemma forallb_normalized_width (dim : nat) (E : list (list scalar)) :
  Forall (λ r, length r = dim) E →
  forallb (λ r, length r =? dim)%nat (normalize_row <$> E) = true.
Proof.
  induction 1 as [|r E Hr _ IH]; [done|].
  rewrite fmap_cons. cbn [forallb].
  rewrite normalize_row_length, IH, Hr. by rewrite Nat.eqb_refl.
Qed.

Lemma array_at_copy_normalized (h : gmap positive (list (list scalar))) l :
  array_at (normalize_L2 (ndarray_copy h l).1 (ndarray_copy h l).2)
           (ndarray_copy h l).2
  = normalize_row <$> array_at h l.
Proof.
  unfold array_at at 1, normalize_L2, ndarray_copy. simpl.
  by rewrite lookup_alter_eq, lookup_insert_eq.
Qed.

Lemma copy_is_fresh (h : gmap positive (list (list scalar))) l :
  h !! (ndarray_copy h l).2 = None.
Proof. simpl. apply not_elem_of_dom, is_fresh. Qed.

(** What [build_index] computes, case by case. *)
Lemma build_index_unfold self (h : gmap positive (list (list scalar)))
      embeddings chunks :
  build_index self h embeddings chunks =
  if (length (array_at h embeddings) =? 0)%nat then (self, h, Return ())
  else
    let h' := normalize_L2 (ndarray_copy h embeddings).1
                           (ndarray_copy h embeddings).2 in
    match index_add (new_IndexFlatIP (dimension self))
                    (normalize_row <$> array_at h embeddings) with
    | Raise e =>
        (set_index self (Some (new_IndexFlatIP (dimension self))), h', Raise e)
    | Return idx =>
        (set_chunk_metadata
           (set_index
              (set_index self (Some (new_IndexFlatIP (dimension self))))
              (Some idx)) chunks, h', Return ())
    end.
Proof.
  unfold build_index. destruct (_ =? _)%nat; [done|].
  rewrite <- array_at_copy_normalized. by destruct (ndarray_copy _ _).
Qed.

Lemma copy_normalized_heap (h : gmap positive (list (list scalar))) l :
  normalize_L2 (ndarray_copy h l).1 (ndarray_copy h l).2
  = <[(ndarray_copy h l).2 := normalize_row <$> array_at h l]> h.
Proof.
  unfold normalize_L2, ndarray_copy. simpl.
  by rewrite alter_insert_eq.
Qed.

(** C1, amended. For every [N >= 1]: given [N] chunks and an array of [N]
    embedding vectors of the index dimension, [build_index] returns, and
    afterwards the index holds exactly the [N] vectors, normalised, in the
    order of the array (whatever it held before), and the metadata list
    is the list of the [N] chunks in their order. For [N = 0]
    [build_index] does nothing: it returns, and the indexer, with the
    index and the metadata list it had, and the arrays are as before. *)
Theorem build_index_replaces_state
        self (h : gmap positive (list (list scalar))) embeddings E
        (chunks : list (gmap string pyval)) :
  h !! embeddings = Some E →
  Forall (λ r, length r = dimension self) E →
  length chunks = length E →
  (E ≠ [] →
   ∃ self' h' idx,
     build_index self h embeddings chunks = (self', h', Return ())
     ∧ index self' = Some idx
     ∧ ntotal idx = Z.of_nat (length E)
     ∧ xb idx = normalize_row <$> E
     ∧ chunk_metadata self' = chunks
     ∧ length (chunk_metadata self') = length E)
  ∧ (E = [] →
     build_index self h embeddings chunks = (self, h, Return ())).
Proof.
  intros Hh Hdim Hlen. rewrite build_index_unfold.
  unfold array_at. rewrite Hh. simpl. split.
  - intros HE. destruct E as [|r E]; [done|]. cbn [length Nat.eqb].
    unfold index_add. cbn [d new_IndexFlatIP].
    rewrite forallb_normalized_width by done.
    eexists _, _, _. split; [reflexivity|].
    split; [reflexivity|]. unfold ntotal.
    cbn [xb d new_IndexFlatIP app chunk_metadata set_chunk_metadata].
    rewrite length_fmap. by repeat split.
  - by intros ->.
Qed.

(** C8. Whatever the arguments, the array the caller passed is the same
    after [build_index] as before, and so is every other array there was:
    the rows are normalised in a copy, a new array, and it is the rows of
    this copy that the index receives. *)
Theorem build_index_keeps_embeddings
        self (h : gmap positive (list (list scalar))) embeddings
        (chunks : list (gmap string pyval)) :
  let '(self', h', result) := build_index self h embeddings chunks in
  h' !! embeddings = h !! embeddings
  ∧ h ⊆ h'
  ∧ (array_at h embeddings ≠ [] →
     ∃ copy,
       h !! copy = None
       ∧ h' !! copy = Some (normalize_row <$> array_at h embeddings)
       ∧ (result = Return () →
          ∃ idx, index self' = Some idx
                 ∧ xb idx = normalize_row <$> array_at h embeddings)).
Proof.
  rewrite build_index_unfold.
  destruct (_ =? _)%nat eqn:Hlen.
  { split; [done|]. split; [done|]. intros HE.
    apply Nat.eqb_eq in Hlen. by destruct (array_at h embeddings). }
  rewrite copy_normalized_heap.
  pose proof (copy_is_fresh h embeddings) as Hfresh.
  set (copy := (ndarray_copy h embeddings).2) in *.
  assert (h ⊆ <[copy := normalize_row <$> array_at h embeddings]> h) as Hsub
    by by apply insert_subseteq.
  assert (<[copy := normalize_row <$> array_at h embeddings]> h !! embeddings
          = h !! embeddings) as Hsame.
  { apply lookup_insert_ne. intros ->.
    apply Nat.eqb_neq in Hlen. unfold array_at in Hlen.
    by rewrite Hfresh in Hlen. }
  unfold index_add. cbn [d new_IndexFlatIP xb app].
  destruct (forallb _ _); (split; [done|]); (split; [done|]);
    intros _; exists copy; rewrite lookup_insert_eq;
    (split; [done|]); (split; [done|]); [|done].
  intros _. by eexists.
Qed.

(** C9. When the index file is there and holds an index while the
    metadata file is absent, [load_index] raises [FileNotFoundError] for
    the metadata file, after it has replaced the index of the instance; it
    does not return [False]. *)
Theorem load_index_without_metadata self fs idx :
  resolve fs (index_path self ++ ["faiss.index"])
  = Some (File (FaissIndexFile idx)) →
  resolve fs (index_path self ++ ["metadata.pkl"]) = None →
  load_index self fs
  = (set_index self (Some idx), fs,
     Raise (FileNotFoundError
              (path_str (index_path self ++ ["metadata.pkl"]))))
  ∧ (load_index self fs).2 ≠ Return false.
Proof.
  intros Hindex Hmeta.
  assert (load_index self fs
          = (set_index self (Some idx), fs,
             Raise (FileNotFoundError
                      (path_str (index_path self ++ ["metadata.pkl"])))))
    as Heq.
  { unfold load_index, fs_exists, fs_bind, fs_read, lift.
    rewrite Hindex. simpl. by rewrite Hmeta. }
  by rewrite Heq.
Qed.

(** *** Reading the chunk store *)

Lemma load_chunk_file_try fs doc_id chunk_file :
  fs_try (load_chunk_file doc_id chunk_file) fs
  = (fs, Return (chunk_from fs doc_id chunk_file)).
Proof.
  unfold fs_try, load_chunk_file, fs_bind, fs_read, lift, chunk_from.
  destruct (resolve fs chunk_file) as [[[o| | | |]|]|]; simpl; try done.
  by destruct (o !! "chunk_index").
Qed.

Lemma fs_for_chunk_files fs chunks_path doc_folder chunk_files
      (chunks : list (gmap string pyval)) :
  fs_for chunk_files
    (λ chunk_file chunks,
       fs_bind
         (fs_try (load_chunk_file doc_folder
                    (chunks_path ++ [doc_folder; chunk_file])))
         (λ loaded, match loaded with
                    | Some chunk_data => fs_ret (chunks ++ [chunk_data])
                    | None => fs_ret chunks
                    end)) chunks fs
  = (fs, Return (chunks ++ folder_chunks fs chunks_path doc_folder chunk_files)).
Proof.
  unfold folder_chunks. revert chunks.
  induction chunk_files as [|f files IH]; intros chunks.
  { simpl. by rewrite app_nil_r. }
  cbn [fs_for omap list_omap]. unfold fs_bind at 1. unfold fs_bind at 1.
  rewrite load_chunk_file_try.
  destruct (chunk_from _ _ _) as [c|]; unfold fs_ret at 1; [|apply IH].
  rewrite IH. by rewrite <- app_assoc.
Qed.

Lemma load_doc_folder_run fs chunks_path doc_folder
      (chunks : list (gmap string pyval)) :
  load_doc_folder chunks_path doc_folder chunks fs
  = (fs, bind_outcome (doc_chunks fs chunks_path doc_folder)
           (λ l, Return (chunks ++ l))).
Proof.
  unfold load_doc_folder, doc_chunks, fs_bind at 1, fs_is_dir.
  destruct (resolve fs (chunks_path ++ [doc_folder])) as [[c|folder]|] eqn:Hr;
    [by unfold fs_ret; simpl; rewrite app_nil_r|
    |by unfold fs_ret; simpl; rewrite app_nil_r].
  unfold fs_bind at 1, fs_glob_chunks, fs_bind at 1, fs_iterdir.
  rewrite Hr. unfold fs_ret at 1. unfold fs_bind at 1, lift.
  fold (globbed_names folder).
  destruct (sorted_chunk_files (globbed_names folder)) as [files|e]; [|done].
  by rewrite fs_for_chunk_files.
Qed.

Lemma fs_for_folders fs chunks_path folders
      (chunks : list (gmap string pyval)) :
  fs_for folders (load_doc_folder chunks_path) chunks fs
  = (fs, bind_outcome (all_chunks fs chunks_path folders)
           (λ l, Return (chunks ++ l))).
Proof.
  revert chunks. induction folders as [|doc folders IH]; intros chunks.
  { simpl. unfold fs_ret. by rewrite app_nil_r. }
  cbn [fs_for all_chunks]. unfold fs_bind. rewrite load_doc_folder_run.
  destruct (doc_chunks fs chunks_path doc) as [l|e]; [|done]. simpl.
  rewrite IH. destruct (all_chunks fs chunks_path folders); [|done].
  simpl. by rewrite app_assoc.
Qed.

Lemma load_chunks_run fs chunks_dir entries :
  resolve fs (path_parts chunks_dir) = Some (Dir entries) →
  load_chunks chunks_dir fs
  = (fs, all_chunks fs (path_parts chunks_dir) (fst <$> entries)).
Proof.
  intros Hr. unfold load_chunks, fs_bind at 1, fs_exists. rewrite Hr.
  rewrite bool_decide_eq_true_2 by by eexists. simpl.
  unfold fs_bind, fs_iterdir. rewrite Hr, fs_for_folders.
  by destruct (all_chunks _ _ _).
Qed.

(** *** The order of the chunk files *)

Lemma keyed_Return names ks :
  keyed names = Return ks →
  snd <$> ks = names ∧ Forall (λ p, sort_key p.2 = Return p.1) ks.
Proof.
  revert ks. induction names as [|n names IH]; intros ks; simpl.
  { by intros [= <-]. }
  destruct (sort_key n) as [k|] eqn:Hk; [|done]. simpl.
  destruct (keyed names) as [ks'|]; [|done]. simpl. intros [= <-].
  destruct (IH ks' eq_refl) as [<- HF]. split; [done|]. by constructor.
Qed.

Lemma keyed_Raise names n :
  n ∈ names → (∃ e, sort_key n = Raise e) → ∃ e, keyed names = Raise e.
Proof.
  intros Hn [e He]. induction names as [|m names IH]; [by apply elem_of_nil in Hn|].
  simpl. apply elem_of_cons in Hn as [<-|Hn].
  - rewrite He. by eexists.
  - destruct (sort_key m); [|by eexists]. simpl.
    destruct (IH Hn) as [e' ->]. by eexists.
Qed.

Lemma insert_by_key_perm c l : insert_by_key c l ≡ₚ c :: l.
Proof.
  induction l as [|c' l IH]; [done|]. simpl.
  destruct (_ <? _); [|done]. rewrite IH. apply Permutation_swap.
Qed.

Lemma insert_by_key_sorted c l :
  StronglySorted (λ a b : Z * string, a.1 ≤ b.1) l →
  StronglySorted (λ a b : Z * string, a.1 ≤ b.1) (insert_by_key c l).
Proof.
  induction 1 as [|c' l Hs IH Hall]; simpl; [repeat constructor|].
  destruct (c'.1 <? c.1) eqn:Hle.
  - constructor; [done|].
    eapply Permutation_Forall; [symmetry; apply insert_by_key_perm|].
    constructor; [lia|done].
  - constructor; [by constructor|].
    constructor; [lia|]. eapply Forall_impl; [exact Hall|]. simpl. lia.
Qed.

Lemma sort_by_key_spec ks :
  foldr insert_by_key [] ks ≡ₚ ks
  ∧ StronglySorted (λ a b : Z * string, a.1 ≤ b.1) (foldr insert_by_key [] ks).
Proof.
  induction ks as [|c ks [IHp IHs]]; simpl; [by split; [|constructor]|].
  split; [by rewrite insert_by_key_perm, IHp|by apply insert_by_key_sorted].
Qed.

Lemma StronglySorted_fmap_snd (l : list (Z * string)) :
  Forall (λ p, sort_key p.2 = Return p.1) l →
  StronglySorted (λ a b : Z * string, a.1 ≤ b.1) l →
  StronglySorted numbered_before (snd <$> l).
Proof.
  intros HF. induction 1 as [|c l Hs IH Hall]; [constructor|].
  apply Forall_cons in HF as [Hc HF]. rewrite fmap_cons.
  constructor; [by apply IH|].
  apply Forall_fmap, Forall_forall. intros c' Hc'.
  exists c.1, c'.1. repeat split; [done| |].
  - by apply (proj1 (Forall_forall _ _) HF).
  - by apply (proj1 (Forall_forall _ _) Hall).
Qed.

(** The sorted names are the given names, by ascending number. *)
Lemma sorted_chunk_files_spec names files :
  sorted_chunk_files names = Return files →
  files ≡ₚ names ∧ StronglySorted numbered_before files.
Proof.
  unfold sorted_chunk_files.
  destruct (keyed names) as [ks|] eqn:Hks; [|done]. simpl. intros [= <-].
  apply keyed_Return in Hks as [<- HF].
  destruct (sort_by_key_spec ks) as [Hp Hs]. split.
  - by apply fmap_Permutation.
  - apply StronglySorted_fmap_snd; [|done].
    eapply Permutation_Forall; [symmetry; exact Hp|done].
Qed.

Lemma folder_chunks_elem fs chunks_path doc files c :
  c ∈ folder_chunks fs chunks_path doc files →
  ∃ file o ci,
    resolve fs (chunks_path ++ [doc; file]) = Some (File (JsonObject o))
    ∧ o !! "chunk_index" = Some ci
    ∧ c = <["chunk_id" := PStr (doc +:+ "_chunk_" +:+ py_format ci)]> o.
Proof.
  unfold folder_chunks. intros (file & _ & Hc)%list_elem_of_omap.
  unfold chunk_from in Hc.
  destruct (resolve fs _) as [[[o| | | |]|]|] eqn:Hr; try done.
  destruct (o !! "chunk_index") as [ci|] eqn:Hci; [|done].
  injection Hc as <-. by exists file, o, ci.
Qed.

Lemma doc_chunks_Return fs chunks_path doc l :
  doc_chunks fs chunks_path doc = Return l →
  ∃ files,
    l = folder_chunks fs chunks_path doc files
    ∧ match resolve fs (chunks_path ++ [doc]) with
      | Some (Dir folder) =>
          files ≡ₚ globbed_names folder
          ∧ StronglySorted numbered_before files
      | _ => files = []
      end.
Proof.
  unfold doc_chunks.
  destruct (resolve fs (chunks_path ++ [doc])) as [[c|folder]|];
    [intros [= <-]; by exists []| |intros [= <-]; by exists []].
  destruct (sorted_chunk_files _) as [files|] eqn:Hs; [|done].
  simpl. intros [= <-]. exists files. split; [done|].
  by apply sorted_chunk_files_spec.
Qed.

Lemma doc_chunks_Raise fs chunks_path doc e :
  doc_chunks fs chunks_path doc = Raise e →
  ∃ folder,
    resolve fs (chunks_path ++ [doc]) = Some (Dir folder)
    ∧ sorted_chunk_files (globbed_names folder) = Raise e.
Proof.
  unfold doc_chunks.
  destruct (resolve fs (chunks_path ++ [doc])) as [[c|folder]|]; try done.
  destruct (sorted_chunk_files _) as [files|e'] eqn:Hs; [done|].
  intros [= <-]. by exists folder.
Qed.

Lemma all_chunks_Return fs chunks_path folders chunks :
  all_chunks fs chunks_path folders = Return chunks →
  (∃ loaded : list (list string),
     Forall2 (λ doc files,
                match resolve fs (chunks_path ++ [doc]) with
                | Some (Dir folder) =>
                    files ≡ₚ globbed_names folder
                    ∧ StronglySorted numbered_before files
                | _ => files = []
                end) folders loaded
     ∧ chunks = concat (zip_with (folder_chunks fs chunks_path)
                                 folders loaded))
  ∧ (∀ c, c ∈ chunks →
       ∃ doc file o ci,
         doc ∈ folders
         ∧ resolve fs (chunks_path ++ [doc; file])
           = Some (File (JsonObject o))
         ∧ o !! "chunk_index" = Some ci
         ∧ c = <["chunk_id" :=
                 PStr (doc +:+ "_chunk_" +:+ py_format ci)]> o).
Proof.
  revert chunks. induction folders as [|doc folders IH]; intros chunks; simpl.
  { intros [= <-]. split; [by exists []|]. by intros c ?%elem_of_nil. }
  destruct (doc_chunks fs chunks_path doc) as [l|] eqn:Hdoc; [|done]. simpl.
  destruct (all_chunks fs chunks_path folders) as [r|]; [|done]. simpl.
  intros [= <-]. destruct (IH r eq_refl) as [(loaded & HF & ->) Hids].
  apply doc_chunks_Return in Hdoc as (files & -> & Hfiles). split.
  - exists (files :: loaded). split; [by constructor|done].
  - intros c [Hc|Hc]%elem_of_app.
    + apply folder_chunks_elem in Hc as (file & o & ci & ? & ? & ?).
      exists doc, file, o, ci. by rewrite elem_of_cons; auto.
    + destruct (Hids c Hc) as (doc' & file & o & ci & ? & ? & ? & ?).
      exists doc', file, o, ci. by rewrite elem_of_cons; auto.
Qed.

Lemma all_chunks_Raise fs chunks_path folders doc e0 :
  doc ∈ folders →
  doc_chunks fs chunks_path doc = Raise e0 →
  ∃ e doc' folder',
    doc' ∈ folders
    ∧ resolve fs (chunks_path ++ [doc']) = Some (Dir folder')
    ∧ sorted_chunk_files (globbed_names folder') = Raise e
    ∧ all_chunks fs chunks_path folders = Raise e.
Proof.
  intros Hdoc Hraise.
  induction folders as [|doc1 folders IH]; [by apply elem_of_nil in Hdoc|].
  simpl. destruct (doc_chunks fs chunks_path doc1) as [l|e1] eqn:H1.
  - apply elem_of_cons in Hdoc as [->|Hdoc]; [congruence|].
    destruct (IH Hdoc) as (e & doc' & folder' & ? & ? & ? & ->).
    exists e, doc', folder'. by rewrite elem_of_cons; auto.
  - apply doc_chunks_Raise in H1 as (folder' & ? & ?).
    exists e1, doc1, folder'. by rewrite elem_of_cons; auto.
Qed.

Lemma keyed_returns names :
  (∀ n, n ∈ names → ∃ k, sort_key n = Return k) →
  ∃ ks, keyed names = Return ks.
Proof.
  induction names as [|n names IH]; intros Hall; simpl; [by eexists|].
  destruct (Hall n) as [k ->]; [by left|]. simpl.
  destruct IH as [ks ->]; [|by eexists].
  intros m Hm. apply Hall. by right.
Qed.

Lemma doc_chunks_returns fs chunks_path doc :
  (∀ folder name,
     resolve fs (chunks_path ++ [doc]) = Some (Dir folder) →
     name ∈ globbed_names folder → ∃ n, sort_key name = Return n) →
  ∃ l, doc_chunks fs chunks_path doc = Return l.
Proof.
  intros Hall. unfold doc_chunks.
  destruct (resolve fs (chunks_path ++ [doc])) as [[c|folder]|];
    [by eexists| |by eexists].
  unfold sorted_chunk_files.
  destruct (keyed_returns (globbed_names folder)) as [ks ->];
    [intros n Hn; by apply (Hall folder n)|by eexists].
Qed.

Lemma all_chunks_returns fs chunks_path folders :
  (∀ doc folder name,
     doc ∈ folders →
     resolve fs (chunks_path ++ [doc]) = Some (Dir folder) →
     name ∈ globbed_names folder → ∃ n, sort_key name = Return n) →
  ∃ chunks, all_chunks fs chunks_path folders = Return chunks.
Proof.
  induction folders as [|doc folders IH]; intros Hall; simpl; [by eexists|].
  destruct (doc_chunks_returns fs chunks_path doc) as [l ->].
  { intros folder name. apply Hall. by left. }
  destruct IH as [r ->]; [|by eexists].
  intros doc' folder name Hdoc'. apply Hall. by right.
Qed.

(** C3. When every file of every document folder that matches
    [chunk_*.json] carries an integer after the first underscore of its
    name, [load_chunks] returns and leaves the file system as it was (no
    chunk file is written). The result is, folder after folder in the
    order of enumeration, the records of the matching files that load, the
    files taken by ascending number in their names ([chunk_2.json] before
    [chunk_10.json]); and every record is the object of its file with a
    [chunk_id] added, made of the name of the folder, [_chunk_] and the
    [chunk_index] of the record. *)
Theorem load_chunks_sorted_with_ids fs chunks_dir entries :
  resolve fs (path_parts chunks_dir) = Some (Dir entries) →
  (∀ doc folder name,
     doc ∈ fst <$> entries →
     resolve fs (path_parts chunks_dir ++ [doc]) = Some (Dir folder) →
     name ∈ globbed_names folder → ∃ n, sort_key name = Return n) →
  ∃ chunks,
    load_chunks chunks_dir fs = (fs, Return chunks)
    ∧ (∃ loaded : list (list string),
         Forall2 (λ doc files,
                    match resolve fs (path_parts chunks_dir ++ [doc]) with
                    | Some (Dir folder) =>
                        files ≡ₚ globbed_names folder
                        ∧ StronglySorted numbered_before files
                    | _ => files = []
                    end) (fst <$> entries) loaded
         ∧ chunks
           = concat (zip_with (folder_chunks fs (path_parts chunks_dir))
                              (fst <$> entries) loaded))
    ∧ (∀ c, c ∈ chunks →
         ∃ doc file o ci,
           doc ∈ fst <$> entries
           ∧ resolve fs (path_parts chunks_dir ++ [doc; file])
             = Some (File (JsonObject o))
           ∧ o !! "chunk_index" = Some ci
           ∧ c = <["chunk_id" :=
                   PStr (doc +:+ "_chunk_" +:+ py_format ci)]> o)
    ∧ sorted_chunk_files ["chunk_10.json"; "chunk_2.json"]
      = Return ["chunk_2.json"; "chunk_10.json"].
Proof.
  intros Hdir Hnames. rewrite (load_chunks_run _ _ _ Hdir).
  destruct (all_chunks_returns fs (path_parts chunks_dir) (fst <$> entries)
              Hnames) as [chunks Hall].
  exists chunks. rewrite Hall. split; [done|].
  apply all_chunks_Return in Hall as [Hloaded Hids]. by repeat split.
Qed.

(** C10. When a document folder holds a file that matches [chunk_*.json]
    and whose segment after the first underscore is not an integer for
    [int], [load_chunks] raises: the exception is the one raised by the
    sort of the files of a folder, it is not caught, and no chunk is
    returned. *)
Theorem load_chunks_bad_file_name fs chunks_dir entries doc folder name seg :
  resolve fs (path_parts chunks_dir) = Some (Dir entries) →
  doc ∈ fst <$> entries →
  resolve fs (path_parts chunks_dir ++ [doc]) = Some (Dir folder) →
  name ∈ fst <$> folder →
  glob_chunk_json name = true →
  split_on "_" (name_stem name) !! 1%nat = Some seg →
  int_of_str seg = None →
  ∃ e doc' folder',
    doc' ∈ fst <$> entries
    ∧ resolve fs (path_parts chunks_dir ++ [doc']) = Some (Dir folder')
    ∧ sorted_chunk_files (globbed_names folder') = Raise e
    ∧ load_chunks chunks_dir fs = (fs, Raise e).
Proof.
  intros Hdir Hdoc Hfolder Hname Hglob Hseg Hint.
  rewrite (load_chunks_run _ _ _ Hdir).
  assert (∃ e, doc_chunks fs (path_parts chunks_dir) doc = Raise e)
    as [e0 He0].
  { unfold doc_chunks. rewrite Hfolder. unfold sorted_chunk_files.
    destruct (keyed_Raise (globbed_names folder) name) as [e ->];
      [|unfold sort_key; rewrite Hseg, Hint; by eexists|by exists e].
    unfold globbed_names. by apply list_elem_of_filter. }
  destruct (all_chunks_Raise _ _ _ _ _ Hdoc He0)
    as (e & doc' & folder' & ? & ? & ? & ->).
  by exists e, doc', folder'.
Qed.

(** *** Search *)

Lemma insert_by_score_perm c l : insert_by_score c l ≡ₚ c :: l.
Proof.
  induction l as [|c' l IH]; [done|]. simpl.
  destruct (score_ltb _ _); [|done]. rewrite IH. apply Permutation_swap.
Qed.

Lemma sort_by_score_perm l : sort_by_score l ≡ₚ l.
Proof.
  unfold sort_by_score. induction l as [|c l IH]; [done|]. simpl.
  by rewrite insert_by_score_perm, IH.
Qed.

(** A search that returns gives exactly [k] candidates; when [k] is at
    most the number of stored vectors, each one is a stored position. *)
Lemma index_search_Return idx q k candidates :
  index_search idx q k = Return candidates →
  length q = d idx
  ∧ 1 ≤ k
  ∧ Z.of_nat (length candidates) = k
  ∧ (k ≤ ntotal idx →
     Forall (λ c : Z * scalar, 0 ≤ c.1 < ntotal idx) candidates).
Proof.
  unfold index_search.
  destruct (length q =? d idx)%nat eqn:Hq; [|done].
  destruct (k <=? 0) eqn:Hk; [done|]. simpl. intros [= <-].
  apply Nat.eqb_eq in Hq. apply Z.leb_gt in Hk.
  set (scored := imap _ (xb idx)).
  assert (length (sort_by_score scored) = length (xb idx)) as Hlen.
  { rewrite (Permutation_length (sort_by_score_perm scored)).
    apply length_imap. }
  split; [done|]. split; [lia|]. split.
  { rewrite length_app, length_replicate, length_take. lia. }
  unfold ntotal. intros Hle.
  rewrite length_take, Hlen.
  replace (Z.to_nat k - Z.to_nat k `min` length (xb idx))%nat with 0%nat by lia.
  rewrite app_nil_r. apply Forall_take.
  eapply Permutation_Forall; [symmetry; apply sort_by_score_perm|].
  apply Forall_forall. intros [i x] Hix. unfold scored in Hix.
  apply list_elem_of_lookup in Hix as [j Hj].
  rewrite list_lookup_imap in Hj.
  destruct (xb idx !! j) as [v|] eqn:Hv; [|done].
  injection Hj as <- _. apply lookup_lt_Some in Hv. simpl. lia.
Qed.

Lemma index_search_returns idx q k :
  length q = d idx → 1 ≤ k → ∃ candidates, index_search idx q k = Return candidates.
Proof.
  intros Hq Hk. unfold index_search.
  rewrite (proj2 (Nat.eqb_eq _ _) Hq). simpl.
  destruct (k <=? 0) eqn:Hk'; [lia|]. by eexists.
Qed.

Lemma dict_get_score (entry : gmap string pyval) x :
  dict_get (<["score" := PFloat x]> entry) "doc_id" = dict_get entry "doc_id".
Proof. unfold dict_get. by rewrite lookup_insert_ne. Qed.

Lemma truthy_doc_id (filters : gmap string pyval) wanted :
  filters !! "doc_id" = Some wanted → truthy (Some filters) = true.
Proof.
  intros Hf. unfold truthy. rewrite bool_decide_eq_false_2; [done|].
  intros ->. by rewrite lookup_empty in Hf.
Qed.

Lemma rejected_doc_id (filters : gmap string pyval) wanted chunk :
  filters !! "doc_id" = Some wanted →
  rejected (Some filters) chunk
  = negb (py_eq (dict_get chunk "doc_id") wanted).
Proof.
  intros Hf. unfold rejected. by rewrite (truthy_doc_id _ _ Hf), Hf.
Qed.

Lemma collect_matches metadata k (filters : gmap string pyval) wanted
      candidates results :
  filters !! "doc_id" = Some wanted →
  Forall (λ r, py_eq (dict_get r "doc_id") wanted = true) results →
  Forall (λ r, py_eq (dict_get r "doc_id") wanted = true)
         (collect metadata k (Some filters) candidates results).
Proof.
  intros Hf. revert results.
  induction candidates as [|[i x] rest IH]; intros results Hres; [done|].
  cbn [collect]. destruct (_ || _); [by apply IH|].
  destruct (metadata !! Z.to_nat i) as [entry|]; [|by apply IH].
  rewrite (rejected_doc_id _ _ _ Hf).
  destruct (py_eq _ wanted) eqn:Heq; simpl; [|by apply IH].
  assert (Forall (λ r, py_eq (dict_get r "doc_id") wanted = true)
                 (results ++ [<["score" := PFloat x]> entry])) as Hres'.
  { apply Forall_app. split; [done|]. by repeat constructor. }
  destruct (_ >=? k); [done|by apply IH].
Qed.

Lemma collect_at_most metadata k filters candidates
      (results : list (gmap string pyval)) :
  Z.of_nat (length results) < k →
  Z.of_nat (length (collect metadata k filters candidates results)) ≤ k.
Proof.
  revert results.
  induction candidates as [|[i x] rest IH]; intros results Hres; [simpl; lia|].
  cbn [collect]. destruct (_ || _); [by apply IH|].
  destruct (metadata !! Z.to_nat i) as [entry|]; [|by apply IH].
  destruct (rejected _ _); [by apply IH|].
  destruct (_ >=? k) eqn:Hk.
  - rewrite length_app. simpl. lia.
  - apply IH. rewrite Z.geb_leb in Hk. apply Z.leb_gt in Hk. lia.
Qed.

Lemma collect_keeps metadata k filters candidates
      (results : list (gmap string pyval)) :
  (length results ≤ length (collect metadata k filters candidates results))%nat.
Proof.
  revert results.
  induction candidates as [|[i x] rest IH]; intros results; [done|].
  cbn [collect]. destruct (_ || _); [by apply IH|].
  destruct (metadata !! Z.to_nat i) as [entry|]; [|by apply IH].
  destruct (rejected _ _); [by apply IH|].
  destruct (_ >=? k).
  - rewrite length_app. lia.
  - etrans; [|apply IH]. rewrite length_app. lia.
Qed.

Lemma collect_none metadata k (filters : gmap string pyval) wanted
      candidates results :
  filters !! "doc_id" = Some wanted →
  Forall (λ c, py_eq (dict_get c "doc_id") wanted = false) metadata →
  collect metadata k (Some filters) candidates results = results.
Proof.
  intros Hf Hmeta. revert results.
  induction candidates as [|[i x] rest IH]; intros results; [done|].
  cbn [collect]. destruct (_ || _); [by apply IH|].
  destruct (metadata !! Z.to_nat i) as [entry|] eqn:Hentry; [|by apply IH].
  rewrite (rejected_doc_id _ _ _ Hf), dict_get_score.
  apply list_elem_of_lookup_2 in Hentry.
  rewrite (proj1 (Forall_forall _ _) Hmeta entry Hentry). simpl. apply IH.
Qed.

Lemma collect_first metadata k (filters : gmap string pyval) wanted
      candidates :
  filters !! "doc_id" = Some wanted →
  Forall (λ c, py_eq (dict_get c "doc_id") wanted = true) metadata →
  Forall (λ c : Z * scalar, 0 ≤ c.1 < Z.of_nat (length metadata)) candidates →
  candidates ≠ [] →
  (1 ≤ length (collect metadata k (Some filters) candidates []))%nat.
Proof.
  intros Hf Hmeta Hrange Hne.
  destruct candidates as [|[i x] rest]; [done|].
  apply Forall_cons in Hrange as [Hi _]. simpl in Hi. cbn [collect].
  destruct (i <? 0) eqn:H1; [lia|]. destruct (i >=? _) eqn:H2; [lia|].
  cbn [orb].
  destruct (lookup_lt_is_Some_2 metadata (Z.to_nat i)) as [entry Hentry]; [lia|].
  rewrite Hentry, (rejected_doc_id _ _ _ Hf), dict_get_score.
  apply list_elem_of_lookup_2 in Hentry.
  rewrite (proj1 (Forall_forall _ _) Hmeta entry Hentry). simpl.
  destruct (_ >=? k); [simpl; lia|].
  etrans; [|apply collect_keeps]. simpl. lia.
Qed.

Lemma search_unfold self query_text k filters idx :
  index self = Some idx → ntotal idx ≠ 0 →
  search self query_text k filters
  = bind_outcome
      (index_search idx (normalize_row (model self query_text))
                    (Z.min (search_k k filters) (ntotal idx)))
      (λ candidates,
         Return (collect (chunk_metadata self) k filters candidates [])).
Proof.
  intros Hidx Hn. unfold search. rewrite Hidx.
  by rewrite (proj2 (Z.eqb_neq _ _) Hn).
Qed.

Lemma search_at_most self query_text k filters results :
  0 ≤ k →
  search self query_text k filters = Return results →
  Z.of_nat (length results) ≤ k.
Proof.
  intros Hk. unfold search.
  destruct (index self) as [idx|]; [|intros [= <-]; simpl; lia].
  destruct (ntotal idx =? 0); [intros [= <-]; simpl; lia|].
  destruct (index_search _ _ _) as [candidates|] eqn:Hs; [|done].
  simpl. intros [= <-].
  apply index_search_Return in Hs as (_ & Hmin & _).
  apply collect_at_most. simpl.
  unfold search_k in Hmin. destruct (truthy filters); lia.
Qed.

(** C4, amended. With a [doc_id] among the filters, every result of
    [search] has that [doc_id] (in the sense of [==]). On an index of one
    or more vectors, aligned with its metadata, whose records all have the
    [doc_id] of one document, a query of the right width with [k >= 1]
    returns at least one result under the filter of that document and
    none under the filter of another. The index is asked for
    [min(search_k, ntotal)] candidates and gives that many, where
    [search_k] is [k * 3] under such a filter (under any mapping that is
    not empty), and [k] without filters and under the empty mapping. For
    [k >= 0], at most [k] results are returned. *)
Theorem search_filter_and_counts :
  (∀ self query_text k (filters : gmap string pyval) wanted results,
     filters !! "doc_id" = Some wanted →
     search self query_text k (Some filters) = Return results →
     Forall (λ r, py_eq (dict_get r "doc_id") wanted = true) results)
  ∧ (∀ self query_text k (filters : gmap string pyval) doc idx,
       index self = Some idx →
       1 ≤ ntotal idx →
       length (chunk_metadata self) = length (xb idx) →
       Forall (λ c, c !! "doc_id" = Some (PStr doc)) (chunk_metadata self) →
       length (model self query_text) = d idx →
       1 ≤ k →
       (filters !! "doc_id" = Some (PStr doc) →
        ∃ results,
          search self query_text k (Some filters) = Return results
          ∧ (1 ≤ length results)%nat)
       ∧ (∀ other,
            filters !! "doc_id" = Some (PStr other) → other ≠ doc →
            search self query_text k (Some filters) = Return []))
  ∧ (∀ self query_text k filters idx,
       index self = Some idx →
       ntotal idx ≠ 0 →
       search self query_text k filters
       = bind_outcome
           (index_search idx (normalize_row (model self query_text))
                         (Z.min (search_k k filters) (ntotal idx)))
           (λ candidates,
              Return (collect (chunk_metadata self) k filters candidates []))
       ∧ ∀ candidates,
           index_search idx (normalize_row (model self query_text))
                        (Z.min (search_k k filters) (ntotal idx))
           = Return candidates →
           Z.of_nat (length candidates)
           = Z.min (search_k k filters) (ntotal idx))
  ∧ (∀ k (filters : gmap string pyval),
       filters ≠ ∅ → search_k k (Some filters) = k * 3)
  ∧ (∀ k (filters : gmap string pyval) wanted,
       filters !! "doc_id" = Some wanted → search_k k (Some filters) = k * 3)
  ∧ (∀ k, search_k k None = k ∧ search_k k (Some ∅) = k)
  ∧ (∀ self query_text k filters results,
       0 ≤ k →
       search self query_text k filters = Return results →
       Z.of_nat (length results) ≤ k).
Proof.
  split; [|split; [|split; [|split; [|split; [|split]]]]].
  - intros self query_text k filters wanted results Hf. unfold search.
    destruct (index self) as [idx|]; [|by intros [= <-]].
    destruct (ntotal idx =? 0); [by intros [= <-]|].
    destruct (index_search _ _ _) as [candidates|]; [|done].
    simpl. intros [= <-]. by apply (collect_matches _ _ _ wanted).
  - intros self query_text k filters doc idx Hidx Hn Halign Hdocs Hq Hk.
    assert (ntotal idx ≠ 0) as Hn' by lia.
    assert (Z.of_nat (length (chunk_metadata self)) = ntotal idx) as Hlen
      by (unfold ntotal; lia).
    split.
    + intros Hf. rewrite (search_unfold _ _ _ _ _ Hidx Hn').
      unfold search_k. rewrite (truthy_doc_id _ _ Hf).
      destruct (index_search_returns
                  idx (normalize_row (model self query_text))
                  (Z.min (k * 3) (ntotal idx))) as [candidates Hs];
        [by rewrite normalize_row_length|lia|].
      rewrite Hs. simpl. eexists. split; [reflexivity|].
      apply index_search_Return in Hs as (_ & _ & Hcount & Hrange).
      apply (collect_first _ _ _ (PStr doc)); [done| | |].
      * eapply Forall_impl; [exact Hdocs|]. intros c Hc. unfold dict_get.
        rewrite Hc. simpl. apply String.eqb_refl.
      * rewrite Hlen. apply Hrange. lia.
      * intros ->. simpl in Hcount. lia.
    + intros other Hf Hother. rewrite (search_unfold _ _ _ _ _ Hidx Hn').
      unfold search_k. rewrite (truthy_doc_id _ _ Hf).
      destruct (index_search_returns
                  idx (normalize_row (model self query_text))
                  (Z.min (k * 3) (ntotal idx))) as [candidates Hs];
        [by rewrite normalize_row_length|lia|].
      rewrite Hs. simpl. f_equal.
      apply (collect_none _ _ _ (PStr other)); [done|].
      eapply Forall_impl; [exact Hdocs|]. intros c Hc. unfold dict_get.
      rewrite Hc. simpl. by apply String.eqb_neq.
  - intros self query_text k filters idx Hidx Hn.
    split; [by apply search_unfold|].
    by intros candidates (_ & _ & ? & _)%index_search_Return.
  - intros k filters Hne. unfold search_k, truthy.
    by rewrite bool_decide_eq_false_2.
  - intros k filters wanted Hf. unfold search_k.
    by rewrite (truthy_doc_id _ _ Hf).
  - intros k. split; [done|]. unfold search_k, truthy.
    by rewrite bool_decide_eq_true_2.
  - apply search_at_most.
Qed.

End IndexerFacts.

Section IndexerExamples.
Import PyStr Indexer IntegerKernel Examples.

(** C1, as stated, fails for [N = 0]: with an empty array of embeddings
    and no chunk, [build_index] returns at once, and an indexer that held
    one vector and one record still holds them. *)
Lemma build_index_cardinality_counterexample :
  ¬ (∀ (K : Float32Kernel) (self : EmbeddingIndexer)
       (h : gmap positive (list (list scalar))) embeddings E
       (chunks : list (gmap string pyval)),
       h !! embeddings = Some E →
       Forall (λ r, length r = dimension self) E →
       length chunks = length E →
       ∃ self' h' idx,
         build_index self h embeddings chunks = (self', h', Return ())
         ∧ index self' = Some idx
         ∧ ntotal idx = Z.of_nat (length E)
         ∧ xb idx = normalize_row <$> E
         ∧ chunk_metadata self' = chunks
         ∧ length (chunk_metadata self') = length E).
Proof.
  intros H.
  destruct (H kernel built_indexer arrays 2%positive [] [] eq_refl
              ltac:(constructor) eq_refl)
    as (self' & h' & idx & Hrun & Hidx & Hn & _).
  vm_compute in Hrun. injection Hrun as <- _. simpl in Hidx.
  injection Hidx as <-. discriminate Hn.
Qed.

Lemma build_index_replaces_state_witness :
  ∃ self' h' idx,
    build_index built_indexer arrays 1%positive [chunk_a; chunk_b]
    = (self', h', Return ())
    ∧ index self' = Some idx
    ∧ ntotal idx = 2
    ∧ xb idx = [unit_row 0; Z.opp <$> unit_row 383]
    ∧ chunk_metadata self' = [chunk_a; chunk_b]
    ∧ length (chunk_metadata self') = 2%nat.
Proof.
  assert (arrays !! 1%positive
          = Some [(λ x, 3 * x) <$> unit_row 0; (λ x, -5 * x) <$> unit_row 383])
    as Harray by reflexivity.
  pose proof (proj1 (build_index_replaces_state
                       built_indexer arrays 1%positive _ [chunk_a; chunk_b]
                       Harray ltac:(repeat constructor) eq_refl)
                    ltac:(discriminate)) as H.
  vm_compute in H |- *. exact H.
Defined.

Lemma build_index_keeps_embeddings_witness :
  let '(self', h', result) :=
    build_index fresh_indexer arrays 1%positive [chunk_a; chunk_b] in
  h' !! 1%positive = arrays !! 1%positive
  ∧ ∃ idx, index self' = Some idx
           ∧ xb idx = [unit_row 0; Z.opp <$> unit_row 383].
Proof.
  pose proof (build_index_keeps_embeddings
                fresh_indexer arrays 1%positive [chunk_a; chunk_b]) as H.
  destruct (build_index fresh_indexer arrays 1%positive [chunk_a; chunk_b])
    as [[self' h'] result] eqn:Hrun.
  destruct H as (Hsame & _ & Hcopy). split; [exact Hsame|].
  destruct Hcopy as (copy & _ & _ & Hidx); [discriminate|].
  apply Hidx. vm_compute in Hrun. by injection Hrun as _ _ <-.
Defined.

Lemma load_index_without_metadata_witness :
  load_index fresh_indexer index_only_fs
  = (set_index fresh_indexer (Some stored_index), index_only_fs,
     Raise (FileNotFoundError "vector_index/metadata.pkl"))
  ∧ (load_index fresh_indexer index_only_fs).2 ≠ Return false.
Proof.
  apply (load_index_without_metadata fresh_indexer index_only_fs
           stored_index); reflexivity.
Defined.

Lemma load_chunks_sorted_with_ids_witness :
  ∃ chunks,
    load_chunks "./storage/chunks" chunk_store = (chunk_store, Return chunks)
    ∧ ∀ c, c ∈ chunks →
        ∃ doc file o ci,
          doc ∈ ["README"; "test_doc_123"]
          ∧ resolve chunk_store (["storage"; "chunks"] ++ [doc; file])
            = Some (File (JsonObject o))
          ∧ o !! "chunk_index" = Some ci
          ∧ c = <["chunk_id" :=
                  PStr (doc +:+ "_chunk_" +:+ py_format ci)]> o.
Proof.
  destruct (load_chunks_sorted_with_ids
              chunk_store "./storage/chunks"
              [("README", File Garbage); ("test_doc_123", Dir doc_files)]
              eq_refl) as (chunks & Hrun & _ & Hids & _).
  - intros doc folder name Hdoc Hfolder Hname.
    apply elem_of_cons in Hdoc as [->|Hdoc]; [discriminate Hfolder|].
    apply list_elem_of_singleton in Hdoc as ->.
    injection Hfolder as <-.
    change (globbed_names doc_files)
      with ["chunk_10.json"; "chunk_2.json"; "chunk_3.json"] in Hname.
    repeat (apply elem_of_cons in Hname as [->|Hname];
            [by eexists|]).
    by apply elem_of_nil in Hname.
  - exists chunks. split; [exact Hrun|exact Hids].
Defined.

Example load_chunks_example :
  load_chunks "./storage/chunks" chunk_store
  = (chunk_store, Return loaded_chunks).
Proof. vm_compute. reflexivity. Qed.

Example load_chunks_bad_name_example :
  load_chunks "./storage/chunks" bad_store
  = (bad_store,
     Raise (ValueError "invalid literal for int() with base 10: 'abc'")).
Proof. vm_compute. reflexivity. Qed.

Example save_then_load_index :
  let fs := (save_index two_chunk_indexer index_only_fs).1 in
  load_index fresh_indexer fs = (two_chunk_indexer, fs, Return true).
Proof. vm_compute. reflexivity. Qed.

Lemma load_chunks_bad_file_name_witness :
  ∃ e doc' folder',
    doc' ∈ ["README"; "test_doc_123"]
    ∧ resolve bad_store (["storage"; "chunks"] ++ [doc']) = Some (Dir folder')
    ∧ sorted_chunk_files (globbed_names folder') = Raise e
    ∧ load_chunks "./storage/chunks" bad_store = (bad_store, Raise e).
Proof.
  apply (load_chunks_bad_file_name
           bad_store "./storage/chunks"
           [("README", File Garbage);
            ("test_doc_123",
             Dir (doc_files
                    ++ [("chunk_abc.json", File (JsonObject chunk_a))]))]
           "test_doc_123"
           (doc_files ++ [("chunk_abc.json", File (JsonObject chunk_a))])
           "chunk_abc.json" "abc").
  - reflexivity.
  - apply list_elem_of_further, list_elem_of_here.
  - reflexivity.
  - do 4 apply list_elem_of_further. apply list_elem_of_here.
  - reflexivity.
  - reflexivity.
  - reflexivity.
Defined.

(** C4, as stated, fails for a mapping of filters that is supplied and
    empty: [filters] is then falsy, and the index is asked for [k]
    candidates, not for [k * 3]. *)
Lemma search_candidates_counterexample :
  ¬ (∀ (K : Float32Kernel) (k : Z) (filters : gmap string pyval),
       search_k k (Some filters) = k * 3).
Proof.
  intros H. specialize (H kernel 1 ∅). vm_compute in H. discriminate H.
Qed.

Lemma search_filter_and_counts_witness :
  (∃ results,
     search two_chunk_indexer "quality control" 5
            (Some (doc_filter "test_doc_123")) = Return results
     ∧ (1 ≤ length results)%nat)
  ∧ search two_chunk_indexer "quality control" 5
           (Some (doc_filter "wrong_doc")) = Return [].
Proof.
  destruct (search_filter_and_counts (K := kernel)) as (_ & Hone & _).
  assert (1 ≤ ntotal two_chunk_index) as Hn by (vm_compute; discriminate).
  assert (Forall (λ c : gmap string pyval,
                    c !! "doc_id" = Some (PStr "test_doc_123"))
                 (chunk_metadata two_chunk_indexer)) as Hdocs
    by (repeat constructor).
  assert (length (model two_chunk_indexer "quality control")
          = d two_chunk_index) as Hq by reflexivity.
  split.
  - apply (proj1 (Hone two_chunk_indexer "quality control" 5
                       (doc_filter "test_doc_123") "test_doc_123"
                       two_chunk_index
                       eq_refl Hn eq_refl Hdocs Hq ltac:(lia))).
    reflexivity.
  - apply (proj2 (Hone two_chunk_indexer "quality control" 5
                       (doc_filter "wrong_doc") "test_doc_123"
                       two_chunk_index
                       eq_refl Hn eq_refl Hdocs Hq ltac:(lia)) "wrong_doc").
    + reflexivity.
    + discriminate.
Defined.

End IndexerExamples.

(** * Further properties *)

(** ** The chunker *)

Section ChunkerRanges.
Import PyStr Chunker.

Lemma total_words_nonneg page_texts : 0 ≤ total_words page_texts.
Proof. induction page_texts; simpl; unfold page_words in *; lia. Qed.

Lemma build_page_ranges_from_lookup offset page_texts (i : nat) r :
  build_page_ranges_from offset page_texts !! i = Some r →
  ∃ e, page_texts !! i = Some e
       ∧ range_page r = pt_page e
       ∧ range_start_offset r = offset + total_words (take i page_texts)
       ∧ range_end_offset r = range_start_offset r + page_words e.
Proof.
  revert offset i. induction page_texts as [|e rest IH]; intros offset i; [done|].
  destruct i as [|i]; simpl.
  - intros [= <-]. exists e. simpl. unfold page_words. repeat split; lia.
  - intros Hr. apply IH in Hr as (e' & ? & ? & -> & ->).
    exists e'. repeat split; try done. unfold page_words. lia.
Qed.

Lemma length_build_page_ranges_from offset page_texts :
  length (build_page_ranges_from offset page_texts) = length page_texts.
Proof.
  revert offset. induction page_texts as [|e rest IH]; intros offset; [done|].
  simpl. by rewrite IH.
Qed.

Lemma scan_built_ranges offset page_texts start_offset :
  (offset ≤ start_offset < offset + total_words page_texts →
   ∃ (i : nat) r,
     build_page_ranges_from offset page_texts !! i = Some r
     ∧ range_start_offset r ≤ start_offset < range_end_offset r
     ∧ scan_page_ranges (build_page_ranges_from offset page_texts)
                        start_offset = Some (range_page r))
  ∧ (start_offset < offset ∨ offset + total_words page_texts ≤ start_offset →
     scan_page_ranges (build_page_ranges_from offset page_texts)
                      start_offset = None).
Proof.
  revert offset. induction page_texts as [|e rest IH]; intros offset.
  { simpl. split; [lia|done]. }
  pose proof (total_words_nonneg rest) as Hrest.
  cbn [build_page_ranges_from scan_page_ranges total_words
       range_start_offset range_end_offset range_page].
  fold (page_words e).
  assert (0 ≤ page_words e) as He by (unfold page_words; lia).
  destruct (IH (offset + page_words e)) as [IHin IHout]. split.
  - intros Hin.
    destruct (decide (start_offset < offset + page_words e)) as [Hlt|Hge].
    + exists 0%nat, {| range_page := pt_page e; range_start_offset := offset;
                      range_end_offset := offset + page_words e |}.
      split; [done|]. split; [simpl; lia|].
      by rewrite (proj2 (Z.leb_le _ _)), (proj2 (Z.ltb_lt _ _)) by lia.
    + destruct IHin as (i & r & Hr & Hrange & Hscan); [lia|].
      exists (S i), r. split; [done|]. split; [done|].
      by rewrite (proj2 (Z.ltb_ge _ _)), andb_false_r by lia.
  - intros Hout. destruct Hout as [Hlt|Hge].
    + rewrite (proj2 (Z.leb_gt _ _)) by lia. simpl. apply IHout. lia.
    + rewrite (proj2 (Z.ltb_ge _ _)), andb_false_r by lia. apply IHout. lia.
Qed.

(** X1. The ranges built from the page segments: one per segment, with
    its page number; the first starts at word 0, each one starts where
    the one before ends, and each one is as long as its page has words. *)
Theorem build_page_ranges_contiguous page_texts (i : nat) r :
  build_page_ranges page_texts !! i = Some r →
  length (build_page_ranges page_texts) = length page_texts
  ∧ (∃ e, page_texts !! i = Some e
          ∧ range_page r = pt_page e
          ∧ range_end_offset r - range_start_offset r
            = Z.of_nat (length (split_words (pt_text e))))
  ∧ (i = 0%nat → range_start_offset r = 0)
  ∧ (∀ r', build_page_ranges page_texts !! S i = Some r' →
           range_start_offset r' = range_end_offset r)
  ∧ 0 ≤ range_start_offset r ≤ range_end_offset r.
Proof.
  unfold build_page_ranges. intros Hr.
  split; [apply length_build_page_ranges_from|].
  pose proof Hr as (e & He & Hp & Hs & Hend)%build_page_ranges_from_lookup.
  pose proof (total_words_nonneg (take i page_texts)).
  assert (0 ≤ page_words e) by (unfold page_words; lia).
  split; [exists e; repeat split; try done; unfold page_words in Hend; lia|].
  split; [intros ->; rewrite Hs; simpl; lia|]. split; [|lia].
  intros r' (e' & He' & _ & Hs' & _)%build_page_ranges_from_lookup.
  rewrite Hs', Hend, Hs.
  rewrite (take_S_r _ _ _ He).
  assert (∀ l1 l2, total_words (l1 ++ l2) = total_words l1 + total_words l2)
    as Happ.
  { induction l1; intros l2; simpl; [done|]. rewrite IHl1. lia. }
  rewrite Happ. simpl. lia.
Qed.

Lemma build_page_ranges_contiguous_witness :
  let page_texts := [ {| pt_page := Some 1; pt_text := Some "a b c" |};
                      {| pt_page := Some 2; pt_text := Some "" |};
                      {| pt_page := Some 3; pt_text := Some "d e" |} ] in
  let r := {| range_page := Some 2; range_start_offset := 3;
              range_end_offset := 3 |} in
  let r' := {| range_page := Some 3; range_start_offset := 3;
               range_end_offset := 5 |} in
  range_start_offset r' = range_end_offset r.
Proof.
  intros page_texts r r'.
  apply (build_page_ranges_contiguous page_texts 1 r); reflexivity.
Defined.

(** X2. Page lookup over built ranges: a word offset inside the text is
    given the page of the range that contains it; an offset outside (at or
    past the end, or negative) is given the page of the last range; and
    without ranges (absent or empty) there is no page. *)
Theorem find_page_of_built_ranges page_texts start_offset :
  (0 ≤ start_offset < total_words page_texts →
   ∃ (i : nat) r,
     build_page_ranges page_texts !! i = Some r
     ∧ range_start_offset r ≤ start_offset < range_end_offset r
     ∧ _find_page (Some (build_page_ranges page_texts)) start_offset
       = range_page r)
  ∧ (start_offset < 0 ∨ total_words page_texts ≤ start_offset →
     _find_page (Some (build_page_ranges page_texts)) start_offset
     = mjoin (range_page <$> last (build_page_ranges page_texts)))
  ∧ _find_page None start_offset = None
  ∧ _find_page (Some []) start_offset = None.
Proof.
  unfold build_page_ranges.
  destruct (scan_built_ranges 0 page_texts start_offset) as [Hin Hout].
  split; [|split; [|done]].
  - intros Hoff. destruct Hin as (i & r & Hr & Hrange & Hscan); [lia|].
    exists i, r. split; [done|]. split; [done|].
    unfold _find_page. rewrite Hscan.
    by destruct (build_page_ranges_from 0 page_texts).
  - intros Hoff. unfold _find_page. rewrite Hout by lia.
    by destruct (build_page_ranges_from 0 page_texts).
Qed.

Lemma find_page_of_built_ranges_witness :
  let page_texts := [ {| pt_page := Some 1; pt_text := Some "a b c" |};
                      {| pt_page := Some 2; pt_text := Some "d e" |} ] in
  (∃ (i : nat) r,
     build_page_ranges page_texts !! i = Some r
     ∧ range_start_offset r ≤ 3 < range_end_offset r
     ∧ _find_page (Some (build_page_ranges page_texts)) 3 = range_page r)
  ∧ _find_page (Some (build_page_ranges page_texts)) 9 = Some 2.
Proof.
  intros page_texts. split.
  - apply (find_page_of_built_ranges page_texts 3). vm_compute.
    split; [discriminate|reflexivity].
  - apply (proj1 (proj2 (find_page_of_built_ranges page_texts 9))).
    right. vm_compute. discriminate.
Defined.

End ChunkerRanges.

Section ChunkerWindows.
Import PyStr Chunker.

Lemma chunk_loop_bounds fuel words doc_id chunk_size step source page_ranges
      start index c :
  Forall is_word words → 0 ≤ chunk_size → 0 ≤ step → 0 ≤ start →
  c ∈ chunk_loop fuel words doc_id chunk_size step source page_ranges
                 start index →
  0 ≤ start_offset c < end_offset c
  ∧ end_offset c ≤ Z.of_nat (length words)
  ∧ end_offset c - start_offset c ≤ chunk_size
  ∧ split_words (Some (text c))
    = slice words (start_offset c) (end_offset c)
  ∧ Chunker.doc_id c = doc_id
  ∧ Chunker.source c = source
  ∧ page c = _find_page page_ranges (start_offset c).
Proof.
  intros Hwords Hsize Hstep. rewrite split_words_Some. revert start index.
  induction fuel as [|fuel IH]; intros start index Hstart; [by intros ?%elem_of_nil|].
  simpl. destruct (start <? _) eqn:Hlt; [|by intros ?%elem_of_nil].
  destruct (slice words start _) as [|w ws] eqn:Hs; [by intros ?%elem_of_nil|].
  intros [->|Hc]%elem_of_cons; [|apply IH in Hc; [done|lia]].
  cbn [text end_offset start_offset Chunker.doc_id Chunker.source page].
  apply Z.ltb_lt in Hlt.
  assert (length (slice words start ((start + chunk_size)
                                      `min` Z.of_nat (length words)))
          ≠ 0%nat) as Hne by by rewrite Hs.
  rewrite slice_length_spec in Hne. unfold slice_length, clamp_index in Hne.
  destruct (start <? 0) eqn:H1; [lia|].
  destruct (_ `min` _ <? 0) eqn:H2; [lia|].
  rewrite <- Hs, split_join by by apply slice_Forall.
  repeat split; try done; lia.
Qed.

(** X3. For a [chunk_size] that is not negative, every chunk lies inside
    the text, is not empty and has at most [chunk_size] words; the words
    of its text are the words of the document from [start_offset] to
    [end_offset]; and it carries the [doc_id] and the [source] that were
    passed, with the page found for its first word. *)
Theorem chunk_text_chunks_are_slices
        text doc_id chunk_size overlap source page_ranges c :
  0 ≤ chunk_size →
  c ∈ chunk_text text doc_id chunk_size overlap source page_ranges →
  0 ≤ start_offset c < end_offset c
  ∧ end_offset c ≤ Z.of_nat (length (split_words text))
  ∧ end_offset c - start_offset c ≤ chunk_size
  ∧ split_words (Some (Chunker.text c))
    = slice (split_words text) (start_offset c) (end_offset c)
  ∧ Chunker.doc_id c = doc_id
  ∧ Chunker.source c = source
  ∧ page c = _find_page page_ranges (start_offset c).
Proof.
  intros Hsize. unfold chunk_text.
  destruct (split_words text) as [|w ws] eqn:Hw; [by intros ?%elem_of_nil|].
  apply chunk_loop_bounds; try lia.
  rewrite <- Hw. apply split_words_are_words'.
Qed.

Lemma chunk_text_chunks_are_slices_witness :
  let c := {| doc_id := "doc"; chunk_index := 1; text := "c d e";
              start_offset := 2; end_offset := 5; source := Some "f.txt";
              page := None |} in
  split_words (Some (text c))
  = slice (split_words (Some "a b c d e")) (start_offset c) (end_offset c).
Proof.
  intros c.
  apply (chunk_text_chunks_are_slices
           (Some "a b c d e") "doc" 3 1 (Some "f.txt") None c); [lia|].
  vm_compute. apply list_elem_of_further, list_elem_of_here.
Defined.

Lemma chunk_loop_covers fuel words doc_id chunk_size step source page_ranges
      start index j :
  1 ≤ step → step ≤ chunk_size → 0 ≤ start →
  (Z.to_nat (Z.of_nat (length words) - start) ≤ fuel)%nat →
  start ≤ j < Z.of_nat (length words) →
  ∃ c, c ∈ chunk_loop fuel words doc_id chunk_size step source page_ranges
                      start index
       ∧ start_offset c ≤ j < end_offset c.
Proof.
  intros Hstep Hsize. revert start index.
  induction fuel as [|fuel IH]; intros start index Hstart Hfuel Hj; [lia|].
  simpl. rewrite (proj2 (Z.ltb_lt _ _)) by lia.
  destruct (slice words start _) as [|w ws] eqn:Hs.
  { apply (f_equal length) in Hs. rewrite slice_length_spec in Hs.
    unfold slice_length, clamp_index in Hs. simpl in Hs.
    destruct (start <? 0) eqn:H1; [lia|].
    destruct (_ `min` _ <? 0) eqn:H2; lia. }
  destruct (decide (j < (start + chunk_size) `min` Z.of_nat (length words)))
    as [Hin|Hout].
  - eexists. split; [apply list_elem_of_here|]. simpl. lia.
  - destruct (IH (start + step) (index + 1)) as (c & Hc & Hcj); [lia..|].
    exists c. split; [by apply list_elem_of_further|done].
Qed.

(** X4. When [0 <= overlap < chunk_size], the chunks leave no gap: every
    word of the text is in the range of some chunk. *)
Theorem chunk_text_covers_every_word
        text doc_id chunk_size overlap source page_ranges j :
  0 ≤ overlap < chunk_size →
  0 ≤ j < Z.of_nat (length (split_words text)) →
  ∃ c, c ∈ chunk_text text doc_id chunk_size overlap source page_ranges
       ∧ start_offset c ≤ j < end_offset c.
Proof.
  intros Hoverlap Hj. unfold chunk_text.
  destruct (split_words text) as [|w ws] eqn:Hw; [simpl in Hj; lia|].
  apply chunk_loop_covers; lia.
Qed.

Lemma chunk_text_covers_every_word_witness :
  ∃ c, c ∈ chunk_text (Some "a b c d e f g") "doc" 3 1 None None
       ∧ start_offset c ≤ 5 < end_offset c.
Proof.
  apply (chunk_text_covers_every_word
           (Some "a b c d e f g") "doc" 3 1 None None 5); [lia|].
  vm_compute. split; [discriminate|reflexivity].
Defined.

Lemma chunk_loop_length fuel words doc_id chunk_size step source page_ranges
      start index :
  1 ≤ step → 1 ≤ chunk_size → 0 ≤ start →
  (Z.to_nat (Z.of_nat (length words) - start) ≤ fuel)%nat →
  Z.of_nat (length (chunk_loop fuel words doc_id chunk_size step source
                               page_ranges start index))
  = Z.max 0 ((Z.of_nat (length words) - start + step - 1) / step).
Proof.
  intros Hstep Hsize. revert start index.
  induction fuel as [|fuel IH]; intros start index Hstart Hfuel.
  - simpl. assert (Z.of_nat (length words) - start ≤ 0) as Hle by lia.
    assert ((Z.of_nat (length words) - start + step - 1) / step ≤ 0); [|lia].
    apply Z.lt_succ_r, Z.div_lt_upper_bound; lia.
  - simpl. destruct (start <? _) eqn:Hlt.
    + apply Z.ltb_lt in Hlt.
      destruct (slice words start _) as [|w ws] eqn:Hs.
      { apply (f_equal length) in Hs. rewrite slice_length_spec in Hs.
        unfold slice_length, clamp_index in Hs. simpl in Hs.
        destruct (start <? 0) eqn:H1; [lia|].
        destruct (_ `min` _ <? 0) eqn:H2; lia. }
      cbn [length]. rewrite Nat2Z.inj_succ, IH by lia.
      replace (Z.of_nat (length words) - start + step - 1)
        with ((Z.of_nat (length words) - (start + step) + step - 1)
              + 1 * step) by lia.
      rewrite Z.div_add by lia.
      assert (0 ≤ (Z.of_nat (length words) - (start + step) + step - 1)
                  / step); [|lia].
      apply Z.div_pos; lia.
    + apply Z.ltb_ge in Hlt. simpl.
      assert ((Z.of_nat (length words) - start + step - 1) / step ≤ 0); [|lia].
      apply Z.lt_succ_r, Z.div_lt_upper_bound; lia.
Qed.

(** X5. For [chunk_size >= 1] the number of chunks is the number of
    words divided by the step, rounded up; so there are at most as many
    chunks as words, and the loop ends. *)
Theorem chunk_text_count text doc_id chunk_size overlap source page_ranges :
  1 ≤ chunk_size →
  let total := Z.of_nat (length (split_words text)) in
  let step := Z.max (chunk_size - overlap) 1 in
  Z.of_nat (length (chunk_text text doc_id chunk_size overlap source
                               page_ranges))
  = (total + step - 1) / step
  ∧ (length (chunk_text text doc_id chunk_size overlap source page_ranges)
     ≤ length (split_words text))%nat.
Proof.
  intros Hsize total step. subst total step. unfold chunk_text.
  destruct (split_words text) as [|w ws] eqn:Hw.
  { simpl. split; [|done]. symmetry. apply Z.div_small. lia. }
  pose proof (chunk_loop_length (length (w :: ws)) (w :: ws) doc_id chunk_size
                (Z.max (chunk_size - overlap) 1) source page_ranges 0 0
                ltac:(lia) Hsize ltac:(lia) ltac:(lia)) as Hlen.
  set (total := Z.of_nat (length (w :: ws))) in *.
  set (step := Z.max (chunk_size - overlap) 1) in *.
  assert (0 < total) by (subst total; simpl; lia).
  assert (1 ≤ step) by (subst step; lia).
  rewrite Z.sub_0_r in Hlen.
  assert (0 ≤ (total + step - 1) / step) by (apply Z.div_pos; lia).
  assert ((total + step - 1) / step ≤ total).
  { apply Z.lt_succ_r, Z.div_lt_upper_bound; [lia|]. nia. }
  split; [lia|]. apply Nat2Z.inj_le. fold total. lia.
Qed.

Lemma chunk_text_count_witness :
  Z.of_nat (length (chunk_text (Some (words_text 1200)) "doc" 500 50 None None))
  = 3
  ∧ (length (chunk_text (Some (words_text 1200)) "doc" 500 50 None None)
     ≤ 1200)%nat.
Proof.
  pose proof (chunk_text_count (Some (words_text 1200)) "doc" 500 50 None None
                ltac:(lia)) as H.
  vm_compute in H |- *. exact H.
Defined.

End ChunkerWindows.

(** ** The extractor *)

Section ExtractionFacts.
Import PyStr Chunker Extractor Extraction.

Lemma split_app_space a c b :
  isspace c = true → split (a +:+ String c b) = split a ++ split b.
Proof.
  intros Hc. induction a as [|x a IH].
  { rewrite append_empty_l. simpl. by rewrite Hc. }
  rewrite append_cons. simpl. destruct (isspace x) eqn:Hx; [done|].
  destruct a as [|y a].
  - rewrite append_empty_l. simpl. by rewrite Hc.
  - rewrite IH. rewrite append_cons.
    change (starts_word (String y (a +:+ String c b)))
      with (starts_word (String y a)).
    destruct (starts_word (String y a)) eqn:Hy; [|done].
    pose proof (starts_word_split _ Hy).
    by destruct (split (String y a)).
Qed.

Lemma split_join_concat ts :
  split (join " " ts) = concat (split <$> ts).
Proof.
  induction ts as [|t ts IH]; [done|].
  destruct ts as [|t' ts].
  { simpl. by rewrite app_nil_r. }
  rewrite join_cons2.
  change (" " +:+ join " " (t' :: ts)) with (String " " (join " " (t' :: ts))).
  rewrite split_app_space by done. by rewrite IH.
Qed.

Lemma split_clean_text t : split (clean_text (Some t)) = split t.
Proof.
  rewrite clean_text_words. apply split_join, split_words_are_words.
Qed.

Lemma clean_text_clean t :
  clean_text (Some (clean_text (Some t))) = clean_text (Some t).
Proof. by rewrite !clean_text_words, split_join by apply split_words_are_words. Qed.

Lemma pdf_page_text_clean page t :
  pdf_page_text page = Return t → clean_text (Some t) = t.
Proof.
  unfold pdf_page_text.
  destruct (clean_text (Some (or_empty _))) as [|c r] eqn:Ht.
  - destruct (rendered_ocr page); [|done]. intros [= <-]. apply clean_text_clean.
  - intros [= <-]. rewrite <- Ht. apply clean_text_clean.
Qed.

Lemma pdf_page_texts_Return idx pages page_texts :
  pdf_page_texts idx pages = Return page_texts →
  length page_texts = length pages
  ∧ Forall clean_segment page_texts
  ∧ pt_page <$> page_texts
    = (λ i : nat, Some (idx + Z.of_nat i)) <$> seq 0 (length page_texts).
Proof.
  revert idx page_texts.
  induction pages as [|page pages IH]; intros idx page_texts; simpl.
  { intros [= <-]. by repeat split. }
  destruct (pdf_page_text page) as [t|] eqn:Ht; [|done]. simpl.
  destruct (pdf_page_texts (idx + 1) pages) as [more|] eqn:Hmore; [|done].
  simpl. intros [= <-]. destruct (IH _ _ Hmore) as (Hlen & Hclean & Hnum).
  split; [simpl; by rewrite Hlen|]. split.
  - constructor; [|done]. exists t. split; [done|].
    by apply (pdf_page_text_clean page).
  - cbn [length seq fmap list_fmap pt_page]. f_equal; [f_equal; lia|].
    change (list_fmap _ _ pt_page more) with (pt_page <$> more).
    rewrite Hnum, <- fmap_S_seq, <- list_fmap_compose.
    apply list_fmap_ext. intros _ i _. simpl. f_equal. lia.
Qed.

Lemma segments_words page_texts :
  Forall clean_segment page_texts →
  concat (split <$> (segment_text <$> page_texts))
  = concat ((λ e, split_words (pt_text e)) <$> page_texts).
Proof.
  induction 1 as [|e rest (t & Ht & _) _ IH]; [done|].
  rewrite !fmap_cons. cbn [concat]. rewrite IH. f_equal.
  unfold segment_text. rewrite Ht, split_words_Some. done.
Qed.

Lemma total_words_concat page_texts :
  total_words page_texts
  = Z.of_nat (length (concat ((λ e, split_words (pt_text e)) <$> page_texts))).
Proof.
  induction page_texts as [|e rest IH]; [done|].
  rewrite fmap_cons. simpl. rewrite length_app, IH. unfold page_words. lia.
Qed.

Lemma single_page_invariants t :
  let '(full_text, page_texts) := single_page (clean_text (Some t)) in
  clean_text (Some full_text) = full_text
  ∧ Forall clean_segment page_texts
  ∧ pt_page <$> page_texts
    = (λ i : nat, Some (1 + Z.of_nat i)) <$> seq 0 (length page_texts)
  ∧ split_words (Some full_text)
    = concat ((λ e, split_words (pt_text e)) <$> page_texts).
Proof.
  simpl. split; [apply clean_text_clean|]. split.
  - repeat constructor. eexists. split; [done|]. apply clean_text_clean.
  - split; [done|]. by rewrite app_nil_r.
Qed.

(** What holds of every result of [extract_text]. *)
Lemma extract_text_invariants files file_path full_text page_texts :
  extract_text files file_path = Return (full_text, page_texts) →
  clean_text (Some full_text) = full_text
  ∧ Forall clean_segment page_texts
  ∧ pt_page <$> page_texts
    = (λ i : nat, Some (1 + Z.of_nat i)) <$> seq 0 (length page_texts)
  ∧ split_words (Some full_text)
    = concat ((λ e, split_words (pt_text e)) <$> page_texts).
Proof.
  unfold extract_text.
  destruct (detect_file_type file_path) as [ftype|]; [|done].
  cbn [bind_outcome].
  destruct (files file_path) as [f|]; [|done].
  destruct (String.eqb ftype "pdf").
  { unfold _extract_pdf. destruct (as_pdf f) as [pages|]; [|done].
    destruct (pdf_page_texts 1 pages) as [pts|] eqn:Hpts; [|done].
    cbn [bind_outcome]. intros Hr. injection Hr as <- <-.
    apply pdf_page_texts_Return in Hpts as (_ & Hclean & Hnum).
    split; [apply clean_text_clean|]. split; [done|]. split; [done|].
    rewrite split_words_Some.
    fold (clean_text (Some (join " " (segment_text <$> pts)))).
    rewrite split_clean_text, split_join_concat.
    by apply segments_words. }
  destruct (String.eqb ftype "docx").
  { unfold _extract_docx. destruct (as_docx f) as [paras|]; [|done].
    intros Hr. injection Hr as <- <-.
    apply (single_page_invariants (join " " (filter _ paras))). }
  destruct (String.eqb ftype "txt").
  { unfold _extract_txt. intros Hr. injection Hr as <- <-.
    apply (single_page_invariants (as_text f)). }
  destruct (String.eqb ftype "image"); [|done].
  unfold _extract_image. destruct (as_image f) as [read|]; [|done].
  intros Hr. injection Hr as <- <-. apply (single_page_invariants read).
Qed.

(** X6. Every result of [extract_text]: the full text and the text of
    each page segment are clean (cleaning them again changes nothing); the
    segments are numbered 1, 2, ... in order; and the words of the full
    text are the words of the segments, one segment after the other, so
    that the page ranges end at the number of words of the full text. *)
Theorem extract_text_consistent files file_path full_text page_texts :
  extract_text files file_path = Return (full_text, page_texts) →
  clean_text (Some full_text) = full_text
  ∧ Forall clean_segment page_texts
  ∧ pt_page <$> page_texts
    = (λ i : nat, Some (1 + Z.of_nat i)) <$> seq 0 (length page_texts)
  ∧ split_words (Some full_text)
    = concat ((λ e, split_words (pt_text e)) <$> page_texts)
  ∧ total_words page_texts
    = Z.of_nat (length (split_words (Some full_text))).
Proof.
  intros (Hclean & Hsegs & Hnum & Hwords)%extract_text_invariants.
  repeat split; try done. by rewrite total_words_concat, Hwords.
Qed.

Lemma extract_text_consistent_witness :
  let full_text := "Page one text scanned page" in
  clean_text (Some full_text) = full_text
  ∧ Forall clean_segment Examples.sample_page_texts
  ∧ pt_page <$> Examples.sample_page_texts = [Some 1; Some 2]
  ∧ split_words (Some full_text)
    = ["Page"; "one"; "text"; "scanned"; "page"]
  ∧ total_words Examples.sample_page_texts = 5.
Proof.
  apply (extract_text_consistent Examples.sample_files "in/report.pdf"
           "Page one text scanned page" Examples.sample_page_texts).
  vm_compute. reflexivity.
Defined.

Lemma clean_text_or_empty t :
  clean_text (Some (or_empty t)) = clean_text t.
Proof. by destruct t as [[|c r]|]. Qed.

Lemma seq_numbering_lookup (page_texts : list PageText) (i : nat) e :
  pt_page <$> page_texts
  = (λ i : nat, Some (1 + Z.of_nat i)) <$> seq 0 (length page_texts) →
  page_texts !! i = Some e →
  pt_page e = Some (1 + Z.of_nat i).
Proof.
  intros Hnum He.
  assert ((pt_page <$> page_texts) !! i = Some (pt_page e)) as Hi
    by by rewrite list_lookup_fmap, He.
  rewrite Hnum, list_lookup_fmap in Hi.
  rewrite lookup_seq_lt in Hi by by eapply lookup_lt_Some.
  by injection Hi as <-.
Qed.

(** X7. Chunks cut from an extracted text with the page ranges of its
    segments: the first word of every chunk lies in the range of a page,
    and the chunk carries the number of that page (never no page, never
    the last page for want of a range). *)
Theorem extracted_chunks_have_their_page
        files file_path full_text page_texts
        doc_id chunk_size overlap source c :
  extract_text files file_path = Return (full_text, page_texts) →
  0 ≤ chunk_size →
  c ∈ chunk_text (Some full_text) doc_id chunk_size overlap source
                 (Some (build_page_ranges page_texts)) →
  ∃ (i : nat) r,
    build_page_ranges page_texts !! i = Some r
    ∧ range_start_offset r ≤ start_offset c < range_end_offset r
    ∧ page c = Some (1 + Z.of_nat i)
    ∧ (i < length page_texts)%nat.
Proof.
  intros (_ & _ & Hnum & Hwords)%extract_text_invariants Hsize Hc.
  assert (0 ≤ start_offset c < total_words page_texts
          ∧ page c = _find_page (Some (build_page_ranges page_texts))
                                (start_offset c)) as [Hstart Hpage].
  { rewrite total_words_concat, <- Hwords. revert Hc. unfold chunk_text.
    destruct (split_words (Some full_text)) as [|w ws] eqn:Hw;
      [by intros ?%elem_of_nil|].
    intros Hc. apply chunk_loop_bounds in Hc; [|by rewrite <- Hw;
      apply split_words_are_words'|lia..].
    split; [lia|]. apply Hc. }
  destruct (scan_built_ranges 0 page_texts (start_offset c))
    as [Hin _].
  destruct Hin as (i & r & Hr & Hrange & Hscan); [lia|].
  exists i, r. split; [done|]. split; [done|].
  pose proof Hr as (e & He & Hp & _)%build_page_ranges_from_lookup.
  split; [|by eapply lookup_lt_Some].
  rewrite Hpage. unfold _find_page, build_page_ranges. rewrite Hscan, Hp.
  rewrite (seq_numbering_lookup _ _ _ Hnum He).
  by destruct (build_page_ranges_from 0 page_texts).
Qed.

Lemma extracted_chunks_have_their_page_witness :
  let c := {| doc_id := "doc"; chunk_index := 1; text := "text scanned page";
              start_offset := 2; end_offset := 5;
              source := Some "report.pdf"; page := Some 1 |} in
  ∃ (i : nat) r,
    build_page_ranges Examples.sample_page_texts !! i = Some r
    ∧ range_start_offset r ≤ start_offset c < range_end_offset r
    ∧ page c = Some (1 + Z.of_nat i)
    ∧ (i < length Examples.sample_page_texts)%nat.
Proof.
  intros c.
  apply (extracted_chunks_have_their_page
           Examples.sample_files "in/report.pdf"
           "Page one text scanned page" Examples.sample_page_texts
           "doc" 3 1 (Some "report.pdf") c).
  - vm_compute. reflexivity.
  - lia.
  - vm_compute. apply list_elem_of_further, list_elem_of_here.
Defined.

Lemma pdf_page_texts_structural idx pages :
  Forall (λ p, clean_text (structural_text p) ≠ EmptyString) pages →
  ∃ page_texts,
    pdf_page_texts idx pages = Return page_texts
    ∧ segment_text <$> page_texts
      = (λ p, clean_text (structural_text p)) <$> pages.
Proof.
  intros Hall. revert idx.
  induction Hall as [|p pages Hp _ IH]; intros idx; [by exists []|].
  cbn [pdf_page_texts]. unfold pdf_page_text. rewrite clean_text_or_empty.
  destruct (clean_text (structural_text p)) as [|c r] eqn:Ht; [done|].
  cbn [bind_outcome]. destruct (IH (idx + 1)) as (more & -> & Hmore).
  cbn [bind_outcome].
  eexists. split; [done|]. rewrite !fmap_cons, Hmore. by rewrite Ht.
Qed.

Lemma pdf_page_texts_ocr_fails idx pages p :
  p ∈ pages →
  clean_text (structural_text p) = EmptyString →
  rendered_ocr p = None →
  ∃ e, pdf_page_texts idx pages = Raise e.
Proof.
  intros Hp Hempty Hocr. revert idx.
  induction pages as [|q pages IH]; intros idx; [by apply elem_of_nil in Hp|].
  cbn [pdf_page_texts]. apply elem_of_cons in Hp as [<-|Hp].
  - unfold pdf_page_text. rewrite clean_text_or_empty, Hempty, Hocr.
    by eexists.
  - destruct (pdf_page_text q); [|by eexists]. cbn [bind_outcome].
    destruct (IH Hp (idx + 1)) as [e ->]. by eexists.
Qed.

(** X8. OCR is needed only for the pages of a PDF that have no text of
    their own: when every page has some, extraction returns the cleaned
    page texts whether the OCR reader works or not; and a page without
    text on which the OCR reader raises makes the extraction raise. *)
Theorem pdf_extraction_and_ocr files file_path f pages :
  detect_file_type file_path = Return "pdf" →
  files file_path = Some f →
  as_pdf f = Some pages →
  (Forall (λ p, clean_text (structural_text p) ≠ EmptyString) pages →
   ∃ full_text page_texts,
     extract_text files file_path = Return (full_text, page_texts)
     ∧ segment_text <$> page_texts
       = (λ p, clean_text (structural_text p)) <$> pages)
  ∧ (∀ p, p ∈ pages →
          clean_text (structural_text p) = EmptyString →
          rendered_ocr p = None →
          ∃ e, extract_text files file_path = Raise e).
Proof.
  intros Htype Hfile Hpdf. unfold extract_text, _extract_pdf.
  rewrite Htype, Hfile. cbn [bind_outcome]. rewrite Hpdf.
  change (String.eqb "pdf" "pdf") with true. cbn match. split.
  - intros Hall.
    destruct (pdf_page_texts_structural 1 pages Hall) as (pts & -> & Hpts).
    by eexists _, _.
  - intros p Hp Hempty Hocr.
    destruct (pdf_page_texts_ocr_fails 1 pages p Hp Hempty Hocr) as [e ->].
    by eexists.
Qed.

Lemma pdf_extraction_and_ocr_witness :
  ∃ e, extract_text
         (λ _, Some {| as_pdf := Some [ {| structural_text := Some "  ";
                                           rendered_ocr := None |} ];
                       as_docx := None; as_text := ""; as_image := None |})
         "scan.PDF" = Raise e.
Proof.
  apply (proj2 (pdf_extraction_and_ocr
                  (λ _, Some {| as_pdf := Some [ {| structural_text := Some "  ";
                                                    rendered_ocr := None |} ];
                                as_docx := None; as_text := "";
                                as_image := None |})
                  "scan.PDF" _ _ eq_refl eq_refl eq_refl)
               {| structural_text := Some "  "; rendered_ocr := None |}).
  - apply list_elem_of_here.
  - reflexivity.
  - reflexivity.
Defined.

End ExtractionFacts.

(** ** Names of chunk files *)

Section DecimalFacts.
Import PyStr Ingest.

Lemma parse_digits_uint_acc d acc :
  parse_digits (Z.pos acc) true (NilEmpty.string_of_uint d)
  = Some (Z.pos (Pos.of_uint_acc d acc)).
Proof.
  revert acc. induction d; intros acc; [done|..];
    cbn [NilEmpty.string_of_uint parse_digits Pos.of_uint_acc];
    (match goal with
     | |- context [digit_value ?c] =>
         let v := eval vm_compute in (digit_value c) in
         change (digit_value c) with v
     end);
    cbv iota; rewrite <- IHd; f_equal; lia.
Qed.

Lemma parse_digits_uint d b :
  d ≠ Decimal.Nil ∨ b = true →
  parse_digits 0 b (NilEmpty.string_of_uint d) = Some (Z.of_N (Pos.of_uint d)).
Proof.
  revert b. induction d; intros b Hb;
    [by destruct Hb as [? | ->]|
     cbn [NilEmpty.string_of_uint parse_digits Pos.of_uint];
     change (digit_value "0") with (Some 0); cbv iota;
     apply IHd; by right|..];
    cbn [NilEmpty.string_of_uint parse_digits Pos.of_uint];
    (match goal with
     | |- context [digit_value ?c] =>
         let v := eval vm_compute in (digit_value c) in
         change (digit_value c) with v
     end);
    cbv iota; apply (parse_digits_uint_acc d).
Qed.

Lemma string_of_uint_digits d :
  digits_only (NilEmpty.string_of_uint d) = true.
Proof. induction d; simpl; by rewrite ?IHd. Qed.

Lemma is_digit_cases c :
  is_digit c = true →
  int_space c = false
  ∧ c ≠ "-"%char ∧ c ≠ "+"%char ∧ c ≠ "_"%char ∧ c ≠ "."%char.
Proof.
  destruct c as [[] [] [] [] [] [] [] []]; try discriminate;
    intros _; repeat split; discriminate.
Qed.

Lemma digits_no_char x s :
  is_digit x = false → digits_only s = true → no_char x s = true.
Proof.
  intros Hx. induction s as [|c r IH]; [done|]. simpl.
  intros [Hc Hr]%andb_prop. rewrite IH by done.
  rewrite bool_decide_eq_false_2; [done|]. intros ->. congruence.
Qed.

Lemma int_rstrip_digits s : digits_only s = true → int_rstrip s = s.
Proof.
  induction s as [|c r IH]; [done|]. simpl.
  intros [Hc Hr]%andb_prop. rewrite IH by done.
  destruct r; [|done]. by destruct (is_digit_cases c Hc) as [-> _].
Qed.

Lemma int_of_str_digits s :
  digits_only s = true → s ≠ EmptyString →
  int_of_str s = parse_digits 0 false s.
Proof.
  intros Hs Hne. unfold int_of_str.
  destruct s as [|c r]; [done|].
  pose proof Hs as [Hc Hr]%andb_prop. fold digits_only in Hr.
  destruct (is_digit_cases c Hc) as (Hspace & Hminus & Hplus & _).
  cbn [int_lstrip]. rewrite Hspace, int_rstrip_digits by done.
  destruct c as [[] [] [] [] [] [] [] []]; done.
Qed.

Lemma int_of_str_uint d :
  d ≠ Decimal.Nil →
  int_of_str (NilEmpty.string_of_uint d) = Some (Z.of_N (Pos.of_uint d)).
Proof.
  intros Hd. rewrite int_of_str_digits.
  - apply parse_digits_uint. by left.
  - apply string_of_uint_digits.
  - by destruct d.
Qed.

(** Writing an integer in decimal and reading it back with [int] gives
    the integer. *)
Lemma int_of_str_of_int n : int_of_str (str_of_int n) = Some n.
Proof.
  unfold str_of_int. destruct n as [|p|p]; [done|..]; simpl.
  - rewrite int_of_str_uint by apply Unsigned.to_uint_nonnil.
    by rewrite Unsigned.of_to.
  - pose proof (Unsigned.to_uint_nonnil p) as Hnil.
    pose proof (string_of_uint_digits (Pos.to_uint p)) as Hdigits.
    unfold int_of_str. cbn [int_lstrip].
    change (int_space "-") with false. cbv iota.
    cbn [int_rstrip]. rewrite int_rstrip_digits by done.
    destruct (NilEmpty.string_of_uint (Pos.to_uint p)) as [|c r] eqn:Hs.
    { by destruct (Pos.to_uint p). }
    rewrite <- Hs, parse_digits_uint by by left.
    by rewrite Unsigned.of_to.
Qed.

Lemma str_of_int_digits n :
  0 ≤ n → digits_only (str_of_int n) = true ∧ str_of_int n ≠ EmptyString.
Proof.
  intros Hn. unfold str_of_int. destruct n as [|p|p]; [done| |lia]. simpl.
  split; [apply string_of_uint_digits|].
  pose proof (Unsigned.to_uint_nonnil p). by destruct (Pos.to_uint p).
Qed.

Lemma rfind_dot_none s : no_char "." s = true → rfind_dot s = None.
Proof.
  induction s as [|c r IH]; [done|]. simpl.
  intros [Hc Hr]%andb_prop. rewrite IH by done.
  apply negb_true_iff, bool_decide_eq_false in Hc. by case_decide.
Qed.

Lemma rfind_dot_app a b :
  no_char "." b = true →
  rfind_dot (a +:+ String "." b) = Some (String.length a).
Proof.
  intros Hb. induction a as [|c a IH].
  - rewrite append_empty_l. simpl. by rewrite rfind_dot_none.
  - rewrite append_cons. simpl. by rewrite IH.
Qed.

Lemma take_chars_app a b : take_chars (String.length a) (a +:+ b) = a.
Proof.
  induction a as [|c a IH]; [by destruct b|].
  rewrite append_cons. simpl. by rewrite IH.
Qed.

Lemma length_append a b :
  String.length (a +:+ b) = (String.length a + String.length b)%nat.
Proof.
  induction a as [|c a IH]; [done|]. rewrite append_cons. simpl. by rewrite IH.
Qed.

Lemma split_on_no_sep sep s : no_char sep s = true → split_on sep s = [s].
Proof.
  induction s as [|c r IH]; [done|]. simpl.
  intros [Hc Hr]%andb_prop. rewrite IH by done.
  apply negb_true_iff, bool_decide_eq_false in Hc. by case_decide.
Qed.

Lemma endswith_app a b : endswith (a +:+ b) b = true.
Proof.
  induction a as [|c a IH].
  - rewrite append_empty_l. destruct b as [|x b]; [done|].
    cbn [endswith]. by rewrite String.eqb_refl.
  - rewrite append_cons. cbn [endswith]. rewrite IH.
    by destruct (String.eqb _ _).
Qed.

Lemma append_assoc a b c : (a +:+ b) +:+ c = a +:+ (b +:+ c).
Proof.
  induction a as [|x a IH]; [done|]. by rewrite !append_cons, IH.
Qed.

Lemma name_stem_chunk ds :
  no_char "." ds = true →
  name_stem ("chunk_" +:+ ds +:+ ".json") = "chunk_" +:+ ds.
Proof.
  intros Hds. unfold name_stem, suffix_cut.
  change ("chunk_" +:+ ds +:+ ".json")
    with (("chunk_" +:+ ds) +:+ String "." "json") at 1 2.
  rewrite <- (append_assoc "chunk_" ds ".json").
  change (("chunk_" +:+ ds) +:+ ".json")
    with (("chunk_" +:+ ds) +:+ String "." "json").
  rewrite rfind_dot_app by done.
  rewrite !length_append.
  replace (0 <? String.length "chunk_" + String.length ds)%nat with true
    by (symmetry; apply Nat.ltb_lt; simpl; lia).
  replace (String.length "chunk_" + String.length ds
           <? String.length "chunk_" + String.length ds
              + String.length (String "." "json") - 1)%nat with true
    by (symmetry; apply Nat.ltb_lt; simpl; lia).
  simpl andb. cbv iota.
  rewrite <- length_append. apply take_chars_app.
Qed.

(** A name that [save_chunk] gives is one that [load_chunks] looks for,
    and its sort key is the chunk index. *)
Lemma chunk_file_name_recognised i :
  0 ≤ i →
  Indexer.glob_chunk_json (chunk_file_name i) = true
  ∧ Indexer.sort_key (chunk_file_name i) = Return i.
Proof.
  intros Hi. destruct (str_of_int_digits i Hi) as [Hdigits Hne].
  unfold chunk_file_name. split.
  - unfold Indexer.glob_chunk_json.
    change (drop_chars 6 ("chunk_" +:+ str_of_int i +:+ ".json"))
      with (str_of_int i +:+ ".json").
    rewrite endswith_app. unfold startswith.
    change ("chunk_" +:+ str_of_int i +:+ ".json")
      with (String "c" (String "h" (String "u" (String "n" (String "k"
              (String "_" (str_of_int i +:+ ".json"))))))).
    simpl. by destruct (_ +:+ _).
  - unfold Indexer.sort_key.
    rewrite name_stem_chunk by by apply digits_no_char.
    change ("chunk_" +:+ str_of_int i)
      with (String "c" (String "h" (String "u" (String "n" (String "k"
              (String "_" (str_of_int i))))))).
    cbn [split_on]. rewrite split_on_no_sep by by apply digits_no_char.
    repeat case_decide; try done. simpl.
    by rewrite int_of_str_of_int.
Qed.

Lemma chunk_file_name_inj i j :
  0 ≤ i → 0 ≤ j → chunk_file_name i = chunk_file_name j → i = j.
Proof.
  intros Hi Hj Heq.
  destruct (chunk_file_name_recognised i Hi) as [_ Hki].
  destruct (chunk_file_name_recognised j Hj) as [_ Hkj].
  rewrite Heq in Hki. congruence.
Qed.

(** X9. The name under which [save_chunk] writes the chunk of index
    [i >= 0] is one that [load_chunks] takes: it matches the pattern
    [chunk_*.json], the number that the sort of [load_chunks] reads in it
    is [i], and two indices give two names. *)
Theorem saved_chunk_names_are_recognised i j :
  0 ≤ i → 0 ≤ j →
  Indexer.glob_chunk_json (chunk_file_name i) = true
  ∧ Indexer.sort_key (chunk_file_name i) = Return i
  ∧ (chunk_file_name i = chunk_file_name j → i = j).
Proof.
  intros Hi Hj. destruct (chunk_file_name_recognised i Hi) as [Hglob Hkey].
  split; [done|]. split; [done|]. by apply chunk_file_name_inj.
Qed.

Lemma saved_chunk_names_are_recognised_witness :
  Indexer.glob_chunk_json (chunk_file_name 12) = true
  ∧ Indexer.sort_key (chunk_file_name 12) = Return 12
  ∧ (chunk_file_name 12 = chunk_file_name 7 → 12 = 7).
Proof.
  apply (saved_chunk_names_are_recognised 12 7); lia.
Defined.

(** An identifier of [generate_doc_id] is one path component. *)
Lemma hex_no_slash s : hex_only s = true → no_char "/" s = true.
Proof.
  induction s as [|c r IH]; [done|]. simpl.
  intros [Hc Hr]%andb_prop. rewrite IH by done.
  rewrite bool_decide_eq_false_2; [done|]. by intros ->.
Qed.

Lemma generated_doc_id_parts s : generated_doc_id s → path_parts s = [s].
Proof.
  intros [Hlen Hhex]. unfold path_parts.
  rewrite (split_on_no_sep _ _ (hex_no_slash s Hhex)).
  rewrite filter_cons_True; [done|].
  split; intros ->; discriminate Hlen.
Qed.

End DecimalFacts.

(** ** The chunk store under writes *)

Section TreeFacts.
Import PyStr Indexer Ingest.
Context `{K : Float32Kernel}.

Lemma lookup_entry_cons name n (c : node) entries :
  lookup_entry name ((n, c) :: entries)
  = if decide (n = name) then Some c else lookup_entry name entries.
Proof.
  unfold lookup_entry. cbn [list_find]. simpl fst.
  destruct (decide (n = name)); [done|].
  by destruct (list_find _ entries) as [[i [n' c']]|].
Qed.

Lemma set_entry_cons name f n (c : node) entries :
  set_entry name f ((n, c) :: entries)
  = if decide (n = name) then (name, f (Some c)) :: entries
    else (n, c) :: set_entry name f entries.
Proof.
  unfold set_entry. cbn [list_find]. simpl fst.
  destruct (decide (n = name)); [done|].
  by destruct (list_find _ entries) as [[i [n' c']]|].
Qed.

Lemma set_entry_nil name f : set_entry name f [] = [(name, f None)].
Proof. done. Qed.

Lemma lookup_set_entry name f entries :
  lookup_entry name (set_entry name f entries)
  = Some (f (lookup_entry name entries)).
Proof.
  induction entries as [|[n c] entries IH].
  { rewrite set_entry_nil, lookup_entry_cons. by case_decide. }
  rewrite set_entry_cons, lookup_entry_cons.
  destruct (decide (n = name)) as [->|Hne].
  - rewrite lookup_entry_cons. by case_decide.
  - rewrite lookup_entry_cons. by case_decide.
Qed.

Lemma lookup_set_entry_ne name name' f entries :
  name' ≠ name →
  lookup_entry name' (set_entry name f entries) = lookup_entry name' entries.
Proof.
  intros Hne. induction entries as [|[n c] entries IH].
  { rewrite set_entry_nil, lookup_entry_cons. by case_decide. }
  rewrite set_entry_cons, (lookup_entry_cons name' n).
  destruct (decide (n = name)) as [->|Hn].
  - rewrite lookup_entry_cons. repeat case_decide; congruence.
  - rewrite lookup_entry_cons. by rewrite IH.
Qed.

Lemma set_entry_set_entry name f g entries :
  set_entry name g (set_entry name f entries)
  = set_entry name (λ o, g (Some (f o))) entries.
Proof.
  induction entries as [|[n c] entries IH].
  { rewrite !set_entry_nil, set_entry_cons. by case_decide. }
  rewrite !set_entry_cons. destruct (decide (n = name)) as [->|Hn].
  - rewrite set_entry_cons. by case_decide.
  - rewrite set_entry_cons. case_decide; [done|]. by rewrite IH.
Qed.

Lemma set_entry_fresh name f entries :
  lookup_entry name entries = None →
  set_entry name f entries = entries ++ [(name, f None)].
Proof.
  unfold set_entry, lookup_entry.
  by destruct (list_find _ entries) as [[i [n' c']]|].
Qed.

Lemma lookup_entry_app name entries more :
  lookup_entry name (entries ++ more)
  = match lookup_entry name entries with
    | Some child => Some child
    | None => lookup_entry name more
    end.
Proof.
  induction entries as [|[n c] entries IH]; [done|].
  rewrite <- app_comm_cons, !lookup_entry_cons. by case_decide.
Qed.

Lemma set_entry_last name f entries (c : node) :
  lookup_entry name entries = None →
  set_entry name f (entries ++ [(name, c)]) = entries ++ [(name, f (Some c))].
Proof.
  induction entries as [|[n c'] entries IH]; intros Hnone.
  { simpl. rewrite set_entry_cons. by case_decide. }
  rewrite lookup_entry_cons in Hnone.
  rewrite <- !app_comm_cons, set_entry_cons.
  destruct (decide (n = name)); [done|]. by rewrite IH.
Qed.

Lemma lookup_entry_elem name (entries : list (string * node)) :
  name ∈ fst <$> entries → is_Some (lookup_entry name entries).
Proof.
  induction entries as [|[n c] entries IH]; [by intros ?%elem_of_nil|].
  rewrite fmap_cons, lookup_entry_cons. simpl.
  intros [->|Hin]%elem_of_cons; case_decide; by eauto.
Qed.

Lemma lookup_entry_not_elem name (entries : list (string * node)) :
  name ∉ fst <$> entries → lookup_entry name entries = None.
Proof.
  induction entries as [|[n c] entries IH]; [done|].
  rewrite fmap_cons, lookup_entry_cons. simpl.
  intros [Hne Hnot]%not_elem_of_cons. case_decide; [congruence|by apply IH].
Qed.

Lemma graft_cons name rest new entries :
  graft (name :: rest) new (Dir entries)
  = Dir (set_entry name (λ o, graft rest new (default (Dir []) o)) entries).
Proof.
  cbn [graft]. unfold set_entry.
  by destruct (list_find _ entries) as [[i [n' c']]|].
Qed.

Lemma write_file_graft path c fs : write_file path c fs = graft path (File c) fs.
Proof.
  revert fs. induction path as [|name rest IH]; intros fs; [done|].
  destruct fs as [c'|entries]; [done|]. cbn [write_file graft].
  destruct (list_find _ entries) as [[i [n' child]]|]; by rewrite IH.
Qed.

Lemma resolve_cons fs name rest :
  resolve fs (name :: rest)
  = match fs with
    | Dir entries => lookup_entry name entries ≫= λ child, resolve child rest
    | File _ => None
    end.
Proof. destruct fs as [c|entries]; [done|]. simpl. by destruct (lookup_entry _ _). Qed.

Lemma resolve_app fs p q :
  resolve fs (p ++ q) = resolve fs p ≫= λ sub, resolve sub q.
Proof.
  revert fs. induction p as [|name rest IH]; intros fs; [done|].
  rewrite <- app_comm_cons, !resolve_cons. destruct fs as [c|entries]; [done|].
  destruct (lookup_entry name entries) as [child|]; [|done]. simpl. apply IH.
Qed.

Lemma resolve_empty_dir p :
  default (Dir []) (resolve (Dir []) p) = Dir [].
Proof. by destruct p. Qed.

(** The subtree at a prefix of a grafted path. *)
Lemma resolve_graft_prefix p r new fs :
  writable (p ++ r) fs →
  resolve (graft (p ++ r) new fs) p
  = Some (graft r new (default (Dir []) (resolve fs p))).
Proof.
  revert fs. induction p as [|name rest IH]; intros fs Hw; [done|].
  rewrite <- app_comm_cons in *. destruct fs as [c|entries]; [done|].
  rewrite graft_cons, !resolve_cons, lookup_set_entry. simpl.
  cbn [writable] in Hw.
  destruct (lookup_entry name entries) as [child|]; simpl.
  - by apply IH.
  - rewrite IH; [by rewrite resolve_empty_dir|]. by destruct (rest ++ r).
Qed.

Lemma resolve_graft path new fs :
  writable path fs → resolve (graft path new fs) path = Some new.
Proof.
  intros Hw. pose proof (resolve_graft_prefix path [] new fs) as H.
  rewrite app_nil_r in H. by apply H.
Qed.

(** A path that leaves the grafted path at some component sees no
    change. *)
Lemma resolve_graft_diverge l a b p' q' new fs :
  a ≠ b →
  resolve (graft (l ++ a :: p') new fs) (l ++ b :: q')
  = resolve fs (l ++ b :: q').
Proof.
  intros Hab. revert fs. induction l as [|c l IH]; intros fs.
  - simpl app. destruct fs as [c|entries]; [done|].
    rewrite graft_cons, !resolve_cons.
    by rewrite lookup_set_entry_ne by done.
  - rewrite <- !app_comm_cons. destruct fs as [c'|entries]; [done|].
    rewrite graft_cons, !resolve_cons, lookup_set_entry. simpl.
    destruct (lookup_entry c entries) as [child|]; simpl; [apply IH|].
    rewrite IH. by destruct l.
Qed.

Lemma graft_id p fs n :
  resolve fs p = Some n → graft p n fs = fs.
Proof.
  revert fs. induction p as [|name rest IH]; intros fs; [by intros [= ->]|].
  rewrite resolve_cons. destruct fs as [c|entries]; [done|].
  rewrite graft_cons. intros Hr. f_equal.
  induction entries as [|[m c] entries IHe]; [done|].
  rewrite lookup_entry_cons in Hr. rewrite set_entry_cons.
  destruct (decide (m = name)) as [->|Hne].
  - simpl in Hr. simpl. by rewrite (IH _ Hr).
  - by rewrite IHe.
Qed.

Lemma writable_app_missing p q fs :
  resolve fs p = None → writable p fs → writable (p ++ q) fs.
Proof.
  revert fs. induction p as [|name rest IH]; intros fs; [done|].
  rewrite <- app_comm_cons, resolve_cons. destruct fs as [c|entries]; [done|].
  cbn [writable]. destruct (lookup_entry name entries) as [child|]; [|done].
  simpl. apply IH.
Qed.

Lemma writable_under_dir p q fs entries :
  resolve fs p = Some (Dir entries) →
  writable q (Dir entries) → writable (p ++ q) fs.
Proof.
  revert fs. induction p as [|name rest IH]; intros fs; [by intros [= ->]|].
  rewrite <- app_comm_cons, resolve_cons. destruct fs as [c|ents]; [done|].
  cbn [writable]. destruct (lookup_entry name ents) as [child|]; [|done].
  simpl. apply IH.
Qed.

(** Making the directories of a path grafts an empty directory where
    there is none, and changes nothing where there is one. *)
Lemma make_dirs_graft p x fs :
  writable (p ++ [x]) fs →
  make_dirs p fs = Some (graft p (default (Dir []) (resolve fs p)) fs)
  ∧ ∃ entries, default (Dir []) (resolve fs p) = Dir entries.
Proof.
  revert fs. induction p as [|name rest IH]; intros fs Hw.
  { destruct fs as [c|entries]; [done|]. split; [done|]. by eexists. }
  rewrite <- app_comm_cons in Hw. destruct fs as [c|entries]; [done|].
  cbn [writable] in Hw. rewrite graft_cons, resolve_cons.
  cbn [make_dirs]. unfold set_entry, lookup_entry in *.
  destruct (list_find _ entries) as [[i [n' child]]|] eqn:Hfind; simpl.
  - destruct (IH child Hw) as [-> Hdir]. split; [|done].
    by destruct Hdir as [ents ->].
  - destruct (IH (Dir []) ltac:(by destruct (rest ++ [x]))) as [-> Hdir].
    rewrite resolve_empty_dir in *. done.
Qed.

Lemma graft_graft p name new fs entries :
  default (Dir []) (resolve fs p) = Dir entries →
  graft (p ++ [name]) new (graft p (Dir entries) fs)
  = graft (p ++ [name]) new fs.
Proof.
  revert fs. induction p as [|a rest IH]; intros fs Hd.
  { simpl in Hd. by subst fs. }
  rewrite <- app_comm_cons. destruct fs as [c|ents]; [done|].
  rewrite resolve_cons in Hd.
  rewrite !graft_cons, set_entry_set_entry. f_equal.
  induction ents as [|[m c] ents IHe].
  - rewrite !set_entry_nil. do 2 f_equal. simpl. apply IH.
    simpl in Hd. by rewrite resolve_empty_dir.
  - rewrite lookup_entry_cons in Hd. rewrite !set_entry_cons.
    destruct (decide (m = a)) as [->|Hne].
    + do 2 f_equal. simpl. by apply IH.
    + f_equal. by apply IHe.
Qed.

Lemma writable_prefix p q fs : writable (p ++ q) fs → writable p fs.
Proof.
  revert fs. induction p as [|name rest IH]; intros fs; [done|].
  rewrite <- app_comm_cons. destruct fs as [c|entries]; [done|].
  cbn [writable]. destruct (lookup_entry name entries); [apply IH|done].
Qed.

(** When no file is in the way and the target is no directory,
    [save_chunk] grafts the file and returns its path. *)
Lemma save_chunk_graft doc_id i data fs :
  let target :=
    (["storage"; "chunks"] ++ path_parts doc_id) ++ [chunk_file_name i] in
  writable target fs →
  (∀ entries, resolve fs target ≠ Some (Dir entries)) →
  save_chunk doc_id i data fs
  = (graft target (File (JsonObject data)) fs, Return target).
Proof.
  intros target Hw Hnodir. subst target.
  set (dir := ["storage"; "chunks"] ++ path_parts doc_id) in *.
  unfold save_chunk. fold dir. unfold fs_bind at 1, ensure_folder.
  destruct (make_dirs_graft dir (chunk_file_name i) fs Hw)
    as [-> [entries Hentries]].
  rewrite Hentries. unfold fs_bind at 1, fs_open_write.
  rewrite removelast_last, last_snoc.
  rewrite resolve_graft by by eapply writable_prefix.
  assert (∀ child, lookup_entry (chunk_file_name i) entries = Some child →
                   ∃ c, child = File c) as Hfile.
  { intros child Hchild. rewrite resolve_app in Hnodir.
    destruct (resolve fs dir) as [n|] eqn:Hdir; simpl in Hentries.
    - subst n. simpl in Hnodir. rewrite Hchild in Hnodir. simpl in Hnodir.
      destruct child as [c|ents]; [by eexists|]. by destruct (Hnodir ents).
    - injection Hentries as <-. done. }
  rewrite write_file_graft, graft_graft by done.
  destruct (lookup_entry (chunk_file_name i) entries) as [child|] eqn:Hchild;
    [|done].
  by destruct (Hfile child eq_refl) as [c ->].
Qed.

Lemma make_dirs_not_writable p x fs :
  ¬ writable (p ++ [x]) fs → make_dirs p fs = None.
Proof.
  revert fs. induction p as [|name rest IH]; intros fs Hw.
  { destruct fs as [c|entries]; [done|]. destruct Hw. simpl.
    by destruct (lookup_entry x entries). }
  rewrite <- app_comm_cons in Hw. destruct fs as [c|entries]; [done|].
  cbn [writable] in Hw. cbn [make_dirs]. unfold lookup_entry in Hw.
  destruct (list_find _ entries) as [[i [n' child]]|]; [|done].
  by rewrite (IH child Hw).
Qed.

(** X10. [save_chunk] for a [doc_id] that is a relative path without
    [".."], when no file is in the way of [storage/chunks/<doc_id>] and
    the target is no directory: it returns the path
    [storage/chunks/<doc_id>/chunk_<index>.json], the file at this path
    then holds the record, and every path of plain names that leaves this
    one at some component resolves as before. When a file is in the way,
    it raises and the file system is as it was. *)
Theorem save_chunk_writes_the_record doc_id i data fs :
  stays_below doc_id →
  let target :=
    (["storage"; "chunks"] ++ path_parts doc_id) ++ [chunk_file_name i] in
  (writable target fs →
   (∀ entries, resolve fs target ≠ Some (Dir entries)) →
   ∃ fs',
     save_chunk doc_id i data fs = (fs', Return target)
     ∧ resolve fs' target = Some (File (JsonObject data))
     ∧ ∀ l a b p' q',
         target = l ++ a :: p' → a ≠ b →
         Forall plain_name (b :: q') →
         resolve fs' (l ++ b :: q') = resolve fs (l ++ b :: q'))
  ∧ (¬ writable target fs →
     ∃ e, save_chunk doc_id i data fs = (fs, Raise e)).
Proof.
  intros _ target. split.
  - intros Hw Hnodir. eexists. split; [by apply save_chunk_graft|].
    fold target. split; [by apply resolve_graft|].
    intros l a b p' q' -> Hab _. by apply resolve_graft_diverge.
  - intros Hw. unfold save_chunk, fs_bind, ensure_folder.
    rewrite (make_dirs_not_writable _ _ _ Hw). by eexists.
Qed.

Lemma lookup_chunk_files_other name idx chunks :
  (∀ j, idx ≤ j → name ≠ chunk_file_name j) →
  lookup_entry name (chunk_files idx chunks) = None.
Proof.
  revert idx. induction chunks as [|c chunks IH]; intros idx Hname; [done|].
  cbn [chunk_files]. rewrite lookup_entry_cons.
  case_decide as Heq; [by destruct (Hname idx ltac:(lia))|].
  apply IH. intros j Hj. apply Hname. lia.
Qed.

Lemma graft_file_in_folder doc name new E F :
  lookup_entry doc E = None →
  lookup_entry name F = None →
  graft [doc; name] new (Dir (E ++ [(doc, Dir F)]))
  = Dir (E ++ [(doc, Dir (F ++ [(name, new)]))]).
Proof.
  intros HE HF. rewrite graft_cons, set_entry_last by done.
  simpl default. by rewrite graft_cons, set_entry_fresh.
Qed.

(** Saving the chunks of a document whose folder is there: the files are
    added to the folder, in order. *)
Lemma save_chunks_run doc chunks idx fs E F :
  path_parts doc = [doc] →
  0 ≤ idx →
  resolve fs ["storage"; "chunks"] = Some (Dir (E ++ [(doc, Dir F)])) →
  lookup_entry doc E = None →
  (∀ j, idx ≤ j → lookup_entry (chunk_file_name j) F = None) →
  ∃ fs',
    save_chunks doc idx chunks fs = (fs', Return ())
    ∧ resolve fs' ["storage"; "chunks"]
      = Some (Dir (E ++ [(doc, Dir (F ++ chunk_files idx chunks))])).
Proof.
  intros Hdoc. revert idx fs F.
  induction chunks as [|c chunks IH]; intros idx fs F Hidx Hfs HE HF.
  { exists fs. split; [done|]. by rewrite app_nil_r. }
  cbn [save_chunks chunk_files]. unfold fs_bind.
  assert (resolve fs (["storage"; "chunks"] ++ [doc]) = Some (Dir F)) as Hdir.
  { rewrite resolve_app, Hfs. simpl. rewrite lookup_entry_app, HE.
    rewrite lookup_entry_cons. by case_decide. }
  assert (lookup_entry (chunk_file_name idx) F = None) as Hidx_fresh
    by (apply HF; lia).
  assert (writable ((["storage"; "chunks"] ++ [doc]) ++ [chunk_file_name idx])
                   fs) as Hw.
  { apply (writable_under_dir (["storage"; "chunks"] ++ [doc]) _ _ F Hdir).
    simpl. by rewrite Hidx_fresh. }
  rewrite save_chunk_graft; rewrite Hdoc; [|done|].
  2:{ intros entries. rewrite resolve_app, Hdir. simpl.
      by rewrite Hidx_fresh. }
  set (data := File (JsonObject (chunk_to_dict c))).
  set (fs1 := graft _ data fs).
  assert (resolve fs1 ["storage"; "chunks"]
          = Some (Dir (E ++ [(doc, Dir (F ++ [(chunk_file_name idx, data)]))])))
    as Hfs1.
  { unfold fs1.
    change ((["storage"; "chunks"] ++ [doc]) ++ [chunk_file_name idx])
      with (["storage"; "chunks"] ++ [doc; chunk_file_name idx]) in *.
    rewrite resolve_graft_prefix by done.
    rewrite Hfs. simpl default. by rewrite graft_file_in_folder. }
  assert (∀ j, idx + 1 ≤ j →
            lookup_entry (chunk_file_name j)
                         (F ++ [(chunk_file_name idx, data)]) = None) as HF'.
  { intros j Hj. rewrite lookup_entry_app, HF by lia.
    rewrite lookup_entry_cons. case_decide as Heq; [|done].
    exfalso. apply chunk_file_name_inj in Heq; lia. }
  destruct (IH (idx + 1) fs1 _ ltac:(lia) Hfs1 HE HF') as (fs' & Hrun & Hres).
  exists fs'. split; [exact Hrun|]. by rewrite Hres, <- app_assoc.
Qed.

(** Saving the chunks of a new document: its folder is added at the end
    of the chunks directory, with the files in order. *)
Lemma save_chunks_fresh doc c chunks fs :
  path_parts doc = [doc] →
  writable ["storage"; "chunks"; doc] fs →
  resolve fs ["storage"; "chunks"; doc] = None →
  ∃ fs' E,
    default (Dir []) (resolve fs ["storage"; "chunks"]) = Dir E
    ∧ lookup_entry doc E = None
    ∧ save_chunks doc 0 (c :: chunks) fs = (fs', Return ())
    ∧ resolve fs' ["storage"; "chunks"]
      = Some (Dir (E ++ [(doc, Dir (chunk_files 0 (c :: chunks)))])).
Proof.
  intros Hdoc Hw Hnew.
  destruct (make_dirs_graft ["storage"; "chunks"] doc fs Hw) as [_ [E HE]].
  assert (lookup_entry doc E = None) as Hfresh.
  { change ["storage"; "chunks"; doc] with (["storage"; "chunks"] ++ [doc])
      in Hnew. rewrite resolve_app in Hnew.
    destruct (resolve fs ["storage"; "chunks"]) as [n|]; simpl in HE.
    - subst n. simpl in Hnew. by destruct (lookup_entry doc E).
    - by injection HE as <-. }
  assert (writable (["storage"; "chunks"; doc] ++ [chunk_file_name 0]) fs)
    as Hw' by by apply writable_app_missing.
  cbn [save_chunks]. unfold fs_bind.
  rewrite save_chunk_graft; rewrite Hdoc; [|done|].
  2:{ intros entries.
      change ((["storage"; "chunks"] ++ [doc]) ++ [chunk_file_name 0])
        with (["storage"; "chunks"; doc] ++ [chunk_file_name 0]).
      by rewrite resolve_app, Hnew. }
  set (fs1 := graft _ _ fs).
  assert (resolve fs1 ["storage"; "chunks"]
          = Some (Dir (E ++ [(doc, Dir (chunk_files 0 [c]))]))) as Hfs1.
  { unfold fs1.
    change ((["storage"; "chunks"] ++ [doc]) ++ [chunk_file_name 0])
      with (["storage"; "chunks"] ++ [doc; chunk_file_name 0]).
    rewrite resolve_graft_prefix by done. rewrite HE.
    rewrite graft_cons, set_entry_fresh by done. simpl default.
    by rewrite graft_cons, set_entry_nil. }
  assert (∀ j, 1 ≤ j →
            lookup_entry (chunk_file_name j) (chunk_files 0 [c]) = None)
    as HF'.
  { intros j Hj. cbn [chunk_files]. rewrite lookup_entry_cons.
    case_decide as Heq; [|done].
    exfalso. apply chunk_file_name_inj in Heq; lia. }
  destruct (save_chunks_run doc chunks 1 fs1 E _ Hdoc ltac:(lia) Hfs1 Hfresh HF')
    as (fs' & Hrun & Hres).
  exists fs', E. by repeat split.
Qed.

(** *** From the chunk files of [ingest.py] to the records of
    [load_chunks] *)

Lemma all_chunks_app fs cp a b :
  all_chunks fs cp (a ++ b)
  = bind_outcome (all_chunks fs cp a) (λ l,
      bind_outcome (all_chunks fs cp b) (λ r, Return (l ++ r))).
Proof.
  induction a as [|doc a IH].
  { simpl. by destruct (all_chunks fs cp b). }
  rewrite <- app_comm_cons. cbn [all_chunks]. rewrite IH.
  destruct (doc_chunks fs cp doc) as [l|]; [|done]. simpl.
  destruct (all_chunks fs cp a) as [la|]; [|done]. simpl.
  destruct (all_chunks fs cp b) as [lb|]; [|done]. simpl.
  by rewrite app_assoc.
Qed.

(** The records of a folder depend on what is below the folder only. *)
Lemma doc_chunks_ext fs fs' cp doc :
  (∀ q, resolve fs' (cp ++ doc :: q) = resolve fs (cp ++ doc :: q)) →
  doc_chunks fs' cp doc = doc_chunks fs cp doc.
Proof.
  intros Hsame. unfold doc_chunks. rewrite (Hsame []).
  destruct (resolve fs (cp ++ [doc])) as [[c|folder]|]; [done| |done].
  destruct (sorted_chunk_files (globbed_names folder)) as [files|]; [|done].
  cbn [bind_outcome]. f_equal. unfold folder_chunks.
  assert (∀ f, chunk_from fs' doc (cp ++ [doc; f])
               = chunk_from fs doc (cp ++ [doc; f])) as Hfrom.
  { intros f. unfold chunk_from. by rewrite (Hsame [f]). }
  induction files as [|f files IH]; [done|].
  cbn [omap list_omap]. by rewrite Hfrom, IH.
Qed.

Lemma all_chunks_ext fs fs' cp folders :
  (∀ doc q, doc ∈ folders →
            resolve fs' (cp ++ doc :: q) = resolve fs (cp ++ doc :: q)) →
  all_chunks fs' cp folders = all_chunks fs cp folders.
Proof.
  induction folders as [|doc folders IH]; intros Hsame; [done|].
  cbn [all_chunks]. rewrite (doc_chunks_ext fs fs').
  - rewrite IH; [done|]. intros d q Hd. apply Hsame. by right.
  - intros q. apply Hsame. by left.
Qed.

Lemma insert_by_key_least c l :
  Forall (λ p : Z * string, c.1 ≤ p.1) l → insert_by_key c l = c :: l.
Proof.
  destruct 1 as [|c' l Hc' _]; [done|]. simpl.
  by rewrite (proj2 (Z.ltb_ge _ _)).
Qed.

Lemma globbed_names_chunk_files idx chunks :
  0 ≤ idx →
  globbed_names (chunk_files idx chunks) = fst <$> chunk_files idx chunks.
Proof.
  unfold globbed_names. revert idx.
  induction chunks as [|c chunks IH]; intros idx Hidx; [done|].
  cbn [chunk_files]. rewrite fmap_cons. simpl fst.
  destruct (chunk_file_name_recognised idx Hidx) as [Hglob _].
  rewrite filter_cons_True by done. f_equal. apply IH. lia.
Qed.

(** The files that [save_chunks] writes are already in the order of
    their numbers: the sort leaves them as they are. *)
Lemma sorted_chunk_files_chunk_files idx chunks :
  0 ≤ idx →
  sorted_chunk_files (fst <$> chunk_files idx chunks)
  = Return (fst <$> chunk_files idx chunks).
Proof.
  intros Hidx. unfold sorted_chunk_files.
  assert (∃ ks, keyed (fst <$> chunk_files idx chunks) = Return ks
                ∧ snd <$> ks = fst <$> chunk_files idx chunks
                ∧ Forall (λ p : Z * string, idx ≤ p.1) ks
                ∧ foldr insert_by_key [] ks = ks) as (ks & -> & <- & _ & Hs).
  { revert idx Hidx. induction chunks as [|c chunks IH]; intros idx Hidx.
    { exists []. by repeat split. }
    destruct (IH (idx + 1) ltac:(lia)) as (ks & Hks & Hnames & Hleast & Hs).
    destruct (chunk_file_name_recognised idx Hidx) as [_ Hkey].
    exists ((idx, chunk_file_name idx) :: ks).
    cbn [chunk_files]. rewrite !fmap_cons. simpl fst. cbn [keyed].
    rewrite Hkey, Hks. split; [done|]. split; [by rewrite <- Hnames|].
    assert (Forall (λ p : Z * string, idx ≤ p.1) ks) as Hidx_least.
    { eapply Forall_impl; [exact Hleast|]. simpl. lia. }
    split; [by constructor|].
    cbn [foldr]. rewrite Hs. by apply insert_by_key_least. }
  simpl. by rewrite Hs.
Qed.

Lemma lookup_chunk_files idx chunks (i : nat) c :
  0 ≤ idx →
  chunks !! i = Some c →
  lookup_entry (chunk_file_name (idx + Z.of_nat i)) (chunk_files idx chunks)
  = Some (File (JsonObject (chunk_to_dict c))).
Proof.
  revert idx i. induction chunks as [|c' chunks IH]; intros idx i Hidx Hc;
    [done|].
  cbn [chunk_files]. rewrite lookup_entry_cons. destruct i as [|i].
  - injection Hc as ->. rewrite Z.add_0_r. by case_decide.
  - case_decide as Heq; [apply chunk_file_name_inj in Heq; lia|].
    replace (idx + Z.of_nat (S i)) with ((idx + 1) + Z.of_nat i) by lia.
    apply IH; [lia|done].
Qed.

Lemma chunk_to_dict_index c :
  chunk_to_dict c !! "chunk_index" = Some (PInt (Chunker.chunk_index c)).
Proof. unfold chunk_to_dict. by simplify_map_eq. Qed.

Lemma chunk_from_folder fs cp doc F name c :
  resolve fs (cp ++ [doc]) = Some (Dir F) →
  lookup_entry name F = Some (File (JsonObject (chunk_to_dict c))) →
  chunk_from fs doc (cp ++ [doc; name]) = Some (with_chunk_id doc c).
Proof.
  intros Hdir Hname. unfold chunk_from.
  change (cp ++ [doc; name]) with (cp ++ [doc] ++ [name]).
  rewrite app_assoc, resolve_app, Hdir. simpl. rewrite Hname.
  by rewrite chunk_to_dict_index.
Qed.

Lemma folder_chunks_saved fs cp doc idx chunks F :
  resolve fs (cp ++ [doc]) = Some (Dir F) →
  (∀ (i : nat) c,
     chunks !! i = Some c →
     lookup_entry (chunk_file_name (idx + Z.of_nat i)) F
     = Some (File (JsonObject (chunk_to_dict c)))) →
  folder_chunks fs cp doc (fst <$> chunk_files idx chunks)
  = with_chunk_id doc <$> chunks.
Proof.
  intros Hdir. unfold folder_chunks. revert idx.
  induction chunks as [|c chunks IH]; intros idx HF; [done|].
  cbn [chunk_files]. rewrite !fmap_cons. simpl fst. cbn [omap list_omap].
  rewrite (chunk_from_folder fs cp doc F _ c Hdir).
  - f_equal. apply IH. intros i c' Hc'.
    replace (idx + 1 + Z.of_nat i) with (idx + Z.of_nat (S i)) by lia.
    by apply HF.
  - specialize (HF 0%nat c eq_refl). by rewrite Z.add_0_r in HF.
Qed.

(** *** The order of enumeration *)

Lemma all_chunks_perm fs cp names names' l :
  names ≡ₚ names' →
  all_chunks fs cp names = Return l →
  ∃ l', all_chunks fs cp names' = Return l' ∧ l ≡ₚ l'.
Proof.
  intros Hp. revert l.
  induction Hp as [|x n n' Hp IH|x y n|n n' n'' Hp1 IH1 Hp2 IH2]; intros l.
  - intros [= <-]. by exists [].
  - cbn [all_chunks]. destruct (doc_chunks fs cp x) as [b|]; [|done].
    cbn [bind_outcome].
    destruct (all_chunks fs cp n) as [r|] eqn:Hr; [|done].
    cbn [bind_outcome]. intros [= <-].
    destruct (IH r eq_refl) as (r' & -> & Hperm).
    exists (b ++ r'). split; [done|]. by rewrite Hperm.
  - cbn [all_chunks].
    destruct (doc_chunks fs cp y) as [b|]; [|done]. cbn [bind_outcome].
    destruct (doc_chunks fs cp x) as [b'|]; [|done]. cbn [bind_outcome].
    destruct (all_chunks fs cp n) as [r|]; [|done]. cbn [bind_outcome].
    intros [= <-]. eexists. split; [done|].
    rewrite !app_assoc. f_equiv. apply Permutation_app_comm.
  - intros Hl. destruct (IH1 l Hl) as (l1 & Hl1 & Hperm1).
    destruct (IH2 l1 Hl1) as (l2 & Hl2 & Hperm2).
    exists l2. split; [done|]. by etrans.
Qed.

Lemma all_chunks_app_Return fs cp a b l :
  all_chunks fs cp (a ++ b) = Return l →
  ∃ la lb, all_chunks fs cp a = Return la
           ∧ all_chunks fs cp b = Return lb ∧ l = la ++ lb.
Proof.
  rewrite all_chunks_app.
  destruct (all_chunks fs cp a) as [la|]; [|done]. cbn [bind_outcome].
  destruct (all_chunks fs cp b) as [lb|]; [|done]. cbn [bind_outcome].
  intros [= <-]. by exists la, lb.
Qed.

Lemma lookup_entry_Some_elem name (c : node) es :
  NoDup (fst <$> es) → lookup_entry name es = Some c ↔ (name, c) ∈ es.
Proof.
  induction es as [|[m c'] es IH]; intros Hnodup.
  { split; [done|by intros ?%elem_of_nil]. }
  rewrite fmap_cons in Hnodup. apply NoDup_cons in Hnodup as [Hm Hnodup].
  simpl in Hm. rewrite lookup_entry_cons, elem_of_cons.
  case_decide as Heq.
  - subst m. split; [intros [= ->]; by left|].
    intros [[= ->]|Hin]; [done|]. destruct Hm.
    apply list_elem_of_fmap. by exists (name, c).
  - rewrite (IH Hnodup). split; [by right|].
    intros [[= -> ->]|Hin]; [done|done].
Qed.

Lemma lookup_entry_None_elem name (es : list (string * node)) :
  lookup_entry name es = None ↔ name ∉ fst <$> es.
Proof.
  split; [|apply lookup_entry_not_elem].
  intros Hnone Hin. apply lookup_entry_elem in Hin as [c Hc]. congruence.
Qed.

(** With no name listed twice, what a name denotes does not depend on
    the order of enumeration. *)
Lemma lookup_entry_perm name (es es' : list (string * node)) :
  NoDup (fst <$> es) → es' ≡ₚ es →
  lookup_entry name es' = lookup_entry name es.
Proof.
  intros Hnodup Hperm.
  assert (NoDup (fst <$> es')) as Hnodup' by by rewrite Hperm.
  destruct (lookup_entry name es) as [c|] eqn:Hc.
  - apply lookup_entry_Some_elem; [done|]. rewrite Hperm.
    by apply lookup_entry_Some_elem.
  - apply lookup_entry_None_elem. rewrite Hperm.
    by apply lookup_entry_None_elem.
Qed.

Lemma chunk_files_names idx chunks name :
  name ∈ fst <$> chunk_files idx chunks →
  ∃ j, idx ≤ j ∧ name = chunk_file_name j.
Proof.
  revert idx. induction chunks as [|c chunks IH]; intros idx;
    [by intros ?%elem_of_nil|].
  cbn [chunk_files]. rewrite fmap_cons. simpl fst.
  intros [->|Hin]%elem_of_cons; [exists idx; split; [lia|done]|].
  destruct (IH _ Hin) as (j & Hj & ->). exists j. split; [lia|done].
Qed.

Lemma chunk_files_NoDup idx chunks :
  0 ≤ idx → NoDup (fst <$> chunk_files idx chunks).
Proof.
  revert idx. induction chunks as [|c chunks IH]; intros idx Hidx;
    [constructor|].
  cbn [chunk_files]. rewrite fmap_cons. simpl fst.
  constructor; [|apply IH; lia].
  intros (j & Hj & Heq)%chunk_files_names.
  apply chunk_file_name_inj in Heq; lia.
Qed.

(** Two lists with the same elements, both in an order that is
    antisymmetric on these elements, are equal. *)
Lemma sorted_perm_eq {A} (R : A → A → Prop) (l1 l2 : list A) :
  (∀ a b, a ∈ l1 → b ∈ l1 → R a b → R b a → a = b) →
  StronglySorted R l1 → StronglySorted R l2 → l1 ≡ₚ l2 → l1 = l2.
Proof.
  revert l2. induction l1 as [|a l1 IH]; intros l2 Hanti Hs1 Hs2 Hperm.
  { by apply Permutation_nil in Hperm. }
  destruct l2 as [|b l2]; [by apply Permutation_sym, Permutation_nil in Hperm|].
  apply StronglySorted_inv in Hs1 as [Hs1 Ha].
  apply StronglySorted_inv in Hs2 as [Hs2 Hb].
  assert (a = b) as <-.
  { assert (a ∈ b :: l2) as [->|Ha2]%elem_of_cons
        by (rewrite <- Hperm; by left); [done|].
    assert (b ∈ a :: l1) as [->|Hb1]%elem_of_cons
        by (rewrite Hperm; by left); [done|].
    apply Hanti; [by left|by right| |].
    - by apply (proj1 (Forall_forall _ _) Ha).
    - by apply (proj1 (Forall_forall _ _) Hb). }
  f_equal. apply IH; [|done|done|by apply Permutation_cons_inv in Hperm].
  intros x y Hx Hy. apply Hanti; by right.
Qed.

(** The files that [save_chunks] writes for a document, enumerated in
    any order, are sorted into the order of their numbers. *)
Lemma sorted_chunk_files_relisted idx chunks names :
  0 ≤ idx →
  names ≡ₚ fst <$> chunk_files idx chunks →
  sorted_chunk_files names = Return (fst <$> chunk_files idx chunks).
Proof.
  intros Hidx Hperm.
  assert (∀ n, n ∈ names → ∃ j, 0 ≤ j ∧ n = chunk_file_name j) as Hnames.
  { intros n Hn. rewrite Hperm in Hn.
    apply chunk_files_names in Hn as (j & Hj & ->).
    exists j. split; [lia|done]. }
  destruct (keyed_returns names) as [ks Hks].
  { intros n (j & Hj & ->)%Hnames. exists j.
    by apply chunk_file_name_recognised. }
  destruct (sorted_chunk_files names) as [files|e] eqn:Hfiles;
    [|by unfold sorted_chunk_files in Hfiles; rewrite Hks in Hfiles].
  apply sorted_chunk_files_spec in Hfiles as [Hfperm Hfsorted].
  pose proof (sorted_chunk_files_chunk_files idx chunks Hidx) as Htarget.
  apply sorted_chunk_files_spec in Htarget as [_ Htsorted].
  f_equal. apply (sorted_perm_eq numbered_before); [|done|done|by etrans].
  intros a b Ha Hb (x & y & Hx & Hy & Hxy) (y' & x' & Hy' & Hx' & Hyx).
  rewrite Hfperm in Ha, Hb.
  apply Hnames in Ha as (i & Hi & ->). apply Hnames in Hb as (j & Hj & ->).
  destruct (chunk_file_name_recognised i Hi) as [_ Hki].
  destruct (chunk_file_name_recognised j Hj) as [_ Hkj].
  f_equal. congruence || (rewrite Hki in Hx, Hx'; rewrite Hkj in Hy, Hy';
                          simplify_eq; lia).
Qed.

Lemma globbed_names_perm (folder folder' : list (string * node)) :
  folder' ≡ₚ folder → globbed_names folder' ≡ₚ globbed_names folder.
Proof. intros Hperm. unfold globbed_names. by rewrite Hperm. Qed.

(** The records that [load_chunks] takes from the folder of a saved
    document, whatever the order in which the folder lists its files. *)
Lemma doc_chunks_saved fs cp doc chunks folder :
  resolve fs (cp ++ [doc]) = Some (Dir folder) →
  folder ≡ₚ chunk_files 0 chunks →
  doc_chunks fs cp doc = Return (with_chunk_id doc <$> chunks).
Proof.
  intros Hfolder Hperm. unfold doc_chunks. rewrite Hfolder.
  rewrite (sorted_chunk_files_relisted 0 chunks); [|lia|].
  - cbn [bind_outcome]. f_equal.
    apply (folder_chunks_saved fs cp doc 0 chunks folder Hfolder).
    intros i c Hc.
    rewrite (lookup_entry_perm _ (chunk_files 0 chunks));
      [by apply lookup_chunk_files|by apply chunk_files_NoDup|done].
  - rewrite (globbed_names_perm _ _ Hperm).
    by rewrite globbed_names_chunk_files.
Qed.

(** What [save_chunks] leaves: the chunks directory as it was, with the
    folder of the document after the entries it had. *)
Lemma save_chunks_store doc chunks fs :
  path_parts doc = [doc] →
  writable ["storage"; "chunks"; doc] fs →
  resolve fs ["storage"; "chunks"; doc] = None →
  ∃ fs' E,
    default (Dir []) (resolve fs ["storage"; "chunks"]) = Dir E
    ∧ lookup_entry doc E = None
    ∧ save_chunks doc 0 chunks fs = (fs', Return ())
    ∧ match chunks with
      | [] => fs' = fs
      | _ :: _ =>
          resolve fs' ["storage"; "chunks"]
          = Some (Dir (E ++ saved_folder doc chunks))
      end.
Proof.
  intros Hdoc Hw Hnew. destruct chunks as [|c chunks].
  - destruct (make_dirs_graft ["storage"; "chunks"] doc fs Hw) as [_ [E HE]].
    exists fs, E. split; [done|]. split; [|done].
    change ["storage"; "chunks"; doc] with (["storage"; "chunks"] ++ [doc])
      in Hnew. rewrite resolve_app in Hnew.
    destruct (resolve fs ["storage"; "chunks"]) as [n|]; simpl in HE.
    + subst n. simpl in Hnew. by destruct (lookup_entry doc E).
    + by injection HE as <-.
  - destruct (save_chunks_fresh doc c chunks fs Hdoc Hw Hnew)
      as (fs' & E & HE & Hfresh & Hrun & Hres).
    by exists fs', E.
Qed.

(** [load_chunks] on a chunk store that lists, in any order, the entries
    [E] that gave the records [old] and the folder of a saved document:
    the records of the document, in the order of the chunks, among the
    records [old]. *)
Lemma load_chunks_relisted doc chunks fs old E fs' es' :
  all_chunks fs ["storage"; "chunks"] (fst <$> E) = Return old →
  (∀ d q, d ∈ fst <$> E →
          resolve fs (["storage"; "chunks"] ++ d :: q)
          = lookup_entry d E ≫= λ n, resolve n q) →
  NoDup (fst <$> E) →
  lookup_entry doc E = None →
  resolve fs' ["storage"; "chunks"] = Some (Dir es') →
  relisted doc (E ++ saved_folder doc chunks) es' →
  ∃ before after,
    load_chunks "./storage/chunks" fs'
    = (fs', Return (before ++ (with_chunk_id doc <$> chunks) ++ after))
    ∧ before ++ after ≡ₚ old.
Proof.
  intros Hold HE Hnodup Hfresh Hes' (Hnames & Hothers & Hdoc).
  set (cp := ["storage"; "chunks"]) in *.
  assert (path_parts "./storage/chunks" = cp) as Hcp by done.
  rewrite (load_chunks_run fs' _ _ (eq_trans (f_equal (resolve fs') Hcp) Hes')).
  rewrite Hcp.
  assert (doc ∉ fst <$> E) as Hdoc_new by by apply lookup_entry_None_elem.
  assert (∀ names, names ⊆ fst <$> E →
                   all_chunks fs' cp names = all_chunks fs cp names) as Hext.
  { intros names Hsub. apply all_chunks_ext. intros d q Hd.
    apply Hsub in Hd. rewrite (HE d q Hd), resolve_app, Hes'. simpl.
    rewrite Hothers by (intros ->; done).
    rewrite lookup_entry_app.
    apply lookup_entry_elem in Hd as [child ->]. done. }
  destruct chunks as [|c chunks].
  - simpl in Hnames. rewrite app_nil_r in Hnames.
    destruct (all_chunks_perm fs cp _ _ old (symmetry Hnames) Hold)
      as (l' & Hl' & Hperm).
    exists l', []. rewrite fmap_nil, !app_nil_r.
    rewrite Hext by (by rewrite Hnames). by rewrite Hl'.
  - set (all := c :: chunks) in *.
    assert (saved_folder doc all = [(doc, Dir (chunk_files 0 all))]) as Hsaved
      by done.
    rewrite Hsaved in *. rewrite fmap_app in Hnames.
    change (fst <$> [(doc, Dir (chunk_files 0 all))]) with [doc] in Hnames.
    rewrite lookup_entry_app, Hfresh, lookup_entry_cons in Hdoc.
    rewrite decide_True in Hdoc by done.
    destruct Hdoc as (folder' & Hfolder' & Hperm').
    assert (doc ∈ fst <$> es') as (A & B & HAB)%list_elem_of_split.
    { rewrite Hnames. apply elem_of_app. right. by left. }
    rewrite HAB in Hnames |- *.
    assert (A ++ B ≡ₚ fst <$> E) as HABperm.
    { apply (Permutation_cons_inv (a := doc)).
      rewrite Permutation_middle, Hnames. apply Permutation_app_comm. }
    destruct (all_chunks_perm fs cp _ _ old (symmetry HABperm) Hold)
      as (l' & Hl' & Hperm).
    destruct (all_chunks_app_Return fs cp A B l' Hl')
      as (before & after & Hbefore & Hafter & ->).
    exists before, after. split; [|by symmetry].
    rewrite all_chunks_app. cbn [all_chunks].
    rewrite !Hext, Hbefore, Hafter.
    + rewrite (doc_chunks_saved fs' cp doc all folder'); [done| |done].
      rewrite resolve_app, Hes'. simpl. by rewrite Hfolder'.
    + intros d Hd. rewrite <- HABperm. apply elem_of_app. by right.
    + intros d Hd. rewrite <- HABperm. apply elem_of_app. by left.
Qed.

End TreeFacts.

(** ** From ingestion to the index *)

Section PipelineFacts.
Import PyStr Indexer Ingest.
Context `{K : Float32Kernel}.

Lemma relisted_refl doc (es : list (string * node)) : relisted doc es es.
Proof.
  split; [done|]. split; [done|].
  destruct (lookup_entry doc es) as [[c|folder]|]; [done| |done].
  by exists folder.
Qed.

(** X11. [main] of [ingest.py], run with a new identifier of
    [generate_doc_id] on a chunk store that [load_chunks] reads without
    error (no file being in the place of [storage] or [storage/chunks],
    and the chunks directory listing no name twice): when the input file
    is missing or its extraction raises, nothing is written; otherwise
    the chunk of index [i] is written to
    [storage/chunks/<doc_id>/chunk_<i>.json] and the summary counts the
    chunks. Whatever the order in which the chunks directory and the
    folder of the document then enumerate their entries, [load_chunks]
    returns the chunks of the document in one block, in the order of the
    chunks, the chunk of index [i] with the [chunk_id]
    [<doc_id>_chunk_<i>]; the records around this block are the records
    that [load_chunks] returned before, in some order. *)
Theorem ingest_then_load files doc_id file_path fs old :
  generated_doc_id doc_id →
  writable ["storage"; "chunks"; doc_id] fs →
  resolve fs ["storage"; "chunks"; doc_id] = None →
  (∀ E, resolve fs ["storage"; "chunks"] = Some (Dir E) →
        NoDup (fst <$> E)) →
  load_chunks "./storage/chunks" fs = (fs, Return old) →
  match files file_path with
  | None => ingest_main files doc_id file_path fs = (fs, Return FileNotFound)
  | Some _ =>
      match Extraction.extract_text files file_path with
      | Raise exc =>
          ingest_main files doc_id file_path fs
          = (fs, Return (ExtractionFailed exc))
      | Return (full_text, page_texts) =>
          let chunks :=
            Chunker.chunk_text
              (Some full_text) doc_id 500 50 (Some (path_name file_path))
              (Some (Chunker.build_page_ranges page_texts)) in
          ∃ fs' s,
            ingest_main files doc_id file_path fs
            = (fs', Return (Ingested s))
            ∧ summary_doc_id s = doc_id
            ∧ summary_chunks s = Z.of_nat (length chunks)
            ∧ (∀ (i : nat) c,
                 chunks !! i = Some c →
                 resolve fs' ["storage"; "chunks"; doc_id;
                              chunk_file_name (Z.of_nat i)]
                 = Some (File (JsonObject (chunk_to_dict c)))
                 ∧ with_chunk_id doc_id c !! "chunk_id"
                   = Some (PStr (doc_id +:+ "_chunk_"
                                 +:+ str_of_int (Z.of_nat i))))
            ∧ (∀ fs'' es' es'',
                 resolve fs' ["storage"; "chunks"] = Some (Dir es') →
                 resolve fs'' ["storage"; "chunks"] = Some (Dir es'') →
                 relisted doc_id es' es'' →
                 ∃ before after,
                   load_chunks "./storage/chunks" fs''
                   = (fs'', Return (before
                                    ++ (with_chunk_id doc_id <$> chunks)
                                    ++ after))
                   ∧ before ++ after ≡ₚ old)
      end
  end.
Proof.
  intros Hid Hw Hnew Hnodup Hold. unfold ingest_main.
  destruct (files file_path) as [f|]; [|done].
  destruct (Extraction.extract_text files file_path)
    as [[full_text page_texts]|exc]; [|done].
  set (chunks := Chunker.chunk_text _ _ _ _ _ _).
  set (cp := ["storage"; "chunks"]) in *.
  destruct (save_chunks_store doc_id chunks fs
              (generated_doc_id_parts doc_id Hid) Hw Hnew)
    as (fs' & E & HE & Hfresh & Hsave & Hstore).
  fold cp in HE, Hstore.
  assert (all_chunks fs cp (fst <$> E) = Return old) as Hbefore.
  { revert Hold. unfold load_chunks at 1, fs_bind at 1, fs_exists.
    change (path_parts "./storage/chunks") with cp.
    destruct (resolve fs cp) as [n|] eqn:Hr; simpl in HE.
    - subst n. rewrite bool_decide_eq_true_2 by by eexists. simpl.
      unfold fs_bind, fs_iterdir. rewrite Hr, fs_for_folders.
      destruct (all_chunks fs cp (fst <$> E)); simpl; congruence.
    - injection HE as <-. rewrite bool_decide_eq_false_2 by by intros [? ?].
      simpl. unfold fs_ret. congruence. }
  assert (∀ d q, d ∈ fst <$> E →
                 resolve fs (cp ++ d :: q)
                 = lookup_entry d E ≫= λ n, resolve n q) as HEres.
  { intros d q Hd. rewrite resolve_app.
    destruct (resolve fs cp) as [n|]; simpl in HE.
    - subst n. simpl. by destruct (lookup_entry d E).
    - injection HE as <-. by apply elem_of_nil in Hd. }
  assert (NoDup (fst <$> E)) as HnodupE.
  { destruct (resolve fs cp) as [n|] eqn:Hr; simpl in HE.
    - subst n. by apply Hnodup.
    - injection HE as <-. constructor. }
  exists fs'. eexists. unfold fs_bind. rewrite Hsave. unfold fs_ret.
  split; [reflexivity|]. split; [done|]. split; [done|]. split.
  - intros i c Hc. split.
    + destruct chunks as [|c0 chunks0] eqn:Hchunks; [done|].
      change ["storage"; "chunks"; doc_id; chunk_file_name (Z.of_nat i)]
        with (cp ++ [doc_id] ++ [chunk_file_name (0 + Z.of_nat i)]).
      rewrite resolve_app, Hstore. simpl.
      rewrite lookup_entry_app, Hfresh, lookup_entry_cons.
      rewrite decide_True by done.
      change ((chunk_file_name 0, File (JsonObject (chunk_to_dict c0)))
              :: chunk_files (0 + 1) chunks0)
        with (chunk_files 0 (c0 :: chunks0)).
      by rewrite (lookup_chunk_files 0 (c0 :: chunks0) i c).
    + unfold with_chunk_id. rewrite lookup_insert_eq.
      replace (Chunker.chunk_index c) with (Z.of_nat i); [done|].
      unfold chunks, Chunker.chunk_text in Hc.
      destruct (Chunker.split_words (Some full_text)); [done|].
      apply chunk_loop_positions in Hc. lia.
  - intros fs'' es' es'' Hes' Hes'' Hrel.
    apply (load_chunks_relisted doc_id chunks fs old E fs'' es'');
      [done..|].
    destruct chunks as [|c0 chunks0] eqn:Hchunks.
    + subst fs'. rewrite Hes' in HE. simpl in HE. injection HE as ->.
      by rewrite app_nil_r.
    + rewrite Hstore in Hes'. by injection Hes' as <-.
Qed.

(** X12. [load_chunks] only reads: whatever it returns or raises, the
    file system is as it was. Without a chunks directory it returns the
    empty list, and it raises when a file is in its place. *)
Theorem load_chunks_reads_only chunks_dir fs :
  (load_chunks chunks_dir fs).1 = fs
  ∧ (resolve fs (path_parts chunks_dir) = None →
     load_chunks chunks_dir fs = (fs, Return []))
  ∧ (∀ c, resolve fs (path_parts chunks_dir) = Some (File c) →
          load_chunks chunks_dir fs
          = (fs, Raise (NotADirectoryError
                          (path_str (path_parts chunks_dir))))).
Proof.
  assert (resolve fs (path_parts chunks_dir) = None →
          load_chunks chunks_dir fs = (fs, Return [])) as Hnone.
  { intros Hr. unfold load_chunks, fs_bind, fs_exists. rewrite Hr.
    by rewrite bool_decide_eq_false_2 by by intros [? ?]. }
  assert (∀ c, resolve fs (path_parts chunks_dir) = Some (File c) →
               load_chunks chunks_dir fs
               = (fs, Raise (NotADirectoryError
                               (path_str (path_parts chunks_dir))))) as Hfile.
  { intros c Hr. unfold load_chunks, fs_bind at 1, fs_exists. rewrite Hr.
    rewrite bool_decide_eq_true_2 by by eexists. simpl.
    unfold fs_bind, fs_iterdir. by rewrite Hr. }
  split; [|by split].
  destruct (resolve fs (path_parts chunks_dir)) as [[c|entries]|] eqn:Hr.
  - by rewrite (Hfile c).
  - by rewrite (load_chunks_run _ _ _ Hr).
  - by rewrite Hnone.
Qed.

(** X13. An index that is saved is the one that is loaded: when the index
    directory is there and neither [faiss.index] nor [metadata.pkl] is a
    directory in it, [save_index] of an indexer that holds an index
    returns, and [load_index] on an indexer with the same index path then
    returns [True] and leaves it with that index and those records. An
    indexer without index saves nothing. *)
Theorem saved_index_is_loaded self other fs entries :
  index_path other = index_path self →
  resolve fs (index_path self) = Some (Dir entries) →
  (∀ name sub, name ∈ ["faiss.index"; "metadata.pkl"] →
               lookup_entry name entries ≠ Some (Dir sub)) →
  match index self with
  | None => save_index self fs = (fs, Return ())
  | Some idx =>
      ∃ fs',
        save_index self fs = (fs', Return ())
        ∧ load_index other fs'
          = (set_chunk_metadata (set_index other (Some idx))
                                (chunk_metadata self),
             fs', Return true)
  end.
Proof.
  intros Hpath Hdir _. unfold save_index.
  destruct (index self) as [idx|]; [|done].
  set (ip := index_path self) in *.
  set (fs1 := graft (ip ++ ["faiss.index"]) (File (FaissIndexFile idx)) fs).
  set (fs2 := graft (ip ++ ["metadata.pkl"])
                    (File (PickleFile (chunk_metadata self))) fs1).
  assert (writable (ip ++ ["faiss.index"]) fs) as Hw1.
  { apply (writable_under_dir ip _ _ entries Hdir). simpl.
    by destruct (lookup_entry _ entries). }
  assert (∃ entries1, resolve fs1 ip = Some (Dir entries1)) as [entries1 Hdir1].
  { unfold fs1. rewrite resolve_graft_prefix by done. rewrite Hdir.
    simpl default. rewrite graft_cons. by eexists. }
  assert (writable (ip ++ ["metadata.pkl"]) fs1) as Hw2.
  { apply (writable_under_dir ip _ _ entries1 Hdir1). simpl.
    by destruct (lookup_entry _ entries1). }
  exists fs2. split.
  { unfold fs_bind, fs_write. by rewrite !write_file_graft. }
  assert (resolve fs2 (ip ++ ["faiss.index"])
          = Some (File (FaissIndexFile idx))) as Hindex.
  { unfold fs2. rewrite (resolve_graft_diverge ip) by done.
    by apply resolve_graft. }
  assert (resolve fs2 (ip ++ ["metadata.pkl"])
          = Some (File (PickleFile (chunk_metadata self)))) as Hmeta
    by by apply resolve_graft.
  unfold load_index, fs_exists, fs_bind, fs_read, lift. rewrite Hpath.
  fold ip. rewrite Hindex, Hmeta.
  by rewrite bool_decide_eq_true_2 by by eexists.
Qed.

(** *** Search without a filter on [doc_id] *)

Lemma rejected_without_doc_id filters (chunk : gmap string pyval) :
  match filters with
  | Some f => f !! "doc_id" = None
  | None => True
  end →
  rejected filters chunk = false.
Proof.
  destruct filters as [f|]; [|done]. intros Hf. unfold rejected.
  rewrite Hf. by destruct (truthy (Some f)).
Qed.

Lemma collect_unrejected metadata k filters candidates
      (results : list (gmap string pyval)) :
  (∀ chunk, rejected filters chunk = false) →
  Forall (λ c : Z * scalar, 0 ≤ c.1 < Z.of_nat (length metadata))
         candidates →
  Z.of_nat (length results) < k →
  collect metadata k filters candidates results
  = results
    ++ (result_of metadata
          <$> take (Z.to_nat (k - Z.of_nat (length results))) candidates).
Proof.
  intros Hrej Hrange. revert results.
  induction Hrange as [|[i x] rest Hi Hrest IH]; intros results Hk.
  { rewrite take_nil. simpl. by rewrite app_nil_r. }
  simpl in Hi. cbn [collect].
  destruct (i <? 0) eqn:H1; [lia|]. destruct (i >=? _) eqn:H2; [lia|].
  cbn [orb].
  destruct (lookup_lt_is_Some_2 metadata (Z.to_nat i)) as [entry Hentry];
    [lia|].
  rewrite Hentry, Hrej.
  assert (result_of metadata (i, x) = <["score" := PFloat x]> entry) as Hres.
  { unfold result_of. simpl. by rewrite Hentry. }
  destruct (_ >=? k) eqn:Hge.
  - rewrite length_app, Z.geb_leb in Hge. simpl in Hge.
    apply Z.leb_le in Hge.
    replace (Z.to_nat (k - Z.of_nat (length results))) with 1%nat by lia.
    cbn [take fmap list_fmap]. by rewrite Hres.
  - rewrite length_app, Z.geb_leb in Hge. simpl in Hge.
    apply Z.leb_gt in Hge.
    rewrite IH by (rewrite length_app; simpl; lia).
    rewrite length_app. simpl.
    replace (Z.to_nat (k - Z.of_nat (length results)))
      with (S (Z.to_nat (k - Z.of_nat (length results + 1)))) by lia.
    rewrite firstn_cons, fmap_cons, Hres. by rewrite <- app_assoc.
Qed.

(** X14. Without a [doc_id] among the filters nothing is filtered: on an
    index of one or more vectors, aligned with its metadata, a query of
    the right width with [k >= 1] gives the first [k] of the candidates
    that the index returns, each one as the record at its position with
    its score, in the order of the index; these are [min(k, ntotal)]
    results. The other keys of [filters] have no effect on which records
    are kept. *)
Theorem search_without_doc_id_filter self query_text k filters idx :
  index self = Some idx →
  1 ≤ ntotal idx →
  length (chunk_metadata self) = length (xb idx) →
  length (model self query_text) = d idx →
  1 ≤ k →
  match filters with
  | Some f => f !! "doc_id" = None
  | None => True
  end →
  ∃ candidates,
    index_search idx (normalize_row (model self query_text))
                 (Z.min (search_k k filters) (ntotal idx))
    = Return candidates
    ∧ search self query_text k filters
      = Return (result_of (chunk_metadata self)
                  <$> take (Z.to_nat k) candidates)
    ∧ Z.of_nat (length (take (Z.to_nat k) candidates))
      = Z.min k (ntotal idx).
Proof.
  intros Hidx Hn Halign Hq Hk Hf.
  assert (k ≤ search_k k filters) as Hsk.
  { unfold search_k. destruct (truthy filters); lia. }
  destruct (index_search_returns
              idx (normalize_row (model self query_text))
              (Z.min (search_k k filters) (ntotal idx))) as [candidates Hs];
    [by rewrite normalize_row_length|lia|].
  exists candidates. split; [exact Hs|].
  rewrite (search_unfold _ _ _ _ _ Hidx) by lia. rewrite Hs.
  apply index_search_Return in Hs as (_ & _ & Hcount & Hrange).
  cbn [bind_outcome]. split.
  - f_equal. rewrite collect_unrejected.
    + simpl. by rewrite Z.sub_0_r.
    + intros chunk. by apply rejected_without_doc_id.
    + unfold ntotal in *. rewrite Halign. apply Hrange. lia.
    + simpl. lia.
  - rewrite length_take. lia.
Qed.

(** *** Search with a filter on [doc_id] *)

Lemma collect_filtered metadata k (filters : gmap string pyval) wanted
      candidates (results : list (gmap string pyval)) :
  filters !! "doc_id" = Some wanted →
  Forall (λ c : Z * scalar, 0 ≤ c.1 < Z.of_nat (length metadata))
         candidates →
  Z.of_nat (length results) < k →
  collect metadata k (Some filters) candidates results
  = results
    ++ take (Z.to_nat (k - Z.of_nat (length results)))
            (filter (λ r, py_eq (dict_get r "doc_id") wanted = true)
                    (result_of metadata <$> candidates)).
Proof.
  intros Hf Hrange. revert results.
  induction Hrange as [|[i x] rest Hi Hrest IH]; intros results Hk.
  { rewrite fmap_nil, filter_nil, take_nil. by rewrite app_nil_r. }
  simpl in Hi. cbn [collect].
  destruct (i <? 0) eqn:H1; [lia|]. destruct (i >=? _) eqn:H2; [lia|].
  cbn [orb].
  destruct (lookup_lt_is_Some_2 metadata (Z.to_nat i)) as [entry Hentry];
    [lia|].
  rewrite Hentry, (rejected_doc_id _ _ _ Hf).
  assert (result_of metadata (i, x) = <["score" := PFloat x]> entry) as Hres.
  { unfold result_of. simpl. by rewrite Hentry. }
  rewrite fmap_cons, Hres.
  destruct (py_eq _ wanted) eqn:Heq; cbn [negb].
  - rewrite filter_cons_True by done.
    destruct (_ >=? k) eqn:Hge.
    + rewrite length_app, Z.geb_leb in Hge. simpl in Hge.
      apply Z.leb_le in Hge.
      replace (Z.to_nat (k - Z.of_nat (length results))) with 1%nat by lia.
      cbn [take]. by rewrite take_0.
    + rewrite length_app, Z.geb_leb in Hge. simpl in Hge.
      apply Z.leb_gt in Hge.
      rewrite IH by (rewrite length_app; simpl; lia).
      rewrite length_app. simpl.
      replace (Z.to_nat (k - Z.of_nat (length results)))
        with (S (Z.to_nat (k - Z.of_nat (length results + 1)))) by lia.
      rewrite firstn_cons. by rewrite <- app_assoc.
  - rewrite filter_cons_False by (rewrite Heq; done). by apply IH.
Qed.

(** X15. With a [doc_id] among the filters, on an index of one or more
    vectors, aligned with its metadata, a query of the right width with
    [k >= 1] gives the first [k] of the records that have this [doc_id]
    among the [min(3 * k, ntotal)] candidates that the index returns, each
    with its score, in the order of the index. A record of the document
    that is not among these candidates is not found, even when fewer than
    [k] results are returned. *)
Theorem search_with_doc_id_filter self query_text k
        (filters : gmap string pyval) wanted idx :
  index self = Some idx →
  1 ≤ ntotal idx →
  length (chunk_metadata self) = length (xb idx) →
  length (model self query_text) = d idx →
  1 ≤ k →
  filters !! "doc_id" = Some wanted →
  ∃ candidates,
    index_search idx (normalize_row (model self query_text))
                 (Z.min (k * 3) (ntotal idx))
    = Return candidates
    ∧ search self query_text k (Some filters)
      = Return (take (Z.to_nat k)
                  (filter (λ r, py_eq (dict_get r "doc_id") wanted = true)
                          (result_of (chunk_metadata self) <$> candidates))).
Proof.
  intros Hidx Hn Halign Hq Hk Hf.
  destruct (index_search_returns
              idx (normalize_row (model self query_text))
              (Z.min (k * 3) (ntotal idx))) as [candidates Hs];
    [by rewrite normalize_row_length|lia|].
  exists candidates. split; [exact Hs|].
  rewrite (search_unfold _ _ _ _ _ Hidx) by lia.
  unfold search_k. rewrite (truthy_doc_id _ _ Hf), Hs.
  apply index_search_Return in Hs as (_ & _ & Hcount & Hrange).
  cbn [bind_outcome]. f_equal.
  rewrite (collect_filtered _ _ _ wanted); [|done| |simpl; lia].
  - simpl. by rewrite Z.sub_0_r.
  - unfold ntotal in *. rewrite Halign. apply Hrange. lia.
Qed.

End PipelineFacts.

Section PipelineExamples.
Import PyStr Indexer Ingest IntegerKernel Examples.

Lemma save_chunk_writes_the_record_witness :
  ∃ fs',
    save_chunk sample_doc_id 0 (chunk_to_dict sample_chunk) empty_fs
    = (fs', Return ["storage"; "chunks"; sample_doc_id; "chunk_0.json"])
    ∧ resolve fs' ["storage"; "chunks"; sample_doc_id; "chunk_0.json"]
      = Some (File (JsonObject (chunk_to_dict sample_chunk))).
Proof.
  assert (stays_below sample_doc_id) as Hbelow.
  { split; [reflexivity|]. intros Hin.
    apply list_elem_of_singleton in Hin. discriminate Hin. }
  destruct (proj1 (save_chunk_writes_the_record
                     sample_doc_id 0 (chunk_to_dict sample_chunk) empty_fs
                     Hbelow))
    as (fs' & Hrun & Hres & _).
  - exact I.
  - intros entries. discriminate.
  - exists fs'. split; [exact Hrun|exact Hres].
Defined.

Lemma ingest_then_load_witness :
  ∃ fs' s,
    ingest_main sample_files sample_doc_id "in/report.pdf" empty_fs
    = (fs', Return (Ingested s))
    ∧ summary_chunks s = 1
    ∧ ∃ loaded,
        load_chunks "./storage/chunks" fs' = (fs', Return loaded)
        ∧ length loaded = 1%nat.
Proof.
  pose proof (ingest_then_load
                sample_files sample_doc_id "in/report.pdf" empty_fs []
                (conj eq_refl eq_refl) I eq_refl
                ltac:(intros E HE; discriminate HE) eq_refl) as H.
  change (sample_files "in/report.pdf") with (Some sample_pdf) in H.
  cbv beta iota in H.
  change (Extraction.extract_text sample_files "in/report.pdf")
    with (Return ("Page one text scanned page", sample_page_texts)) in H.
  cbv beta iota zeta in H.
  destruct H as (fs' & s & Hrun & _ & Hcount & _ & Hload).
  exists fs', s. split; [exact Hrun|]. split; [exact Hcount|].
  assert (∃ es', resolve fs' ["storage"; "chunks"] = Some (Dir es'))
    as [es' Hes'].
  { vm_compute in Hrun. injection Hrun as <- _. eexists. reflexivity. }
  destruct (Hload fs' es' es' Hes' Hes' (relisted_refl _ _))
    as (before & after & Hl & Hperm).
  apply Permutation_sym, Permutation_nil, app_eq_nil in Hperm as [-> ->].
  eexists. split; [exact Hl|]. reflexivity.
Defined.

Lemma load_chunks_reads_only_witness :
  load_chunks "./storage/chunks" empty_fs = (empty_fs, Return []).
Proof.
  apply (proj1 (proj2 (load_chunks_reads_only "./storage/chunks" empty_fs))).
  reflexivity.
Defined.

Lemma saved_index_is_loaded_witness :
  ∃ fs',
    save_index built_indexer empty_index_fs = (fs', Return ())
    ∧ load_index fresh_indexer fs' = (built_indexer, fs', Return true).
Proof.
  apply (saved_index_is_loaded built_indexer fresh_indexer empty_index_fs []
           eq_refl eq_refl).
  intros name sub _. discriminate.
Defined.

Lemma search_without_doc_id_filter_witness :
  ∃ candidates,
    index_search two_chunk_index
                 (normalize_row (model two_chunk_indexer "GMP"))
                 (Z.min (search_k 1 (Some source_filter))
                        (ntotal two_chunk_index))
    = Return candidates
    ∧ search two_chunk_indexer "GMP" 1 (Some source_filter)
      = Return (result_of (chunk_metadata two_chunk_indexer)
                  <$> take (Z.to_nat 1) candidates)
    ∧ Z.of_nat (length (take (Z.to_nat 1) candidates))
      = Z.min 1 (ntotal two_chunk_index).
Proof.
  apply (search_without_doc_id_filter
           two_chunk_indexer "GMP" 1 (Some source_filter) two_chunk_index).
  - reflexivity.
  - vm_compute. discriminate.
  - reflexivity.
  - reflexivity.
  - lia.
  - reflexivity.
Defined.

Lemma search_with_doc_id_filter_witness :
  ∃ candidates,
    index_search two_chunk_index
                 (normalize_row (model two_chunk_indexer "GMP"))
                 (Z.min (1 * 3) (ntotal two_chunk_index))
    = Return candidates
    ∧ search two_chunk_indexer "GMP" 1 (Some (doc_filter "test_doc_123"))
      = Return (take (Z.to_nat 1)
                  (filter (λ r, py_eq (dict_get r "doc_id")
                                      (PStr "test_doc_123") = true)
                          (result_of (chunk_metadata two_chunk_indexer)
                             <$> candidates))).
Proof.
  apply (search_with_doc_id_filter
           two_chunk_indexer "GMP" 1 (doc_filter "test_doc_123")
           (PStr "test_doc_123") two_chunk_index).
  - reflexivity.
  - vm_compute. discriminate.
  - reflexivity.
  - reflexivity.
  - lia.
  - reflexivity.
Defined.

End PipelineExamples.
